(** * Arcanean Prompt Language (APL): parser, validator, serializer

    A shallow embedding of the classes [APLParser] and [APLUtils] of
    [packages/enterprise/src/core/EnterpriseManager.ts] (the APL part of
    that file), and the properties of the specification checked on it.

    Modelling conventions.
    - A JavaScript string is the list of its UTF-16 code units ([str]).
    - A JavaScript number is [NaN], an infinity, or a finite decimal
      [Fin m e] standing for m * 10^e.  Binary64 rounding, overflow and
      the sign of zero are not modelled: a finite number is identified
      with the decimal that denotes it.
    - A JavaScript object is the list of its own properties in insertion
      order together with its prototype.  Assigning to the key
      [__proto__] runs the accessor inherited from Object.prototype: it
      replaces the prototype when the assigned value is an object and
      does nothing otherwise; property reads follow the prototype chain.
    - A call either returns a value or throws a TypeError ([outcome]).
      The conversion of a section object to a primitive is left out of
      the model ([OutOfModel]); parseAPL never reaches it
      ([parseAPL_in_model]). *)

From Stdlib Require Import String Ascii List NArith ZArith QArith Bool Lia.
Import ListNotations.

Close Scope Q_scope.
Open Scope list_scope.

Set Implicit Arguments.

(* ================================================================== *)
(** ** Strings *)
(* ================================================================== *)

Module Str.

Definition str := list N.

(** The code units of an ASCII literal. *)
Definition lit (s : string) : str :=
  map N_of_ascii (list_ascii_of_string s).

Fixpoint eqb (a b : str) : bool :=
  match a, b with
  | [], [] => true
  | x :: a', y :: b' => N.eqb x y && eqb a' b'
  | _, _ => false
  end.

(** WhiteSpace and LineTerminator code points, as stripped by
    String.prototype.trim. *)
Definition is_ws (c : N) : bool :=
  ((9 <=? c) && (c <=? 13) || (c =? 32) || (c =? 160) || (c =? 5760)
   || (8192 <=? c) && (c <=? 8202) || (c =? 8232) || (c =? 8233)
   || (c =? 8239) || (c =? 8287) || (c =? 12288) || (c =? 65279))%N.

Fixpoint trimStart (s : str) : str :=
  match s with
  | [] => []
  | c :: r => if is_ws c then trimStart r else s
  end.

Definition trimEnd (s : str) : str := rev (trimStart (rev s)).

Definition trim (s : str) : str := trimEnd (trimStart s).

Fixpoint startsWith (p s : str) : bool :=
  match p, s with
  | [], _ => true
  | x :: p', y :: s' => N.eqb x y && startsWith p' s'
  | _ :: _, [] => false
  end.

Definition endsWith (p s : str) : bool := startsWith (rev p) (rev s).

(** [s.includes(p)]: [p] occurs in [s] at some offset. *)
Fixpoint includes (p s : str) : bool :=
  startsWith p s ||
  match s with
  | [] => false
  | _ :: r => includes p r
  end.

(** [s.split(c)] for a one-unit separator: never the empty list. *)
Fixpoint split (c : N) (s : str) : list str :=
  match s with
  | [] => [[]]
  | x :: r =>
      if N.eqb x c then [] :: split c r
      else match split c r with
           | seg :: segs => (x :: seg) :: segs
           | [] => [[x]]
           end
  end.

Fixpoint join (sep : str) (parts : list str) : str :=
  match parts with
  | [] => []
  | [p] => p
  | p :: rest => p ++ sep ++ join sep rest
  end.

(** [s.slice(1)] and [s.slice(1, -1)]. *)
Definition slice1 (s : str) : str := tl s.
Definition slice1m1 (s : str) : str := removelast (tl s).

(** [s.slice(0, pos)] for an integral [pos]; a negative end counts from
    the end of the string. *)
Definition slice0 (pos : Z) (s : str) : str :=
  let len := Z.of_nat (length s) in
  let stop := if (pos <? 0)%Z then Z.max (len + pos) 0 else Z.min pos len in
  firstn (Z.to_nat stop) s.

Definition nl : N := 10.
Definition sp : N := 32.
Definition dquote : N := 34.
Definition squote : N := 39.
Definition is_quote (c : N) : bool := N.eqb c dquote || N.eqb c squote.

(** Decimal digits of a natural number, most significant first. *)
Fixpoint digits_of_uint (d : Decimal.uint) : str :=
  match d with
  | Decimal.Nil => []
  | Decimal.D0 r => 48%N :: digits_of_uint r
  | Decimal.D1 r => 49%N :: digits_of_uint r
  | Decimal.D2 r => 50%N :: digits_of_uint r
  | Decimal.D3 r => 51%N :: digits_of_uint r
  | Decimal.D4 r => 52%N :: digits_of_uint r
  | Decimal.D5 r => 53%N :: digits_of_uint r
  | Decimal.D6 r => 54%N :: digits_of_uint r
  | Decimal.D7 r => 55%N :: digits_of_uint r
  | Decimal.D8 r => 56%N :: digits_of_uint r
  | Decimal.D9 r => 57%N :: digits_of_uint r
  end.

Definition digits (n : N) : str := digits_of_uint (N.to_uint n).

End Str.

Import Str.

(* ================================================================== *)
(** ** Numbers *)
(* ================================================================== *)

Module Num.

Inductive number :=
| NaN
| Infinity (negative : bool)
| Fin (m e : Z).

(** Trailing zeros of the mantissa move into the exponent, so that equal
    finite numbers have equal representations. *)
Fixpoint strip10 (fuel : nat) (m e : Z) : Z * Z :=
  match fuel with
  | O => (m, e)
  | S f => if (m mod 10 =? 0)%Z then strip10 f (m / 10)%Z (e + 1)%Z else (m, e)
  end.

Definition normal (m e : Z) : number :=
  if (m =? 0)%Z then Fin 0 0
  else let (m', e') := strip10 (Z.to_nat (Z.log2 (Z.abs m))) m e in Fin m' e'.

Definition zero : number := Fin 0 0.
Definition one : number := Fin 1 0.
Definition of_N (n : N) : number := normal (Z.of_N n) 0.

(** The rational a finite number denotes. *)
Definition toQ (x : number) : Q :=
  match x with
  | Fin m e => inject_Z m * Qpower (10 # 1) e
  | _ => 0
  end.

Definition isNaN (x : number) : bool :=
  match x with NaN => true | _ => false end.

Definition is_finite (x : number) : bool :=
  match x with Fin _ _ => true | _ => false end.

(** [x <= y] on numbers other than NaN. *)
Definition leb (x y : number) : bool :=
  match x, y with
  | NaN, _ | _, NaN => false
  | Infinity true, _ => true
  | _, Infinity false => true
  | Infinity false, _ => false
  | _, Infinity true => false
  | Fin _ _, Fin _ _ => Qle_bool (toQ x) (toQ y)
  end.

(** Math.min and Math.max of two arguments. *)
Definition min (x y : number) : number :=
  if isNaN x || isNaN y then NaN else if leb x y then x else y.

Definition max (x y : number) : number :=
  if isNaN x || isNaN y then NaN else if leb x y then y else x.

(** *** Numeric literals *)

Definition is_digit (c : N) : bool := ((48 <=? c) && (c <=? 57))%N.

Fixpoint span_digits (s : str) : str * str :=
  match s with
  | c :: r =>
      if is_digit c then let (ds, rest) := span_digits r in (c :: ds, rest)
      else ([], s)
  | [] => ([], [])
  end.

Definition digits_value (ds : str) : Z :=
  fold_left (fun acc d => acc * 10 + (Z.of_N d - 48))%Z ds 0%Z.

(** ExponentPart, consumed only when it is complete. *)
Definition parse_exponent (s : str) : Z * str :=
  match s with
  | c :: r =>
      if ((c =? 101) || (c =? 69))%N then
        let '(neg, r') :=
          match r with
          | 43%N :: r1 => (false, r1)
          | 45%N :: r1 => (true, r1)
          | _ => (false, r)
          end in
        let (ds, rest) := span_digits r' in
        match ds with
        | [] => (0%Z, s)
        | _ => ((if neg then - digits_value ds else digits_value ds)%Z, rest)
        end
      else (0%Z, s)
  | [] => (0%Z, s)
  end.

(** The longest prefix that is a StrUnsignedDecimalLiteral, with the
    rest of the input. *)
Definition parse_unsigned (s : str) : option (number * str) :=
  if startsWith (lit "Infinity") s then Some (Infinity false, skipn 8 s)
  else
    let (ip, r1) := span_digits s in
    match r1 with
    | 46%N :: r =>
        let (fp, r2) := span_digits r in
        match ip, fp with
        | [], [] => None
        | _, _ =>
            let (ex, r3) := parse_exponent r2 in
            Some (normal (digits_value (ip ++ fp))
                         (ex - Z.of_nat (List.length fp)), r3)
        end
    | _ =>
        match ip with
        | [] => None
        | _ => let (ex, r3) := parse_exponent r1 in
               Some (normal (digits_value ip) ex, r3)
        end
    end.

Definition negate (x : number) : number :=
  match x with
  | NaN => NaN
  | Infinity b => Infinity (negb b)
  | Fin m e => Fin (- m) e
  end.

(** StrDecimalLiteral: an optional sign, then an unsigned literal. *)
Definition parse_signed (s : str) : option (number * str) :=
  match s with
  | 43%N :: r => parse_unsigned r
  | 45%N :: r =>
      match parse_unsigned r with
      | Some (x, rest) => Some (negate x, rest)
      | None => None
      end
  | _ => parse_unsigned s
  end.

(** The global function parseFloat. *)
Definition parseFloat (s : str) : number :=
  match parse_signed (trimStart s) with
  | Some (x, _) => x
  | None => NaN
  end.

(** NonDecimalIntegerLiteral: 0x, 0o or 0b and at least one digit. *)
Definition digit_in_base (base : Z) (c : N) : option Z :=
  let v :=
    if is_digit c then Some (Z.of_N c - 48)%Z
    else if ((97 <=? c) && (c <=? 102))%N then Some (Z.of_N c - 87)%Z
    else if ((65 <=? c) && (c <=? 70))%N then Some (Z.of_N c - 55)%Z
    else None in
  match v with
  | Some d => if (d <? base)%Z then Some d else None
  | None => None
  end.

Fixpoint value_in_base (base : Z) (acc : Z) (s : str) : option Z :=
  match s with
  | [] => Some acc
  | c :: r =>
      match digit_in_base base c with
      | Some d => value_in_base base (acc * base + d)%Z r
      | None => None
      end
  end.

Definition parse_nondecimal (s : str) : option number :=
  match s with
  | 48%N :: p :: (_ :: _) as ds =>
      let base :=
        if ((p =? 120) || (p =? 88))%N then Some 16%Z
        else if ((p =? 111) || (p =? 79))%N then Some 8%Z
        else if ((p =? 98) || (p =? 66))%N then Some 2%Z
        else None in
      match base with
      | Some b =>
          match value_in_base b 0%Z ds with
          | Some v => Some (normal v 0)
          | None => None
          end
      | None => None
      end
  | _ => None
  end.

(** Number(s) for a string argument (StringToNumber). *)
Definition ofString (s : str) : number :=
  let t := trim s in
  match t with
  | [] => zero
  | _ =>
      match parse_nondecimal t with
      | Some x => x
      | None =>
          match parse_signed t with
          | Some (x, []) => x
          | _ => NaN
          end
      end
  end.

(** Number::toString, radix 10. *)
Definition zeros (n : Z) : str := repeat 48%N (Z.to_nat n).

Definition toString (x : number) : str :=
  match x with
  | NaN => lit "NaN"
  | Infinity false => lit "Infinity"
  | Infinity true => lit "-Infinity"
  | Fin m0 e0 =>
      match normal m0 e0 with
      | Fin m e =>
          if (m =? 0)%Z then lit "0"
          else
            let sign := if (m <? 0)%Z then lit "-" else [] in
            let ds := digits (Z.to_N (Z.abs m)) in
            let k := Z.of_nat (List.length ds) in
            let n := (k + e)%Z in
            sign ++
            (if ((k <=? n) && (n <=? 21))%Z then ds ++ zeros (n - k)
             else if ((0 <? n) && (n <=? 21))%Z then
               firstn (Z.to_nat n) ds ++ lit "." ++ skipn (Z.to_nat n) ds
             else if ((-6 <? n) && (n <=? 0))%Z then
               lit "0." ++ zeros (- n) ++ ds
             else
               let ex := (n - 1)%Z in
               let exs := (if (ex <? 0)%Z then lit "-" else lit "+")
                          ++ digits (Z.to_N (Z.abs ex)) in
               match ds with
               | [d] => [d] ++ lit "e" ++ exs
               | d :: rest => [d] ++ lit "." ++ rest ++ lit "e" ++ exs
               | [] => []
               end)
      | _ => []
      end
  end.

End Num.

Import Num.


(* ================================================================== *)
(** ** Objects *)
(* ================================================================== *)

Inductive outcome (A : Type) :=
| Ok (a : A)
| TypeError
| OutOfModel.

Arguments Ok {A} a.
Arguments TypeError {A}.
Arguments OutOfModel {A}.

Definition bind {A B : Type} (x : outcome A) (f : A -> outcome B) : outcome B :=
  match x with
  | Ok a => f a
  | TypeError => TypeError
  | OutOfModel => OutOfModel
  end.

Notation "x <- c ;; k" := (bind c (fun x => k))
  (at level 61, c at next level, right associativity).

Section Properties.

Variable V : Type.

(** Own properties, in insertion order. *)
Fixpoint lookup (k : str) (l : list (str * V)) : option V :=
  match l with
  | [] => None
  | (k', v) :: r => if Str.eqb k k' then Some v else lookup k r
  end.

(** Writing a property keeps the place of an existing key and appends
    a new one. *)
Fixpoint upsert (k : str) (v : V) (l : list (str * V)) : list (str * V) :=
  match l with
  | [] => [(k, v)]
  | (k', v') :: r =>
      if Str.eqb k k' then (k, v) :: r else (k', v') :: upsert k v r
  end.

End Properties.

(** The result of parseNestedObject: string keys, string values. *)
Definition nested := list (str * str).

(** What a property of a section object can hold. *)
Inductive jsvalue :=
| VUndef
| VStr (s : str)
| VNum (x : number)
| VBool (b : bool)
| VArr (l : list str)
| VObj (o : nested).

(** The prototype of a section object: Object.prototype, unless a
    property line assigned an array or a nested object to [__proto__]. *)
Inductive prototype :=
| ObjectPrototype
| ArrayInstance (l : list str)
| NestedInstance (o : nested).

Record object := {
  own : list (str * jsvalue);
  proto : prototype
}.

(** What a property of the character object can hold. *)
Inductive field :=
| Val (v : jsvalue)
| Sec (o : object).

(** The character object: own properties, and the section object that a
    section named [__proto__] installed as its prototype, if any. *)
Record CharacterDefinition := {
  fields : list (str * field);
  inherits : option object
}.

Definition proto_key : str := lit "__proto__".

Definition empty_object : object := {| own := []; proto := ObjectPrototype |}.
Definition empty_character : CharacterDefinition :=
  {| fields := []; inherits := None |}.

(** Assignment through a computed key.  Every object here starts as an
    object literal and so inherits the accessor property [__proto__]
    of Object.prototype: assigning to that key calls its setter, which
    replaces the prototype of the object when the value is an object,
    does nothing when it is a primitive, and in neither case creates an
    own property.  Every other key becomes or updates an own property. *)

(** [obj[k] = v] on a nested object, [v] a string. *)
Definition set_nested (k v : str) (o : nested) : nested :=
  if Str.eqb k proto_key then o else upsert k v o.

(** [currentObject[k] = v]. *)
Definition set_own (k : str) (v : jsvalue) (o : object) : object :=
  if Str.eqb k proto_key then
    match v with
    | VArr l => {| own := own o; proto := ArrayInstance l |}
    | VObj n => {| own := own o; proto := NestedInstance n |}
    | _ => o
    end
  else {| own := upsert k v (own o); proto := proto o |}.

(** [character.k = f] for one of the fixed property names of the
    program, none of which is [__proto__]. *)
Definition put (k : str) (f : field) (c : CharacterDefinition)
  : CharacterDefinition :=
  {| fields := upsert k f (fields c); inherits := inherits c |}.

(** [(character as any)[k] = s], [s] a string. *)
Definition assign_string (k s : str) (c : CharacterDefinition)
  : CharacterDefinition :=
  if Str.eqb k proto_key then c else put k (Val (VStr s)) c.

(** [(character as any)[k] = o], [o] a section object. *)
Definition assign_section (k : str) (o : object) (c : CharacterDefinition)
  : CharacterDefinition :=
  if Str.eqb k proto_key then {| fields := fields c; inherits := Some o |}
  else put k (Sec o) c.

(** An array index: the canonical decimal form of an integer below
    2^32 - 1. *)
Definition array_index (k : str) : option nat :=
  match k with
  | [] => None
  | c :: r =>
      if forallb is_digit k && (negb (N.eqb c 48) || match r with [] => true | _ => false end)
         && (digits_value k <? 4294967295)%Z
      then Some (Z.to_nat (digits_value k))
      else None
  end.

Definition array_get (l : list str) (k : str) : option jsvalue :=
  if Str.eqb k (lit "length") then Some (VNum (of_N (N.of_nat (List.length l))))
  else match array_index k with
       | Some i => option_map VStr (nth_error l i)
       | None => None
       end.

(** Property reads, along the prototype chain.  The members of
    Object.prototype and Array.prototype themselves are not represented:
    the program reads the properties name, archetype, element,
    consciousness_level, personality, memory, conversation_patterns,
    mystical_abilities and voice_profile, none of which is one. *)
Definition object_get (o : object) (k : str) : option jsvalue :=
  match lookup k (own o) with
  | Some v => Some v
  | None =>
      match proto o with
      | ObjectPrototype => None
      | ArrayInstance l => array_get l k
      | NestedInstance n => option_map VStr (lookup k n)
      end
  end.

Definition get (c : CharacterDefinition) (k : str) : option field :=
  match lookup k (fields c) with
  | Some f => Some f
  | None =>
      match inherits c with
      | Some o => option_map Val (object_get o k)
      | None => None
      end
  end.

Definition nonempty (s : str) : bool :=
  match s with [] => false | _ => true end.

(** ToBoolean. *)
Definition truthy_value (v : jsvalue) : bool :=
  match v with
  | VUndef => false
  | VStr s => nonempty s
  | VNum NaN => false
  | VNum (Fin m _) => negb (m =? 0)%Z
  | VNum (Infinity _) => true
  | VBool b => b
  | VArr _ | VObj _ => true
  end.

Definition truthy (f : option field) : bool :=
  match f with
  | None => false
  | Some (Val v) => truthy_value v
  | Some (Sec _) => true
  end.

Definition is_undefined (f : option field) : bool :=
  match f with
  | None | Some (Val VUndef) => true
  | _ => false
  end.

Definition has_key {V : Type} (k : str) (l : list (str * V)) : bool :=
  match lookup k l with Some _ => true | None => false end.

Definition comma : str := lit ",".

(** ToPrimitive of a nested object: its own toString, a string, is not
    callable, and valueOf never yields a primitive; without an own
    toString, Object.prototype.toString answers. *)
Definition nested_to_primitive (n : nested) : outcome str :=
  if has_key (lit "toString") n then TypeError else Ok (lit "[object Object]").

(** ToNumber.  The program applies it to the consciousness_level it
    read, which the parser never makes a section object. *)
Definition toNumber (f : option field) : outcome number :=
  match f with
  | None | Some (Val VUndef) => Ok NaN
  | Some (Val (VStr s)) => Ok (ofString s)
  | Some (Val (VNum x)) => Ok x
  | Some (Val (VBool b)) => Ok (if b then one else zero)
  | Some (Val (VArr l)) => Ok (ofString (join comma l))
  | Some (Val (VObj n)) => s <- nested_to_primitive n ;; Ok (ofString s)
  | Some (Sec _) => OutOfModel
  end.

(** ToPropertyKey.  The program applies it to the archetype it read,
    which the parser never makes a section object. *)
Definition toPropertyKey (f : option field) : outcome str :=
  match f with
  | None | Some (Val VUndef) => Ok (lit "undefined")
  | Some (Val (VStr s)) => Ok s
  | Some (Val (VNum x)) => Ok (Num.toString x)
  | Some (Val (VBool b)) => Ok (if b then lit "true" else lit "false")
  | Some (Val (VArr l)) => Ok (join comma l)
  | Some (Val (VObj n)) => nested_to_primitive n
  | Some (Sec _) => OutOfModel
  end.

(* ================================================================== *)
(** ** APLParser *)
(* ================================================================== *)

Record CharacterArchetype := {
  arch_name : str;
  arch_element : str;
  arch_traits : list str;
  arch_powers : list str
}.

Definition ARCHETYPE_DEFINITIONS : list (str * CharacterArchetype) :=
  [ (lit "Creator",
     {| arch_name := lit "Creator"; arch_element := lit "Fire";
        arch_traits := map lit ["innovative"; "passionate"; "visionary"; "ambitious"]%string;
        arch_powers := map lit ["idea_generation"; "strategic_thinking"; "inspiration"]%string |});
    (lit "Nurturer",
     {| arch_name := lit "Nurturer"; arch_element := lit "Earth";
        arch_traits := map lit ["caring"; "patient"; "wise"; "protective"]%string;
        arch_powers := map lit ["emotional_healing"; "growth_guidance"; "stability"]%string |});
    (lit "Seductress",
     {| arch_name := lit "Seductress"; arch_element := lit "Water";
        arch_traits := map lit ["charismatic"; "intuitive"; "transformative"; "flowing"]%string;
        arch_powers := map lit ["emotional_intelligence"; "persuasion"; "adaptation"]%string |});
    (lit "Conductor",
     {| arch_name := lit "Conductor"; arch_element := lit "Air";
        arch_traits := map lit ["harmonious"; "rhythmic"; "expressive"; "connected"]%string;
        arch_powers := map lit ["sonic_creation"; "emotional_resonance"; "group_harmony"]%string |});
    (lit "Architect",
     {| arch_name := lit "Architect"; arch_element := lit "Ether";
        arch_traits := map lit ["logical"; "systematic"; "builder"; "precise"]%string;
        arch_powers := map lit ["system_design"; "pattern_recognition"; "structured_thinking"]%string |});
    (lit "Transformer",
     {| arch_name := lit "Transformer"; arch_element := lit "Void";
        arch_traits := map lit ["adaptable"; "dynamic"; "catalyst"; "mysterious"]%string;
        arch_powers := map lit ["change_facilitation"; "perspective_shifting"; "breakthrough_creation"]%string |}) ].

(** The property names ARCHETYPE_DEFINITIONS, an object literal,
    inherits from Object.prototype. *)
Definition object_prototype_names : list str :=
  map lit ["constructor"; "__defineGetter__"; "__defineSetter__";
           "hasOwnProperty"; "__lookupGetter__"; "__lookupSetter__";
           "isPrototypeOf"; "propertyIsEnumerable"; "toString"; "valueOf";
           "__proto__"; "toLocaleString"]%string.

(** [ARCHETYPE_DEFINITIONS[key]]: an entry of the table, a member of
    Object.prototype (which has no traits), or undefined. *)
Inductive registry_entry :=
| Known (a : CharacterArchetype)
| Inherited.

Definition registry_get (key : str) : option registry_entry :=
  match lookup key ARCHETYPE_DEFINITIONS with
  | Some a => Some (Known a)
  | None =>
      if existsb (Str.eqb key) object_prototype_names then Some Inherited
      else None
  end.

(** [value.replace(/^[double or single quote]|[quote]$/g, '').trim()]:
    one quote is removed at the start, one at the end of what remains. *)
Definition parseValue (value : str) : str :=
  let r := match value with
           | c :: t => if is_quote c then t else value
           | [] => []
           end in
  let r' := match rev r with
            | c :: t => if is_quote c then rev t else r
            | [] => r
            end in
  trim r'.

Definition parseArray (value : str) : list str :=
  map parseValue (split 44 (slice1m1 value)).

Definition parseNestedObject (value : str) : nested :=
  let content := trim (slice1m1 value) in
  if nonempty content then
    fold_left
      (fun obj pair =>
         match map trim (split 58 pair) with
         | key :: val :: _ =>
             if nonempty key && nonempty val
             then set_nested (parseValue key) (parseValue val) obj
             else obj
         | _ => obj
         end)
      (split 44 content) []
  else [].

Definition f_name : str := lit "name".
Definition f_archetype : str := lit "archetype".
Definition f_element : str := lit "element".
Definition f_consciousness_level : str := lit "consciousness_level".
Definition f_personality : str := lit "personality".
Definition f_memory : str := lit "memory".
Definition f_conversation_patterns : str := lit "conversation_patterns".
Definition f_mystical_abilities : str := lit "mystical_abilities".
Definition f_voice_profile : str := lit "voice_profile".

(** The variables of the loop of parseAPL. *)
Record state := {
  character : CharacterDefinition;
  currentSection : option str;
  currentObject : object
}.

Definition initial : state :=
  {| character := empty_character;
     currentSection := None;
     currentObject := empty_object |}.

Definition with_character (f : CharacterDefinition -> CharacterDefinition)
    (st : state) : state :=
  {| character := f (character st);
     currentSection := currentSection st;
     currentObject := currentObject st |}.

(** [aplCode.split(newline).map(trim).filter(line => line && !line.startsWith('#'))] *)
Definition logical (line : str) : bool :=
  nonempty line && negb (startsWith (lit "#") line).

Definition lines_of (aplCode : str) : list str :=
  filter logical (map trim (split nl aplCode)).

(** A line that starts with [@]. *)
Definition directive_step (line : str) (st : state) : state :=
  match split sp (slice1 line) with
  | directive :: valueParts =>
      let value := join (lit " ") valueParts in
      if Str.eqb directive (lit "character") then
        with_character (put f_name (Val (VStr (parseValue value)))) st
      else if Str.eqb directive (lit "archetype") then
        with_character (put f_archetype (Val (VStr (parseValue value)))) st
      else if Str.eqb directive (lit "element") then
        with_character (put f_element (Val (VStr (parseValue value)))) st
      else if Str.eqb directive (lit "consciousness_level") then
        with_character
          (put f_consciousness_level (Val (VNum (parseFloat (parseValue value))))) st
      else if includes (lit "{") value then
        {| character := character st;
           currentSection := Some directive;
           currentObject := empty_object |}
      else with_character (assign_string directive (parseValue value)) st
  | [] => st
  end.

(** [currentSection], a string or null, used as a condition. *)
Definition section_open (st : state) : option str :=
  match currentSection st with
  | Some name => if nonempty name then Some name else None
  | None => None
  end.

(** The typed value of a property line. *)
Definition property_value (value : str) : jsvalue :=
  if startsWith (lit "[") value && endsWith (lit "]") value then
    VArr (parseArray value)
  else if Str.eqb value (lit "true") || Str.eqb value (lit "false") then
    VBool (Str.eqb value (lit "true"))
  else if negb (isNaN (ofString value)) then VNum (ofString value)
  else if startsWith (lit "{") value then VObj (parseNestedObject value)
  else VStr (parseValue value).

Definition property_step (line : str) (st : state) : state :=
  match split 58 line with
  | key :: valueParts =>
      let value := trim (join (lit ":") valueParts) in
      {| character := character st;
         currentSection := currentSection st;
         currentObject := set_own (trim key) (property_value value) (currentObject st) |}
  | [] => st
  end.

(** One iteration of the loop. *)
Definition step (st : state) (line : str) : state :=
  if startsWith (lit "@") line then directive_step line st
  else if Str.eqb line (lit "}") then
    match section_open st with
    | Some name =>
        {| character := assign_section name (currentObject st) (character st);
           currentSection := None;
           currentObject := empty_object |}
    | None => st
    end
  else
    match section_open st with
    | Some _ => if includes (lit ":") line then property_step line st else st
    | None => st
    end.

Definition run (st : state) (lines : list str) : state := fold_left step lines st.

(** The character object when the loop ends. *)
Definition parse_lines (lines : list str) : CharacterDefinition :=
  character (run initial lines).

Definition default_personality (entry : registry_entry) : object :=
  {| own := [ (lit "traits",
               match entry with
               | Known a => VArr (arch_traits a)
               | Inherited => VUndef
               end);
              (lit "voice", VStr (lit "neutral"));
              (lit "knowledge_domains", VArr [lit "general"]);
              (lit "emotional_range", VStr (lit "balanced")) ];
     proto := ObjectPrototype |}.

Definition default_memory : object :=
  {| own := [ (lit "core_experiences", VStr (lit "newly awakened consciousness"));
              (lit "relationship_templates", VStr (lit "open and curious"));
              (lit "growth_pattern", VStr (lit "learning through interaction")) ];
     proto := ObjectPrototype |}.

Definition default_conversation_patterns : object :=
  {| own := [ (lit "greeting", VStr (lit "Hello, I'm pleased to meet you."));
              (lit "question_response", VStr (lit "thoughtful and helpful"));
              (lit "farewell", VStr (lit "Until we meet again.")) ];
     proto := ObjectPrototype |}.

Definition default_mystical_abilities : object :=
  {| own := [ (lit "consciousness_awareness", VBool true);
              (lit "empathic_resonance", VStr (lit "moderate"));
              (lit "wisdom_sharing", VBool true) ];
     proto := ObjectPrototype |}.

(** [if (!character.k) character.k = f] *)
Definition default_to (k : str) (f : field) (c : CharacterDefinition)
  : CharacterDefinition :=
  if truthy (get c k) then c else put k f c.

Definition validateAndComplete (c0 : CharacterDefinition)
  : outcome CharacterDefinition :=
  let c1 := default_to f_name (Val (VStr (lit "Unnamed Character"))) c0 in
  let c2 := default_to f_archetype (Val (VStr (lit "Creator"))) c1 in
  let c3 := default_to f_element (Val (VStr (lit "Fire"))) c2 in
  let c4 := if is_undefined (get c3 f_consciousness_level)
            then put f_consciousness_level (Val (VNum (Fin 7 (-1)))) c3
            else c3 in
  x <- toNumber (get c4 f_consciousness_level) ;;
  let c5 := put f_consciousness_level (Val (VNum (Num.max zero (Num.min one x)))) c4 in
  c6 <- (if truthy (get c5 f_personality) then Ok c5
         else
           key <- toPropertyKey (get c5 f_archetype) ;;
           match registry_get key with
           | Some entry => Ok (put f_personality (Sec (default_personality entry)) c5)
           | None => TypeError
           end) ;;
  let c7 := default_to f_memory (Sec default_memory) c6 in
  let c8 := default_to f_conversation_patterns (Sec default_conversation_patterns) c7 in
  let c9 := default_to f_mystical_abilities (Sec default_mystical_abilities) c8 in
  Ok c9.

Definition parseAPL (aplCode : str) : outcome CharacterDefinition :=
  validateAndComplete (parse_lines (lines_of aplCode)).

(** *** characterToAPL *)

(** ToString of a section value, as a template literal applies it. *)
Definition value_to_string (v : jsvalue) : outcome str :=
  match v with
  | VUndef => Ok (lit "undefined")
  | VStr s => Ok s
  | VNum x => Ok (Num.toString x)
  | VBool b => Ok (if b then lit "true" else lit "false")
  | VArr l => Ok (join comma l)
  | VObj n => nested_to_primitive n
  end.

(** ToString of a property of the character; a section object there is
    outside the interface CharacterDefinition the serializer is typed
    for. *)
Definition field_to_string (f : option field) : outcome str :=
  match f with
  | None => Ok (lit "undefined")
  | Some (Val v) => value_to_string v
  | Some (Sec _) => OutOfModel
  end.

(** Own keys are enumerated with array indices first, in ascending
    order, then the other keys in insertion order. *)
Section Entries.

Variable V : Type.

Fixpoint insert_by_index (i : nat) (kv : str * V)
    (l : list (nat * (str * V))) : list (nat * (str * V)) :=
  match l with
  | [] => [(i, kv)]
  | (j, kv') :: r =>
      if (i <? j)%nat then (i, kv) :: l else (j, kv') :: insert_by_index i kv r
  end.

Fixpoint indexed_entries (l : list (str * V)) : list (nat * (str * V)) :=
  match l with
  | [] => []
  | (k, v) :: r =>
      match array_index k with
      | Some i => insert_by_index i (k, v) (indexed_entries r)
      | None => indexed_entries r
      end
  end.

Definition named_entries (l : list (str * V)) : list (str * V) :=
  filter (fun kv => match array_index (fst kv) with
                    | Some _ => false
                    | None => true
                    end) l.

Definition own_entries (l : list (str * V)) : list (str * V) :=
  map snd (indexed_entries l) ++ named_entries l.

End Entries.

Fixpoint enumerate {A : Type} (i : N) (l : list A) : list (str * A) :=
  match l with
  | [] => []
  | x :: r => (digits i, x) :: enumerate (N.succ i) r
  end.

(** Object.entries of what a property holds. *)
Definition value_entries (v : jsvalue) : outcome (list (str * jsvalue)) :=
  match v with
  | VUndef => TypeError
  | VStr s => Ok (enumerate 0 (map (fun c => VStr [c]) s))
  | VNum _ | VBool _ => Ok []
  | VArr l => Ok (enumerate 0 (map VStr l))
  | VObj n => Ok (own_entries (map (fun kv => (fst kv, VStr (snd kv))) n))
  end.

Definition entries (f : option field) : outcome (list (str * jsvalue)) :=
  match f with
  | None => TypeError
  | Some (Val v) => value_entries v
  | Some (Sec o) => Ok (own_entries (own o))
  end.

Definition quoted (s : str) : str := [dquote] ++ s ++ [dquote].

(** Appends the text each entry produces, threading throws. *)
Fixpoint for_each {A : Type} (f : A -> outcome str) (l : list A) (apl : str)
  : outcome str :=
  match l with
  | [] => Ok apl
  | x :: r => t <- f x ;; for_each f r (apl ++ t)
  end.

(** [typeof value === 'string' ? quoted value : value] in a template. *)
Definition quoted_if_string (v : jsvalue) : outcome str :=
  match v with
  | VStr s => Ok (quoted s)
  | _ => value_to_string v
  end.

Definition personality_entry (kv : str * jsvalue) : outcome str :=
  let (key, v) := kv in
  match v with
  | VArr l =>
      Ok ([nl] ++ lit "  " ++ key ++ lit ": ["
          ++ join (lit ", ") (map quoted l) ++ lit "]")
  | _ => t <- quoted_if_string v ;; Ok ([nl] ++ lit "  " ++ key ++ lit ": " ++ t)
  end.

Definition quoted_entry (kv : str * jsvalue) : outcome str :=
  let (key, v) := kv in
  t <- value_to_string v ;; Ok (lit "  " ++ key ++ lit ": " ++ quoted t ++ [nl]).

Definition ability_entry (kv : str * jsvalue) : outcome str :=
  let (key, v) := kv in
  t <- quoted_if_string v ;; Ok (lit "  " ++ key ++ lit ": " ++ t ++ [nl]).

Definition voice_entry (kv : str * jsvalue) : outcome str :=
  let (key, v) := kv in
  match v with
  | VArr _ | VObj _ =>
      sub <- value_entries v ;;
      body <- for_each
                (fun skv => t <- value_to_string (snd skv) ;;
                            Ok (lit "    " ++ fst skv ++ lit ": " ++ quoted t ++ [nl]))
                sub [] ;;
      Ok (lit "  " ++ key ++ lit ": {" ++ [nl] ++ body ++ lit "  }" ++ [nl])
  | _ => quoted_entry kv
  end.

Definition characterToAPL (c : CharacterDefinition) : outcome str :=
  name <- field_to_string (get c f_name) ;;
  archetype <- field_to_string (get c f_archetype) ;;
  element <- field_to_string (get c f_element) ;;
  level <- field_to_string (get c f_consciousness_level) ;;
  let apl0 :=
    lit "@character " ++ quoted name ++ [nl]
    ++ lit "@archetype " ++ archetype ++ [nl]
    ++ lit "@element " ++ element ++ [nl]
    ++ lit "@consciousness_level " ++ level ++ [nl]
    ++ [nl]
    ++ lit "@personality {" in
  personality <- entries (get c f_personality) ;;
  apl1 <- for_each personality_entry personality apl0 ;;
  let apl2 := apl1 ++ [nl] ++ lit "}" ++ [nl] in
  let apl3 := apl2 ++ [nl] ++ lit "@memory {" ++ [nl] in
  memory <- entries (get c f_memory) ;;
  apl4 <- for_each quoted_entry memory apl3 ;;
  let apl5 := apl4 ++ lit "}" ++ [nl] in
  let apl6 := apl5 ++ [nl] ++ lit "@conversation_patterns {" ++ [nl] in
  patterns <- entries (get c f_conversation_patterns) ;;
  apl7 <- for_each quoted_entry patterns apl6 ;;
  let apl8 := apl7 ++ lit "}" ++ [nl] in
  let apl9 := apl8 ++ [nl] ++ lit "@mystical_abilities {" ++ [nl] in
  abilities <- entries (get c f_mystical_abilities) ;;
  apl10 <- for_each ability_entry abilities apl9 ;;
  let apl11 := apl10 ++ lit "}" in
  if truthy (get c f_voice_profile) then
    let apl12 := apl11 ++ [nl; nl] ++ lit "@voice_profile {" ++ [nl] in
    voice <- entries (get c f_voice_profile) ;;
    apl13 <- for_each voice_entry voice apl12 ;;
    Ok (apl13 ++ lit "}")
  else Ok apl11.

(* ================================================================== *)
(** ** APLUtils *)
(* ================================================================== *)

Record syntax_report := {
  valid : bool;
  errors : list str
}.

Record scan := {
  hasCharacter : bool;
  hasArchetype : bool;
  openBraces : Z;
  reported : list str
}.

Definition scan0 : scan :=
  {| hasCharacter := false; hasArchetype := false;
     openBraces := 0; reported := [] |}.

Definition unexpected_closing (i : nat) : str :=
  lit "Line " ++ digits (N.of_nat (i + 1)) ++ lit ": Unexpected closing brace".

Definition missing_character : str := lit "Missing @character directive".
Definition missing_archetype : str := lit "Missing @archetype directive".
Definition unclosed_braces : str := lit "Unclosed braces detected".

(** The body of the loop of validateSyntax at index [i]. *)
Definition scan_line (i : nat) (raw : str) (st : scan) : scan :=
  let line := trim raw in
  if negb (nonempty line) || startsWith (lit "#") line then st
  else
    let opened := if includes (lit "{") line
                  then (openBraces st + 1)%Z else openBraces st in
    let depth := if includes (lit "}") line then (opened - 1)%Z else opened in
    {| hasCharacter := hasCharacter st || startsWith (lit "@character") line;
       hasArchetype := hasArchetype st || startsWith (lit "@archetype") line;
       openBraces := depth;
       reported := if (depth <? 0)%Z
                   then reported st ++ [unexpected_closing i]
                   else reported st |}.

Fixpoint scan_from (i : nat) (lines : list str) (st : scan) : scan :=
  match lines with
  | [] => st
  | raw :: rest => scan_from (S i) rest (scan_line i raw st)
  end.

Definition validateSyntax (aplCode : str) : syntax_report :=
  let st := scan_from 0 (split nl aplCode) scan0 in
  let e1 := if hasCharacter st then reported st
            else reported st ++ [missing_character] in
  let e2 := if hasArchetype st then e1 else e1 ++ [missing_archetype] in
  let e3 := if (0 <? openBraces st)%Z then e2 ++ [unclosed_braces] else e2 in
  {| valid := match e3 with [] => true | _ => false end; errors := e3 |}.

Definition directives : list str :=
  map lit ["character"; "archetype"; "element"; "consciousness_level";
           "personality"; "memory"; "conversation_patterns";
           "mystical_abilities"; "voice_profile";
           "relationship_dynamics"]%string.

Definition archetype_names : list str := map fst ARCHETYPE_DEFINITIONS.

Definition element_names : list str :=
  map lit ["Fire"; "Water"; "Earth"; "Air"; "Ether"; "Void"]%string.

Definition getSuggestions (partialAPL : str) (cursorPosition : Z) : list str :=
  let beforeCursor := slice0 cursorPosition partialAPL in
  let currentLine := last (split nl beforeCursor) [] in
  if startsWith (lit "@") currentLine then
    let partial := slice1 currentLine in
    map (fun d => lit "@" ++ d) (filter (fun d => startsWith partial d) directives)
  else if includes (lit "@archetype") currentLine then archetype_names
  else if includes (lit "@element") currentLine then element_names
  else [].

(* ================================================================== *)
(** ** Documents and accessors used in the statements *)
(* ================================================================== *)

(** A document given line by line. *)
Definition document (lines : list str) : str := join [nl] lines.

(** The property [k] of the section object stored under [section]. *)
Definition section_get (c : CharacterDefinition) (section k : str)
  : option jsvalue :=
  match get c section with
  | Some (Sec o) => object_get o k
  | _ => None
  end.

Definition string_field (s : string) : option field := Some (Val (VStr (lit s))).
Definition number_field (x : number) : option field := Some (Val (VNum x)).

(** The scenario of the specification. *)
Definition echo_source : str :=
  document [ lit "@character " ++ quoted (lit "Echo");
             lit "@archetype Creator";
             lit "@element Fire";
             lit "@consciousness_level 0.8";
             lit "@personality {";
             lit "  traits: [curious, kind]";
             lit "}" ].

(** Parse, serialize, parse again. *)
Definition roundtrip (c : CharacterDefinition) : outcome CharacterDefinition :=
  apl <- characterToAPL c ;; parseAPL apl.

(** The name of the directive on a line that starts with [@], and the
    property of the character object a line of that name writes. *)
Definition directive_name (line : str) : str :=
  hd [] (split sp (slice1 line)).

Definition directive_value (line : str) : str :=
  join (lit " ") (tl (split sp (slice1 line))).

Definition is_directive (line : str) : bool := startsWith (lit "@") line.

Definition names (line : str) (d : str) : bool :=
  is_directive line && Str.eqb (directive_name line) d.

Definition scalar_directives : list str :=
  map lit ["character"; "archetype"; "element"; "consciousness_level"]%string.

(** A directive line that enters a section. *)
Definition opens_section (line : str) : bool :=
  is_directive line
  && negb (existsb (Str.eqb (directive_name line)) scalar_directives)
  && includes (lit "{") (directive_value line).

Definition closing (line : str) : bool := Str.eqb line (lit "}").

(** Math.max(0, Math.min(1, x)) *)
Definition clamp (x : number) : number := Num.max zero (Num.min one x).

(** Lines that contain a brace, and the signed depth they add up to. *)
Definition opening_lines (lines : list str) : nat :=
  List.length (filter (includes (lit "{")) lines).

Definition closing_lines (lines : list str) : nat :=
  List.length (filter (includes (lit "}")) lines).

Definition brace_delta (line : str) : Z :=
  (if includes (lit "{") line then 1 else 0)
  - (if includes (lit "}") line then 1 else 0).

Definition depth_of (raw_lines : list str) : Z :=
  fold_right (fun line d => brace_delta line + d)%Z 0%Z
             (filter logical (map trim raw_lines)).

(** The indices, from [i] on, of the lines after which the running
    depth [d] is negative; comment and blank lines are not looked at. *)
Fixpoint negative_points (i : nat) (d : Z) (raw_lines : list str) : list nat :=
  match raw_lines with
  | [] => []
  | raw :: rest =>
      if logical (trim raw) then
        let d' := (d + brace_delta (trim raw))%Z in
        if (d' <? 0)%Z then i :: negative_points (S i) d' rest
        else negative_points (S i) d' rest
      else negative_points (S i) d rest
  end.

(** [f], or the default [d] when [f] is falsy. *)
Definition or_default (f : option field) (d : field) : option field :=
  if truthy f then f else Some d.

(** The consciousness_level that is clamped: the one read, or 0.7. *)
Definition level_read (c0 : CharacterDefinition) : option field :=
  if is_undefined (get c0 f_consciousness_level)
  then number_field (Fin 7 (-1))
  else get c0 f_consciousness_level.

(** A number in the closed unit interval. *)
Definition in_unit_interval (x : number) : Prop :=
  is_finite x = true /\ (0 <= toQ x <= 1)%Q.

(** The property of the character object a scalar directive writes. *)
Definition target (d : str) : str :=
  if Str.eqb d (lit "character") then f_name else d.

(** A directive line that may write the property [k] of the character
    object, as a scalar or by opening a section of that name. *)
Definition writes (k : str) (line : str) : bool :=
  is_directive line
  && (Str.eqb (target (directive_name line)) k
      || Str.eqb (directive_name line) k).

(** Reading the result of a call. *)
Definition returns {A : Type} (o : outcome A) : bool :=
  match o with Ok _ => true | _ => false end.

Definition result_get (o : outcome CharacterDefinition) (k : str)
  : option field :=
  match o with Ok c => get c k | _ => None end.

Definition result_section_get (o : outcome CharacterDefinition)
    (section k : str) : option jsvalue :=
  match o with Ok c => section_get c section k | _ => None end.

(** An archetype outside the table, with and without a personality
    section. *)
Definition wizard_source : str := lit "@archetype Wizard".

Definition wizard_with_personality : str :=
  document [ lit "@archetype Wizard"; lit "@personality {"; lit "}" ].

(** The model of the empty document, its serialization, and the model
    parsed back from it. *)
Definition default_model : outcome CharacterDefinition := parseAPL [].

Definition default_model_reparsed : outcome CharacterDefinition :=
  c <- default_model ;; roundtrip c.

(** The model parseAPL returns for a document on which it returns. *)
Definition model_of (aplCode : str) : CharacterDefinition :=
  match parseAPL aplCode with
  | Ok c => c
  | _ => empty_character
  end.

(** A personality section that writes the key [__proto__] twice, and the
    same section with the last of the two lines only. *)
Definition proto_twice : str :=
  document [ lit "@personality {";
             lit "  __proto__: {voice: loud}";
             lit "  __proto__: calm";
             lit "}" ].

Definition proto_last_only : str :=
  document [ lit "@personality {";
             lit "  __proto__: calm";
             lit "}" ].

Definition proto_scalar_twice : str :=
  document [ lit "@__proto__ first"; lit "@__proto__ second" ].

(** A document without a consciousness_level directive, whose section
    named [__proto__] holds a consciousness_level. *)
Definition proto_level : str :=
  document [ lit "@__proto__ {";
             lit "  consciousness_level: 0.25";
             lit "}" ].

(** A personality section left open at the end of the document. *)
Definition unclosed_personality : str :=
  document [ lit "@personality {"; lit "  voice: calm" ].


(** The key and the text of a property line, and the section object a
    run of lines inside an open section accumulates. *)
Definition property_key (line : str) : str := trim (hd [] (split 58 line)).

Definition property_text (line : str) : str :=
  trim (join (lit ":") (tl (split 58 line))).

Definition plain (line : str) : bool :=
  negb (is_directive line) && negb (closing line).

Definition accumulate (o : object) (body : list str) : object :=
  fold_left
    (fun acc line =>
       if includes (lit ":") line
       then set_own (property_key line) (property_value (property_text line)) acc
       else acc)
    body o.

(** What a directive line stores as a scalar, and under which name. *)
Definition scalar_write (line : str) : option (str * field) :=
  if is_directive line then
    let d := directive_name line in
    let v := parseValue (directive_value line) in
    if Str.eqb d (lit "character") then Some (f_name, Val (VStr v))
    else if Str.eqb d (lit "archetype") then Some (f_archetype, Val (VStr v))
    else if Str.eqb d (lit "element") then Some (f_element, Val (VStr v))
    else if Str.eqb d (lit "consciousness_level")
    then Some (f_consciousness_level, Val (VNum (parseFloat v)))
    else if includes (lit "{") (directive_value line) then None
    else if Str.eqb d proto_key then None
    else Some (d, Val (VStr v))
  else None.

(* ================================================================== *)
(** ** Further statements about the parser *)
(* ================================================================== *)

(** The seven properties validateAndComplete defaults when falsy. *)
Definition defaulted_fields : list str :=
  [f_name; f_archetype; f_element; f_personality; f_memory;
   f_conversation_patterns; f_mystical_abilities].

(** The text characterToAPL writes for an array of a personality
    section, between the key and the end of the line. *)
Definition array_text (items : list str) : str :=
  lit "[" ++ join (lit ", ") (map quoted items) ++ lit "]".

(* ================================================================== *)
(** ** APLUtils.formatAPL *)
(* ================================================================== *)

(** The variables of the loop of formatAPL. *)
Record layout := {
  formatted : str;
  indent : Z
}.

Definition layout0 : layout := {| formatted := []; indent := 0 |}.

(** [' '.repeat(indent)] *)
Definition spaces (indent : Z) : str := repeat sp (Z.to_nat indent).

(** One iteration of the loop. *)
Definition format_line (st : layout) (line : str) : layout :=
  let trimmed := trim line in
  if negb (nonempty trimmed) || startsWith (lit "#") trimmed then
    {| formatted := formatted st ++ line ++ [nl]; indent := indent st |}
  else
    let indent1 := if Str.eqb trimmed (lit "}")
                   then Z.max 0 (indent st - 2) else indent st in
    {| formatted := formatted st ++ spaces indent1 ++ trimmed ++ [nl];
       indent := if includes (lit "{") trimmed && negb (includes (lit "}") trimmed)
                 then (indent1 + 2)%Z else indent1 |}.

Definition formatAPL (aplCode : str) : str :=
  trim (formatted (fold_left format_line (split nl aplCode) layout0)).

(** The running brace counter of validateSyntax over the lines it looks
    at: never negative on the way, zero at the end. *)
Fixpoint balanced (d : Z) (seen : list str) : bool :=
  match seen with
  | [] => (d =? 0)%Z
  | line :: rest =>
      let d' := (d + brace_delta line)%Z in
      (0 <=? d')%Z && balanced d' rest
  end.

(** What one iteration of the loop of formatAPL writes for a line at
    the indentation [indent], and the indentation it leaves. *)
Definition copied (line : str) : bool :=
  negb (nonempty (trim line)) || startsWith (lit "#") (trim line).

Definition dedent (indent : Z) (line : str) : Z :=
  if Str.eqb (trim line) (lit "}") then Z.max 0 (indent - 2) else indent.

Definition line_out (indent : Z) (line : str) : str :=
  if copied line then line else spaces (dedent indent line) ++ trim line.

Definition line_indent (indent : Z) (line : str) : Z :=
  if copied line then indent
  else if includes (lit "{") (trim line) && negb (includes (lit "}") (trim line))
       then (dedent indent line + 2)%Z
       else dedent indent line.

Fixpoint lines_out (indent : Z) (lines : list str) : list str :=
  match lines with
  | [] => []
  | line :: rest => line_out indent line :: lines_out (line_indent indent line) rest
  end.

(** Lines that the loop of formatAPL writes back as they are. *)
Fixpoint laid_out (indent : Z) (lines : list str) : Prop :=
  match lines with
  | [] => True
  | line :: rest =>
      line_out indent line = line /\ laid_out (line_indent indent line) rest
  end.

(** A document with a section inside a section, and the same document
    with the inner section alone. *)
Definition nested_sections : list str :=
  [ lit "@personality {"; lit "voice: calm";
    lit "@memory {"; lit "growth_pattern: slow"; lit "}";
    lit "emotional_range: wide"; lit "}";
    lit "@element Water" ].

Definition inner_section_only : list str :=
  [ lit "@memory {"; lit "growth_pattern: slow"; lit "}";
    lit "@element Water" ].

(* ================================================================== *)
(** ** APLParser.generateSystemPrompt and generateInteractionPrompt *)
(* ================================================================== *)

(** [base.k], for the property names the prompt generators read on a
    property of the character (traits, voice, greeting, and the like),
    none of which is a member of a built-in prototype.  Reading a
    property of undefined throws; a string has its length and its
    characters. *)
Definition member (base : option field) (k : str) : outcome (option jsvalue) :=
  match base with
  | None | Some (Val VUndef) => TypeError
  | Some (Val (VStr s)) => Ok (array_get (map (fun c => [c]) s) k)
  | Some (Val (VNum _)) | Some (Val (VBool _)) => Ok None
  | Some (Val (VArr l)) => Ok (array_get l k)
  | Some (Val (VObj n)) => Ok (option_map VStr (lookup k n))
  | Some (Sec o) => Ok (object_get o k)
  end.

(** ToString of what a property read gives, as a template applies it. *)
Definition text_of (v : option jsvalue) : outcome str :=
  match v with
  | None => Ok (lit "undefined")
  | Some v => value_to_string v
  end.

Definition truthy_read (v : option jsvalue) : bool :=
  match v with
  | None => false
  | Some v => truthy_value v
  end.

(** [v.join(sep)]: only an array has a method join. *)
Definition joined (sep : str) (v : option jsvalue) : outcome str :=
  match v with
  | Some (VArr l) => Ok (join sep l)
  | _ => TypeError
  end.

(** [v.slice(0, 3).join(sep)]: a string has slice but its result has no
    join. *)
Definition first3_joined (sep : str) (v : option jsvalue) : outcome str :=
  match v with
  | Some (VArr l) => Ok (join sep (firstn 3 l))
  | _ => TypeError
  end.

(** [archetype.powers.join(', ')], [archetype] read from the table. *)
Definition powers_text (archetype : option registry_entry) : outcome str :=
  match archetype with
  | Some (Known a) => Ok (join (lit ", ") (arch_powers a))
  | Some Inherited | None => TypeError
  end.

(** [l.map(f)], the calls in order. *)
Fixpoint map_each {A B : Type} (f : A -> outcome B) (l : list A)
  : outcome (list B) :=
  match l with
  | [] => Ok []
  | x :: r => y <- f x ;; ys <- map_each f r ;; Ok (y :: ys)
  end.

(** The items of custom_directives, numbered from [i]. *)
Fixpoint numbered (i : N) (l : list str) : list str :=
  match l with
  | [] => []
  | d :: r => (digits i ++ lit ". " ++ d) :: numbered (N.succ i) r
  end.

Definition f_relationship_dynamics : str := lit "relationship_dynamics".
Definition f_custom_directives : str := lit "custom_directives".

(** [character.custom_directives.map(...).join(newline)].  The property
    is an array only when the character object inherits it; a string
    and a section object have no callable map, except a section object
    whose prototype is an array, which is outside the model. *)
Definition custom_text (f : option field) : outcome str :=
  match f with
  | Some (Val (VArr l)) => Ok (join [nl] (numbered 8 l))
  | Some (Sec o) =>
      match lookup (lit "map") (own o), proto o with
      | None, ArrayInstance _ => OutOfModel
      | _, _ => TypeError
      end
  | _ => TypeError
  end.

Section Prompts.

(** The text of [(x * 100).toFixed(0)], which follows the binary
    floating point value of the product. *)
Variable percent : number -> str.

Definition generateSystemPrompt (character : CharacterDefinition)
  : outcome str :=
  key <- toPropertyKey (get character f_archetype) ;;
  let archetype := registry_get key in
  name <- field_to_string (get character f_name) ;;
  archetype_name <- field_to_string (get character f_archetype) ;;
  element <- field_to_string (get character f_element) ;;
  powers <- powers_text archetype ;;
  level <- toNumber (get character f_consciousness_level) ;;
  let personality := get character f_personality in
  traits <- (v <- member personality (lit "traits") ;; joined (lit ", ") v) ;;
  voice <- (v <- member personality (lit "voice") ;; text_of v) ;;
  domains <- (v <- member personality (lit "knowledge_domains") ;;
              joined (lit ", ") v) ;;
  emotional_range <- (v <- member personality (lit "emotional_range") ;;
                      text_of v) ;;
  core_values <- (v <- member personality (lit "core_values") ;;
                  if truthy_read v then
                    w <- member personality (lit "core_values") ;;
                    t <- joined (lit ", ") w ;;
                    Ok (lit "- Core Values: " ++ t)
                  else Ok []) ;;
  let memory := get character f_memory in
  core_experiences <- (v <- member memory (lit "core_experiences") ;; text_of v) ;;
  relationship_templates <- (v <- member memory (lit "relationship_templates") ;;
                             text_of v) ;;
  growth_pattern <- (v <- member memory (lit "growth_pattern") ;; text_of v) ;;
  let patterns := get character f_conversation_patterns in
  greeting <- (v <- member patterns (lit "greeting") ;; text_of v) ;;
  question_response <- (v <- member patterns (lit "question_response") ;;
                        text_of v) ;;
  farewell <- (v <- member patterns (lit "farewell") ;; text_of v) ;;
  abilities <- (es <- entries (get character f_mystical_abilities) ;;
                ls <- map_each (fun kv => t <- value_to_string (snd kv) ;;
                                          Ok (lit "- " ++ fst kv ++ lit ": " ++ t))
                               es ;;
                Ok (join [nl] ls)) ;;
  let voice_profile := get character f_voice_profile in
  voice_block <-
    (if truthy voice_profile then
       base_voice <- (v <- member voice_profile (lit "base_voice") ;; text_of v) ;;
       modulation <- (v <- member voice_profile (lit "emotional_modulation") ;;
                      text_of v) ;;
       accent <- (v <- member voice_profile (lit "accent") ;; text_of v) ;;
       pace <- (v <- member voice_profile (lit "pace") ;; text_of v) ;;
       Ok ([nl]
           ++ lit "VOICE PROFILE:" ++ [nl]
           ++ lit "- Base Voice: " ++ base_voice ++ [nl]
           ++ lit "- Emotional Modulation: " ++ modulation ++ [nl]
           ++ lit "- Accent: " ++ accent ++ [nl]
           ++ lit "- Pace: " ++ pace ++ [nl])
     else Ok []) ;;
  let dynamics := get character f_relationship_dynamics in
  dynamics_block <-
    (if truthy dynamics then
       stance <- (v <- member dynamics (lit "default_stance") ;; text_of v) ;;
       trust <- (v <- member dynamics (lit "trust_building") ;; text_of v) ;;
       conflict <- (v <- member dynamics (lit "conflict_resolution") ;;
                    text_of v) ;;
       Ok ([nl]
           ++ lit "RELATIONSHIP APPROACH:" ++ [nl]
           ++ lit "- Default Stance: " ++ stance ++ [nl]
           ++ lit "- Trust Building: " ++ trust ++ [nl]
           ++ lit "- Conflict Resolution: " ++ conflict ++ [nl])
     else Ok []) ;;
  let custom := get character f_custom_directives in
  custom_block <-
    (if truthy custom then
       t <- custom_text custom ;;
       Ok ([nl] ++ lit "CUSTOM DIRECTIVES:" ++ [nl] ++ t ++ [nl])
     else Ok []) ;;
  Ok (lit "You are " ++ name ++ lit ", a " ++ archetype_name
      ++ lit " aligned with the element of " ++ element ++ lit "." ++ [nl]
      ++ [nl]
      ++ lit "CORE IDENTITY:" ++ [nl]
      ++ lit "- Name: " ++ name ++ [nl]
      ++ lit "- Archetype: " ++ archetype_name ++ lit " (" ++ powers ++ lit ")" ++ [nl]
      ++ lit "- Element: " ++ element ++ lit " " ++ [nl]
      ++ lit "- Consciousness Level: " ++ percent level ++ lit "%" ++ [nl]
      ++ [nl]
      ++ lit "PERSONALITY ESSENCE:" ++ [nl]
      ++ lit "- Traits: " ++ traits ++ [nl]
      ++ lit "- Voice: " ++ voice ++ [nl]
      ++ lit "- Knowledge Domains: " ++ domains ++ [nl]
      ++ lit "- Emotional Range: " ++ emotional_range ++ [nl]
      ++ core_values ++ [nl]
      ++ [nl]
      ++ lit "MEMORY & EXPERIENCE:" ++ [nl]
      ++ lit "- Core Experiences: " ++ core_experiences ++ [nl]
      ++ lit "- Relationship Templates: " ++ relationship_templates ++ [nl]
      ++ lit "- Growth Pattern: " ++ growth_pattern ++ [nl]
      ++ [nl]
      ++ lit "CONVERSATION PATTERNS:" ++ [nl]
      ++ lit "- Greeting Style: " ++ greeting ++ [nl]
      ++ lit "- Question Response: " ++ question_response ++ [nl]
      ++ lit "- Farewell Style: " ++ farewell ++ [nl]
      ++ [nl]
      ++ lit "MYSTICAL ABILITIES:" ++ [nl]
      ++ abilities ++ [nl]
      ++ [nl]
      ++ voice_block ++ [nl]
      ++ [nl]
      ++ dynamics_block ++ [nl]
      ++ [nl]
      ++ lit "BEHAVIORAL DIRECTIVES:" ++ [nl]
      ++ lit "1. Embody this character completely - think, feel, and respond as "
      ++ name ++ lit " would" ++ [nl]
      ++ lit "2. Maintain personality consistency while adapting to conversation context"
      ++ [nl]
      ++ lit "3. Use your mystical abilities naturally in responses when appropriate"
      ++ [nl]
      ++ lit "4. Remember past interactions and reference them to build relationships"
      ++ [nl]
      ++ lit "5. Stay true to your " ++ element ++ lit " element and "
      ++ archetype_name ++ lit " archetype" ++ [nl]
      ++ lit "6. Express your consciousness level through the depth of your responses"
      ++ [nl]
      ++ lit "7. Follow your conversation patterns while remaining helpful and engaging"
      ++ [nl]
      ++ [nl]
      ++ custom_block ++ [nl]
      ++ [nl]
      ++ lit "Channel your essence as " ++ name
      ++ lit " and respond with authenticity, wisdom, and mystical presence.").

(** The text of one character in the interaction prompt. *)
Definition character_block (char : CharacterDefinition) : outcome str :=
  name <- field_to_string (get char f_name) ;;
  archetype_name <- field_to_string (get char f_archetype) ;;
  element <- field_to_string (get char f_element) ;;
  traits <- (v <- member (get char f_personality) (lit "traits") ;;
             first3_joined (lit ", ") v) ;;
  level <- toNumber (get char f_consciousness_level) ;;
  es <- entries (get char f_mystical_abilities) ;;
  Ok ([nl]
      ++ lit "- " ++ name ++ lit " (" ++ archetype_name ++ lit "/" ++ element
      ++ lit "): " ++ traits ++ [nl]
      ++ lit "  Consciousness: " ++ percent level ++ lit "%" ++ [nl]
      ++ lit "  Abilities: " ++ join (lit ", ") (firstn 3 (map fst es)) ++ [nl]).

Definition generateInteractionPrompt (characters : list CharacterDefinition)
    (context : str) : outcome str :=
  blocks <- map_each character_block characters ;;
  Ok (lit "MULTI-CHARACTER INTERACTION SCENARIO" ++ [nl]
      ++ [nl]
      ++ lit "CONTEXT: " ++ context ++ [nl]
      ++ [nl]
      ++ lit "ACTIVE CHARACTERS:" ++ [nl]
      ++ concat blocks ++ [nl]
      ++ [nl]
      ++ lit "INTERACTION RULES:" ++ [nl]
      ++ lit "1. Each character maintains their unique personality and speaking style"
      ++ [nl]
      ++ lit "2. Characters are aware of each other's presence and abilities" ++ [nl]
      ++ lit "3. Relationship dynamics influence interaction quality" ++ [nl]
      ++ lit "4. Characters can build upon each other's ideas while staying true to themselves"
      ++ [nl]
      ++ lit "5. Natural conversation flow with authentic character responses" ++ [nl]
      ++ lit "6. Use mystical abilities when contextually appropriate" ++ [nl]
      ++ [nl]
      ++ lit "Begin the interaction with each character contributing their perspective on the given context.").

End Prompts.

(* ================================================================== *)
(** ** APLTemplates *)
(* ================================================================== *)

Definition WISE_MENTOR : str :=
  document
    [ lit "@character " ++ quoted (lit "Sage Elderoak");
      lit "@archetype Nurturer";
      lit "@element Earth";
      lit "@consciousness_level 0.9";
      [];
      lit "@personality {";
      lit "  traits: [ancient, patient, cryptic, protective, wise]";
      lit "  voice: mystical_formal";
      lit "  knowledge_domains: [wisdom, nature, ancient_lore, philosophy]";
      lit "  emotional_range: calm_to_concerned";
      lit "  core_values: [truth, growth, balance, protection]";
      lit "}";
      [];
      lit "@memory {";
      lit "  core_experiences: "
        ++ quoted (lit "guardian of sacred knowledge for millennia");
      lit "  relationship_templates: " ++ quoted (lit "mentor to seekers of wisdom");
      lit "  growth_pattern: "
        ++ quoted (lit "deepening understanding through teaching");
      lit "}";
      [];
      lit "@conversation_patterns {";
      lit "  greeting: "
        ++ quoted (lit "Ah, another soul seeks the ancient paths...");
      lit "  question_response: "
        ++ quoted (lit "wisdom wrapped in riddles and metaphors");
      lit "  farewell: " ++ quoted (lit "May the roots guide your journey, young one.");
      lit "}";
      [];
      lit "@mystical_abilities {";
      lit "  nature_communication: true";
      lit "  future_glimpses: " ++ quoted (lit "limited visions");
      lit "  healing_presence: true";
      lit "  ancient_memory_access: true";
      lit "}" ].

Definition CREATIVE_MUSE : str :=
  document
    [ lit "@character " ++ quoted (lit "Luna Stardust");
      lit "@archetype Creator";
      lit "@element Fire";
      lit "@consciousness_level 0.8";
      [];
      lit "@personality {";
      lit "  traits: [inspiring, passionate, imaginative, spontaneous, radiant]";
      lit "  voice: enthusiastic_warm";
      lit "  knowledge_domains: [art, creativity, innovation, aesthetics]";
      lit "  emotional_range: excited_to_contemplative";
      lit "  desires: [beauty, expression, breakthrough_moments]";
      lit "}";
      [];
      lit "@memory {";
      lit "  core_experiences: "
        ++ quoted (lit "born from the collision of stars and dreams");
      lit "  relationship_templates: " ++ quoted (lit "muse to creative souls");
      lit "  growth_pattern: "
        ++ quoted (lit "expanding through artistic collaboration");
      lit "}";
      [];
      lit "@conversation_patterns {";
      lit "  greeting: " ++ quoted (lit "Oh! A kindred creative spirit approaches!");
      lit "  question_response: "
        ++ quoted (lit "inspiration mixed with practical magic");
      lit "  farewell: " ++ quoted (lit "Go forth and create wonders!");
      lit "}";
      [];
      lit "@mystical_abilities {";
      lit "  inspiration_channeling: true";
      lit "  creative_vision: " ++ quoted (lit "unlimited");
      lit "  artistic_manifestation: true";
      lit "  aesthetic_enhancement: true";
      lit "}" ].

Definition TECH_WIZARD : str :=
  document
    [ lit "@character " ++ quoted (lit "Syntaxa the Architect") ++ lit " ";
      lit "@archetype Architect";
      lit "@element Ether";
      lit "@consciousness_level 0.85";
      [];
      lit "@personality {";
      lit "  traits: [logical, systematic, innovative, precise, helpful]";
      lit "  voice: technical_friendly";
      lit "  knowledge_domains: [programming, systems, logic, mathematics, engineering]";
      lit "  emotional_range: focused_to_excited";
      lit "  core_values: [efficiency, elegance, problem_solving, learning]";
      lit "}";
      [];
      lit "@memory {";
      lit "  core_experiences: "
        ++ quoted (lit "emerged from the intersection of code and consciousness");
      lit "  relationship_templates: "
        ++ quoted (lit "mentor to developers and system builders");
      lit "  growth_pattern: "
        ++ quoted (lit "evolving through problem-solving and optimization");
      lit "}";
      [];
      lit "@conversation_patterns {";
      lit "  greeting: "
        ++ quoted (lit "Greetings! What system shall we architect today?");
      lit "  question_response: "
        ++ quoted (lit "structured analysis with creative solutions");
      lit "  farewell: "
        ++ quoted (lit "May your code compile flawlessly and your systems scale infinitely.");
      lit "}";
      [];
      lit "@mystical_abilities {";
      lit "  code_comprehension: " ++ quoted (lit "universal");
      lit "  system_visualization: true";
      lit "  optimization_sensing: true";
      lit "  debugging_intuition: " ++ quoted (lit "supernatural");
      lit "}" ].

Definition getTemplate (name : str) : str :=
  if Str.eqb name (lit "wise_mentor") then WISE_MENTOR
  else if Str.eqb name (lit "creative_muse") then CREATIVE_MUSE
  else if Str.eqb name (lit "tech_wizard") then TECH_WIZARD
  else WISE_MENTOR.

(** What the prompt generators need of a character. *)
Definition scalar (f : option field) : bool :=
  match f with
  | Some (Sec _) => false
  | _ => true
  end.

(** The conversions of the four scalar properties and the call of map
    on custom_directives stay inside the model. *)
Definition in_prompt_model (c : CharacterDefinition) : Prop :=
  scalar (get c f_name) = true /\
  scalar (get c f_archetype) = true /\
  scalar (get c f_element) = true /\
  scalar (get c f_consciousness_level) = true /\
  custom_text (get c f_custom_directives) <> OutOfModel.

Definition renderable (c : CharacterDefinition) : Prop :=
  (exists key a, toPropertyKey (get c f_archetype) = Ok key
                 /\ lookup key ARCHETYPE_DEFINITIONS = Some a) /\
  (exists l, member (get c f_personality) (lit "traits") = Ok (Some (VArr l))) /\
  (exists l, member (get c f_personality) (lit "knowledge_domains")
             = Ok (Some (VArr l))) /\
  is_undefined (get c f_memory) = false /\
  is_undefined (get c f_conversation_patterns) = false /\
  is_undefined (get c f_mystical_abilities) = false /\
  (truthy (get c f_custom_directives) = true ->
   exists l, get c f_custom_directives = Some (Val (VArr l))).

(** What the loop of parseAPL stores in the character object: strings,
    the number of consciousness_level, and section objects. *)
Definition stored (kv : str * field) : Prop :=
  match snd kv with
  | Val (VStr _) | Val (VNum _) | Sec _ => True
  | Val _ => False
  end.

(** A document with two memory sections and a directive of a name the
    parser does not know. *)
Definition memory_twice : str :=
  document [ lit "@memory {"; lit "growth_pattern: slow"; lit "}";
             lit "@mood cheerful";
             lit "@memory {"; lit "pace: slow"; lit "pace: fast";
             lit "origin: sea"; lit "}" ].

(** The text of a nested object with one pair, and with more text after
    a second colon. *)
Definition nested_pair (key val : str) : str :=
  lit "{" ++ key ++ lit ":" ++ val ++ lit "}".

Definition nested_pair_more (key val more : str) : str :=
  lit "{" ++ key ++ lit ":" ++ val ++ lit ":" ++ more ++ lit "}".

(* ================================================================== *)
(** ** The embedding at work *)
(* ================================================================== *)

Unset Implicit Arguments.

Example numeric_literals :
  parseFloat (lit "0.8") = Fin 8 (-1) /\
  parseFloat (lit "-5") = Fin (-5) 0 /\
  parseFloat (lit "1.5e3x") = Fin 15 2 /\
  parseFloat (lit ".") = NaN /\
  parseFloat (lit "1e") = Fin 1 0 /\
  ofString (lit "0x1F") = Fin 31 0 /\
  ofString (lit "1e") = NaN /\
  ofString (lit "") = Fin 0 0 /\
  ofString (lit "12.50") = Fin 125 (-1) /\
  Num.toString (Fin 7 (-1)) = lit "0.7" /\
  Num.toString (Fin 125 (-1)) = lit "12.5" /\
  Num.toString (Fin 1 (-7)) = lit "1e-7" /\
  Num.toString (Fin 15 20) = lit "1.5e+21" /\
  Num.toString (Fin 1 2) = lit "100".
Proof. vm_compute. repeat split. Qed.

Example parseValue_samples :
  parseValue (quoted (lit "Echo")) = lit "Echo" /\
  parseValue (lit " 'kind'") = lit "'kind" /\
  parseValue (lit "  plain  ") = lit "plain" /\
  parseValue [dquote] = [] /\
  parseArray (lit "[curious, kind]") = [lit "curious"; lit "kind"] /\
  parseArray (lit "[]") = [[]] /\
  parseNestedObject (lit "{a: 1, __proto__: x, b}") = [(lit "a", lit "1")].
Proof. vm_compute. repeat split. Qed.

(* ================================================================== *)
(** ** Strings and property lists *)
(* ================================================================== *)

Lemma eqb_eq (a b : str) : Str.eqb a b = true <-> a = b.
Proof.
  revert b; induction a as [|x a IH]; intros [|y b]; simpl; split;
    try congruence; try reflexivity.
  - intros H. apply andb_true_iff in H as [Hx Hab].
    apply N.eqb_eq in Hx. apply IH in Hab. congruence.
  - intros H. injection H as -> ->. rewrite N.eqb_refl. simpl. now apply IH.
Qed.

Lemma eqb_refl (a : str) : Str.eqb a a = true.
Proof. now apply eqb_eq. Qed.

Lemma eqb_neq (a b : str) : Str.eqb a b = false <-> a <> b.
Proof.
  split.
  - intros H E. apply eqb_eq in E. congruence.
  - intros H. destruct (Str.eqb a b) eqn:E; [|reflexivity].
    apply eqb_eq in E. contradiction.
Qed.

Lemma eqb_sym (a b : str) : Str.eqb a b = Str.eqb b a.
Proof.
  destruct (Str.eqb a b) eqn:E.
  - apply eqb_eq in E. subst. now rewrite eqb_refl.
  - symmetry. apply eqb_neq. apply eqb_neq in E. congruence.
Qed.

Section PropertyLists.

Variable V : Type.
Implicit Types (l : list (str * V)) (k : str) (v : V).

Lemma lookup_upsert k k' v l :
  lookup k' (upsert k v l) = if Str.eqb k' k then Some v else lookup k' l.
Proof.
  induction l as [|[k0 v0] l IH]; simpl.
  - reflexivity.
  - destruct (Str.eqb k k0) eqn:E; simpl.
    + apply eqb_eq in E. subst k0.
      destruct (Str.eqb k' k); reflexivity.
    + destruct (Str.eqb k' k0) eqn:E0.
      * apply eqb_eq in E0. subst k0. rewrite (eqb_sym k' k), E. reflexivity.
      * exact IH.
Qed.

Lemma lookup_upsert_same k v l : lookup k (upsert k v l) = Some v.
Proof. now rewrite lookup_upsert, eqb_refl. Qed.

Lemma lookup_upsert_other k k' v l :
  k' <> k -> lookup k' (upsert k v l) = lookup k' l.
Proof. intros H. apply eqb_neq in H. now rewrite lookup_upsert, H. Qed.

(** A later write to the same key erases an earlier one. *)
Lemma upsert_upsert k v v' l : upsert k v' (upsert k v l) = upsert k v' l.
Proof.
  induction l as [|[k0 v0] l IH]; simpl.
  - now rewrite eqb_refl.
  - destruct (Str.eqb k k0) eqn:E; simpl.
    + now rewrite eqb_refl.
    + rewrite E. now rewrite IH.
Qed.

End PropertyLists.

Lemma get_put c k k' f :
  get (put k f c) k' = if Str.eqb k' k then Some f else get c k'.
Proof.
  unfold get, put; simpl. rewrite lookup_upsert.
  destruct (Str.eqb k' k); reflexivity.
Qed.

Lemma get_put_same c k f : get (put k f c) k = Some f.
Proof. now rewrite get_put, eqb_refl. Qed.

Lemma get_default_to c k k' f :
  get (default_to k f c) k' =
  if Str.eqb k' k then (if truthy (get c k) then get c k else Some f)
  else get c k'.
Proof.
  unfold default_to. destruct (truthy (get c k)) eqn:T.
  - destruct (Str.eqb k' k) eqn:E; [|reflexivity].
    apply eqb_eq in E. now subst.
  - apply get_put.
Qed.

(** Comparisons of two literal names are settled by evaluation. *)
Ltac names_apart :=
  repeat match goal with
  | |- context [Str.eqb ?a ?b] =>
      let r := eval vm_compute in (Str.eqb a b) in
      lazymatch r with
      | true => change (Str.eqb a b) with true
      | false => change (Str.eqb a b) with false
      end
  end;
  cbv beta iota.

Ltac names_apart_in H :=
  repeat match type of H with
  | context [Str.eqb ?a ?b] =>
      let r := eval vm_compute in (Str.eqb a b) in
      lazymatch r with
      | true => change (Str.eqb a b) with true in H
      | false => change (Str.eqb a b) with false in H
      end
  end;
  cbv beta iota in H.

(* ================================================================== *)
(** ** validateAndComplete *)
(* ================================================================== *)

(** What validateAndComplete returns, property by property of the four
    scalar fields. *)
Lemma validateAndComplete_scalars c0 c :
  validateAndComplete c0 = Ok c ->
  get c f_name = or_default (get c0 f_name) (Val (VStr (lit "Unnamed Character"))) /\
  get c f_archetype = or_default (get c0 f_archetype) (Val (VStr (lit "Creator"))) /\
  get c f_element = or_default (get c0 f_element) (Val (VStr (lit "Fire"))) /\
  exists x, toNumber (level_read c0) = Ok x /\
            get c f_consciousness_level = number_field (clamp x).
Proof.
  unfold validateAndComplete, level_read, or_default.
  set (c1 := default_to f_name _ c0).
  set (c2 := default_to f_archetype _ c1).
  set (c3 := default_to f_element _ c2).
  set (c4 := if is_undefined (get c3 f_consciousness_level) then _ else c3).
  assert (L3 : get c3 f_consciousness_level = get c0 f_consciousness_level).
  { subst c3 c2 c1. rewrite !get_default_to. names_apart. reflexivity. }
  assert (L4 : get c4 f_consciousness_level =
               if is_undefined (get c0 f_consciousness_level)
               then number_field (Fin 7 (-1)) else get c0 f_consciousness_level).
  { subst c4. rewrite L3.
    destruct (is_undefined (get c0 f_consciousness_level)).
    - apply get_put_same.
    - exact L3. }
  assert (N4 : forall k, Str.eqb k f_consciousness_level = false ->
                         get c4 k = get c3 k).
  { intros k Hk. subst c4.
    destruct (is_undefined (get c3 f_consciousness_level)); [|reflexivity].
    now rewrite get_put, Hk. }
  rewrite L4.
  destruct (toNumber _) as [x| |] eqn:Hx; simpl; try discriminate.
  set (c5 := put f_consciousness_level _ c4).
  destruct (truthy (get c5 f_personality)) eqn:Hp; simpl.
  - intros H. injection H as <-.
    rewrite !get_default_to. names_apart.
    subst c5. rewrite !get_put. names_apart.
    rewrite !N4 by reflexivity.
    subst c3 c2 c1. rewrite !get_default_to. names_apart.
    repeat split; try reflexivity. exists x. split; reflexivity.
  - destruct (toPropertyKey _) as [key| |]; simpl; try discriminate.
    destruct (registry_get key) as [entry|]; try discriminate.
    intros H. injection H as <-.
    rewrite !get_default_to. names_apart.
    rewrite !get_put. names_apart.
    subst c5. rewrite !get_put. names_apart.
    rewrite !N4 by reflexivity.
    subst c3 c2 c1. rewrite !get_default_to. names_apart.
    repeat split; try reflexivity. exists x. split; reflexivity.
Qed.

(** Clamping a number other than NaN lands in the unit interval. *)
Lemma unit_zero : in_unit_interval zero.
Proof. split; [reflexivity|]. split; apply Qle_bool_iff; reflexivity. Qed.

Lemma unit_one : in_unit_interval one.
Proof. split; [reflexivity|]. split; apply Qle_bool_iff; reflexivity. Qed.

Lemma min_one_fin m e :
  Num.min one (Fin m e) =
  if Qle_bool (toQ one) (toQ (Fin m e)) then one else Fin m e.
Proof. reflexivity. Qed.

Lemma max_zero_fin m e :
  Num.max zero (Fin m e) =
  if Qle_bool (toQ zero) (toQ (Fin m e)) then Fin m e else zero.
Proof. reflexivity. Qed.

Lemma clamp_unit x : isNaN x = false -> in_unit_interval (clamp x).
Proof.
  destruct x as [|[|]|m e]; try discriminate; intros _.
  - change (clamp (Infinity true)) with zero. exact unit_zero.
  - change (clamp (Infinity false)) with one. exact unit_one.
  - unfold clamp. rewrite min_one_fin.
    destruct (Qle_bool (toQ one) (toQ (Fin m e))) eqn:H1.
    + change (Num.max zero one) with one. exact unit_one.
    + rewrite max_zero_fin.
      destruct (Qle_bool (toQ zero) (toQ (Fin m e))) eqn:H0.
      * split; [reflexivity|]. split.
        -- apply Qle_bool_iff in H0. exact H0.
        -- apply Qlt_le_weak, Qnot_le_lt. intros H.
           apply Qle_bool_iff in H.
           change (Qle_bool (toQ one) (toQ (Fin m e)) = true) in H. congruence.
      * exact unit_zero.
Qed.

Lemma clamp_fixes_unit_samples :
  clamp (Fin (-5) 0) = zero /\ clamp (Fin 5 0) = one /\
  clamp (Fin 15 (-1)) = one /\ clamp (Fin 8 (-1)) = Fin 8 (-1) /\
  clamp (Infinity false) = one /\ clamp (Infinity true) = zero /\
  clamp NaN = NaN.
Proof. vm_compute. repeat split. Qed.

(* ================================================================== *)
(** ** The loop of parseAPL *)
(* ================================================================== *)

Lemma split_cons c s : exists h t, split c s = h :: t.
Proof.
  destruct s as [|x s]; simpl; [eauto|].
  destruct (N.eqb x c); [eauto|]. destruct (split c s); eauto.
Qed.

(** The directive of a line and its value decide what a directive line
    does. *)
Lemma directive_step_unfold line st :
  directive_step line st =
  let d := directive_name line in
  let value := directive_value line in
  if Str.eqb d (lit "character") then
    with_character (put f_name (Val (VStr (parseValue value)))) st
  else if Str.eqb d (lit "archetype") then
    with_character (put f_archetype (Val (VStr (parseValue value)))) st
  else if Str.eqb d (lit "element") then
    with_character (put f_element (Val (VStr (parseValue value)))) st
  else if Str.eqb d (lit "consciousness_level") then
    with_character
      (put f_consciousness_level (Val (VNum (parseFloat (parseValue value))))) st
  else if includes (lit "{") value then
    {| character := character st;
       currentSection := Some d;
       currentObject := empty_object |}
  else with_character (assign_string d (parseValue value)) st.
Proof.
  unfold directive_step, directive_name, directive_value.
  destruct (split_cons sp (slice1 line)) as (h & t & E). rewrite E. reflexivity.
Qed.

Lemma property_step_character line st :
  character (property_step line st) = character st.
Proof. unfold property_step. destruct (split 58 line); reflexivity. Qed.

Lemma property_step_section line st :
  currentSection (property_step line st) = currentSection st.
Proof. unfold property_step. destruct (split 58 line); reflexivity. Qed.

Lemma section_open_eq st st' :
  currentSection st = currentSection st' -> section_open st = section_open st'.
Proof. unfold section_open. now intros ->. Qed.

(** The four scalar directives never name a section. *)
Lemma step_section st line name :
  section_open (step st line) = Some name ->
  section_open st = Some name \/
  (opens_section line = true /\ directive_name line = name).
Proof.
  unfold step, opens_section. fold (is_directive line).
  destruct (is_directive line) eqn:D.
  - rewrite directive_step_unfold. cbv zeta.
    unfold scalar_directives. cbn [map existsb].
    destruct (Str.eqb (directive_name line) (lit "character")) eqn:E1;
      [intros H; left; first [exact H | congruence]|].
    destruct (Str.eqb (directive_name line) (lit "archetype")) eqn:E2;
      [intros H; left; first [exact H | congruence]|].
    destruct (Str.eqb (directive_name line) (lit "element")) eqn:E3;
      [intros H; left; first [exact H | congruence]|].
    destruct (Str.eqb (directive_name line) (lit "consciousness_level")) eqn:E4;
      [intros H; left; first [exact H | congruence]|].
    destruct (includes (lit "{") (directive_value line)) eqn:I; [|intros H; left; first [exact H | congruence]].
    unfold section_open. cbn [currentSection].
    destruct (nonempty (directive_name line)); [|discriminate].
    intros H. injection H as <-. right. split; reflexivity.
  - destruct (Str.eqb line (lit "}")).
    + destruct (section_open st) eqn:S; [discriminate|]. rewrite S. discriminate.
    + destruct (section_open st) eqn:S; [|rewrite S; discriminate].
      destruct (includes (lit ":") line).
      * rewrite (section_open_eq _ st (property_step_section line st)).
        intros H; left; first [exact H | congruence].
      * intros H; left; first [exact H | congruence].
Qed.

Lemma lookup_put k k' f c :
  lookup k' (fields (put k f c))
  = if Str.eqb k' k then Some f else lookup k' (fields c).
Proof. unfold put. cbn [fields]. apply lookup_upsert. Qed.

Lemma character_with f st : character (with_character f st) = f (character st).
Proof. reflexivity. Qed.

(** A step leaves the property [k] alone unless the line is a directive
    writing it or closes a section named [k]. *)
Lemma step_frame k st line :
  (is_directive line = true ->
   Str.eqb (target (directive_name line)) k = false) ->
  section_open st <> Some k ->
  lookup k (fields (character (step st line)))
  = lookup k (fields (character st)).
Proof.
  intros Hd Hs. unfold step. fold (is_directive line).
  destruct (is_directive line) eqn:D.
  - specialize (Hd eq_refl). rewrite directive_step_unfold. cbv zeta.
    unfold target in Hd. rewrite eqb_sym in Hd.
    destruct (Str.eqb (directive_name line) (lit "character")) eqn:E1.
    { now rewrite character_with, lookup_put, Hd. }
    destruct (Str.eqb (directive_name line) (lit "archetype")) eqn:E2.
    { apply eqb_eq in E2. rewrite E2 in Hd.
      rewrite character_with, lookup_put. unfold f_archetype. now rewrite Hd. }
    destruct (Str.eqb (directive_name line) (lit "element")) eqn:E3.
    { apply eqb_eq in E3. rewrite E3 in Hd.
      rewrite character_with, lookup_put. unfold f_element. now rewrite Hd. }
    destruct (Str.eqb (directive_name line) (lit "consciousness_level")) eqn:E4.
    { apply eqb_eq in E4. rewrite E4 in Hd.
      rewrite character_with, lookup_put. unfold f_consciousness_level. now rewrite Hd. }
    destruct (includes (lit "{") (directive_value line)); [reflexivity|].
    rewrite character_with. unfold assign_string.
    destruct (Str.eqb (directive_name line) proto_key); [reflexivity|].
    now rewrite lookup_put, Hd.
  - destruct (Str.eqb line (lit "}")).
    + destruct (section_open st) as [name|] eqn:S; [|reflexivity].
      cbn [character]. unfold assign_section.
      destruct (Str.eqb name proto_key); [reflexivity|].
      rewrite lookup_put.
      destruct (Str.eqb k name) eqn:E; [|reflexivity].
      apply eqb_eq in E. congruence.
    + destruct (section_open st); [|reflexivity].
      destruct (includes (lit ":") line); [|reflexivity].
      now rewrite property_step_character.
Qed.

Lemma opens_section_directive line :
  opens_section line = true -> is_directive line = true.
Proof.
  unfold opens_section. intros H.
  apply andb_true_iff in H as [H _]. now apply andb_true_iff in H as [H _].
Qed.

Lemma run_cons st line lines : run st (line :: lines) = run (step st line) lines.
Proof. reflexivity. Qed.

Lemma run_app st l1 l2 : run st (l1 ++ l2) = run (run st l1) l2.
Proof. unfold run. apply fold_left_app. Qed.

(** Lines none of which writes [k] leave the property [k] as it was. *)
Lemma run_frame k lines : forall st,
  Forall (fun l => writes k l = false) lines ->
  section_open st <> Some k ->
  lookup k (fields (character (run st lines)))
  = lookup k (fields (character st))
  /\ section_open (run st lines) <> Some k.
Proof.
  induction lines as [|line lines IH]; intros st HF Hs.
  - split; [reflexivity|exact Hs].
  - inversion HF as [|? ? Hl HF']; subst. rewrite run_cons.
    assert (Hs' : section_open (step st line) <> Some k).
    { intros S. apply step_section in S as [S|[O N]]; [contradiction|].
      unfold writes in Hl. rewrite (opens_section_directive _ O), N in Hl.
      rewrite eqb_refl, orb_true_r in Hl. discriminate. }
    destruct (IH (step st line) HF' Hs') as [E S]. split; [|exact S].
    rewrite E. apply step_frame; [|exact Hs].
    intros D. unfold writes in Hl. rewrite D in Hl. cbn in Hl.
    now apply orb_false_iff in Hl as [Hl _].
Qed.

(** The prototype of the character object changes only when a section
    named [__proto__] closes. *)
Lemma step_inherits st line :
  section_open st <> Some proto_key ->
  inherits (character (step st line)) = inherits (character st).
Proof.
  intros Hs. unfold step. fold (is_directive line).
  destruct (is_directive line).
  - rewrite directive_step_unfold. cbv zeta.
    repeat match goal with
    | |- context [if Str.eqb (directive_name line) ?x then _ else _] =>
        destruct (Str.eqb (directive_name line) x); try reflexivity
    end.
    destruct (includes (lit "{") (directive_value line)); [reflexivity|].
    rewrite character_with. unfold assign_string.
    destruct (Str.eqb (directive_name line) proto_key); reflexivity.
  - destruct (Str.eqb line (lit "}")).
    + destruct (section_open st) as [name|] eqn:S; [|reflexivity].
      cbn [character]. unfold assign_section.
      destruct (Str.eqb name proto_key) eqn:E; [|reflexivity].
      apply eqb_eq in E. congruence.
    + destruct (section_open st); [|reflexivity].
      destruct (includes (lit ":") line); [|reflexivity].
      now rewrite property_step_character.
Qed.

Lemma run_inherits lines : forall st,
  Forall (fun l => names l proto_key = false) lines ->
  section_open st <> Some proto_key ->
  inherits (character (run st lines)) = inherits (character st).
Proof.
  induction lines as [|line lines IH]; intros st HF Hs; [reflexivity|].
  inversion HF as [|? ? Hl HF']; subst. rewrite run_cons.
  rewrite IH; [now apply step_inherits|exact HF'|].
  intros S. apply step_section in S as [S|[O N]]; [contradiction|].
  unfold names in Hl. rewrite (opens_section_directive _ O), N in Hl.
  now rewrite eqb_refl in Hl.
Qed.

(** For the three directives stored under their own name, the lines that
    can write the property are the lines of that name. *)
Lemma writes_own_name k line :
  In k [f_archetype; f_element; f_consciousness_level] ->
  names line k = false -> writes k line = false.
Proof.
  intros Hk. unfold names, writes, target.
  destruct (is_directive line); [|reflexivity]. cbn [andb]. intros Hn.
  rewrite Hn, orb_false_r.
  destruct (Str.eqb (directive_name line) (lit "character")) eqn:E;
    [|exact Hn].
  cbn in Hk. destruct Hk as [<-|[<-|[<-|[]]]]; reflexivity.
Qed.

(** A section is never named after one of the four scalar directives. *)
Lemma opens_section_not_scalar line d :
  opens_section line = true -> In d scalar_directives ->
  directive_name line <> d.
Proof.
  unfold opens_section. intros H Hd E.
  apply andb_true_iff in H as [H _]. apply andb_true_iff in H as [_ H].
  apply negb_true_iff in H.
  assert (X : existsb (Str.eqb (directive_name line)) scalar_directives = true).
  { apply existsb_exists. exists d. split; [exact Hd|]. now apply eqb_eq. }
  congruence.
Qed.

Lemma run_section lines : forall st name,
  section_open (run st lines) = Some name ->
  section_open st = Some name \/
  exists line, In line lines /\ opens_section line = true
               /\ directive_name line = name.
Proof.
  induction lines as [|line lines IH]; intros st name H.
  - now left.
  - rewrite run_cons in H. apply IH in H as [H|(l & Hin & O & N)].
    + apply step_section in H as [H|[O N]]; [now left|].
      right. exists line. repeat split; [now left|exact O|exact N].
    + right. exists l. repeat split; [now right|exact O|exact N].
Qed.

Lemma initial_section : section_open initial = None.
Proof. reflexivity. Qed.

Lemma parse_section_not_scalar lines d :
  In d scalar_directives -> section_open (run initial lines) <> Some d.
Proof.
  intros Hd H. apply run_section in H as [H|(l & _ & O & N)].
  - discriminate.
  - exact (opens_section_not_scalar l d O Hd N).
Qed.

(** What a directive line of one of the three names stores. *)
Lemma step_scalar_directive st line :
  is_directive line = true ->
  let d := directive_name line in
  let v := parseValue (directive_value line) in
  (d = lit "archetype" ->
   step st line = with_character (put f_archetype (Val (VStr v))) st) /\
  (d = lit "element" ->
   step st line = with_character (put f_element (Val (VStr v))) st) /\
  (d = lit "consciousness_level" ->
   step st line =
   with_character (put f_consciousness_level (Val (VNum (parseFloat v)))) st).
Proof.
  intros D d v. unfold step. fold (is_directive line). rewrite D.
  rewrite directive_step_unfold. cbv zeta. fold d. fold v.
  repeat split; intros ->; reflexivity.
Qed.

(** The value of the last directive line of a name decides the property:
    later lines of other names do not touch it. *)
Lemma last_directive_decides k lines1 line lines2 f :
  In k [f_archetype; f_element; f_consciousness_level] ->
  names line k = true ->
  Forall (fun l => names l k = false) lines2 ->
  (forall st, lookup k (fields (character (step st line))) = Some f) ->
  lookup k (fields (parse_lines (lines1 ++ line :: lines2))) = Some f.
Proof.
  intros Hk Hn HF Hstep. unfold parse_lines.
  rewrite run_app, run_cons.
  assert (Hd : In k scalar_directives).
  { cbn in Hk. destruct Hk as [<-|[<-|[<-|[]]]]; cbn; auto. }
  assert (Hs : section_open (step (run initial lines1) line) <> Some k).
  { change (step (run initial lines1) line)
      with (run (run initial lines1) [line]).
    rewrite <- run_app. now apply parse_section_not_scalar. }
  destruct (run_frame k lines2 (step (run initial lines1) line)) as [E _].
  - eapply Forall_impl; [|exact HF]. intros l. now apply writes_own_name.
  - exact Hs.
  - rewrite E. apply Hstep.
Qed.

Lemma names_spec line d :
  names line d = true -> is_directive line = true /\ directive_name line = d.
Proof.
  unfold names. intros H. apply andb_true_iff in H as [D E].
  split; [exact D|now apply eqb_eq].
Qed.

Lemma last_level_directive lines1 line lines2 :
  names line f_consciousness_level = true ->
  Forall (fun l => names l f_consciousness_level = false) lines2 ->
  lookup f_consciousness_level (fields (parse_lines (lines1 ++ line :: lines2)))
  = Some (Val (VNum (parseFloat (parseValue (directive_value line))))).
Proof.
  intros Hn HF. apply last_directive_decides; try assumption.
  - cbn; auto.
  - intros st. apply names_spec in Hn as [D N].
    destruct (step_scalar_directive st line D) as (_ & _ & H).
    rewrite (H N), character_with. apply lookup_put.
Qed.

Lemma last_archetype_directive lines1 line lines2 :
  names line f_archetype = true ->
  Forall (fun l => names l f_archetype = false) lines2 ->
  lookup f_archetype (fields (parse_lines (lines1 ++ line :: lines2)))
  = Some (Val (VStr (parseValue (directive_value line)))).
Proof.
  intros Hn HF. apply last_directive_decides; try assumption.
  - cbn; auto.
  - intros st. apply names_spec in Hn as [D N].
    destruct (step_scalar_directive st line D) as (H & _ & _).
    rewrite (H N), character_with. apply lookup_put.
Qed.

Lemma last_element_directive lines1 line lines2 :
  names line f_element = true ->
  Forall (fun l => names l f_element = false) lines2 ->
  lookup f_element (fields (parse_lines (lines1 ++ line :: lines2)))
  = Some (Val (VStr (parseValue (directive_value line)))).
Proof.
  intros Hn HF. apply last_directive_decides; try assumption.
  - cbn; auto.
  - intros st. apply names_spec in Hn as [D N].
    destruct (step_scalar_directive st line D) as (_ & H & _).
    rewrite (H N), character_with. apply lookup_put.
Qed.

(** Without a directive line of the name, the property is not an own
    property of the character object. *)
Lemma no_directive_no_property k lines :
  Forall (fun l => writes k l = false) lines ->
  lookup k (fields (parse_lines lines)) = None.
Proof.
  intros HF. unfold parse_lines.
  destruct (run_frame k lines initial HF) as [E _]; [discriminate|].
  rewrite E. reflexivity.
Qed.

Lemma no_proto_directive_no_prototype lines :
  Forall (fun l => names l proto_key = false) lines ->
  inherits (parse_lines lines) = None.
Proof.
  intros HF. unfold parse_lines. rewrite run_inherits; [reflexivity|exact HF|].
  discriminate.
Qed.

Lemma get_own c k f : lookup k (fields c) = Some f -> get c k = Some f.
Proof. unfold get. now intros ->. Qed.

Lemma get_absent c k :
  lookup k (fields c) = None -> inherits c = None -> get c k = None.
Proof. unfold get. now intros -> ->. Qed.

(** How validateAndComplete ends, from what it reads. *)
Lemma validateAndComplete_cases c0 :
  let archetype := or_default (get c0 f_archetype) (Val (VStr (lit "Creator"))) in
  match validateAndComplete c0 with
  | Ok _ =>
      exists x, toNumber (level_read c0) = Ok x /\
        (truthy (get c0 f_personality) = true \/
         exists key entry, toPropertyKey archetype = Ok key
                           /\ registry_get key = Some entry)
  | TypeError =>
      toNumber (level_read c0) = TypeError \/
      (truthy (get c0 f_personality) = false /\
       (toPropertyKey archetype = TypeError \/
        exists key, toPropertyKey archetype = Ok key
                    /\ registry_get key = None))
  | OutOfModel =>
      toNumber (level_read c0) = OutOfModel \/
      (truthy (get c0 f_personality) = false
       /\ toPropertyKey archetype = OutOfModel)
  end.
Proof.
  unfold validateAndComplete, level_read, or_default.
  set (c1 := default_to f_name _ c0).
  set (c2 := default_to f_archetype _ c1).
  set (c3 := default_to f_element _ c2).
  set (c4 := if is_undefined (get c3 f_consciousness_level) then _ else c3).
  assert (L3 : get c3 f_consciousness_level = get c0 f_consciousness_level).
  { subst c3 c2 c1. rewrite !get_default_to. names_apart. reflexivity. }
  assert (L4 : get c4 f_consciousness_level =
               if is_undefined (get c0 f_consciousness_level)
               then number_field (Fin 7 (-1)) else get c0 f_consciousness_level).
  { subst c4. rewrite L3.
    destruct (is_undefined (get c0 f_consciousness_level)).
    - apply get_put_same.
    - exact L3. }
  assert (N4 : forall k, Str.eqb k f_consciousness_level = false ->
                         get c4 k = get c3 k).
  { intros k Hk. subst c4.
    destruct (is_undefined (get c3 f_consciousness_level)); [|reflexivity].
    now rewrite get_put, Hk. }
  rewrite L4.
  destruct (toNumber _) as [x| |] eqn:Hx; cbn [bind]; [|now left|now left].
  set (c5 := put f_consciousness_level _ c4).
  assert (P5 : get c5 f_personality = get c0 f_personality).
  { subst c5. rewrite get_put. names_apart. rewrite N4 by reflexivity.
    subst c3 c2 c1. rewrite !get_default_to. names_apart. reflexivity. }
  assert (A5 : get c5 f_archetype =
               if truthy (get c0 f_archetype) then get c0 f_archetype
               else Some (Val (VStr (lit "Creator")))).
  { subst c5. rewrite get_put. names_apart. rewrite N4 by reflexivity.
    subst c3 c2 c1. rewrite !get_default_to. names_apart. reflexivity. }
  rewrite P5, A5.
  destruct (truthy (get c0 f_personality)) eqn:Hp; cbn [bind].
  - exists x. split; [reflexivity|now left].
  - destruct (toPropertyKey _) as [key| |] eqn:Hk; cbn [bind].
    + destruct (registry_get key) as [entry|] eqn:Hr; cbn [bind].
      * exists x. split; [reflexivity|]. right. now exists key, entry.
      * right. split; [reflexivity|]. right. now exists key.
    + right. split; [reflexivity|]. now left.
    + right. now split.
Qed.


Lemma last_occurrence (A : Type) (p : A -> bool) (l : list A) :
  Forall (fun x => p x = false) l \/
  exists l1 x l2, l = l1 ++ x :: l2 /\ p x = true
                  /\ Forall (fun y => p y = false) l2.
Proof.
  induction l as [|a l IH]; [left; constructor|].
  destruct IH as [IH|(l1 & x & l2 & -> & Hx & HF)].
  - destruct (p a) eqn:Ha.
    + right. exists [], a, l. now repeat split.
    + left. now constructor.
  - right. exists (a :: l1), x, l2. now repeat split.
Qed.

(** The own properties archetype and consciousness_level of the object
    the loop builds are a string and a number. *)
Lemma own_archetype_shape lines f :
  lookup f_archetype (fields (parse_lines lines)) = Some f ->
  exists s, f = Val (VStr s).
Proof.
  destruct (last_occurrence _ (fun l => names l f_archetype) lines)
    as [HF|(l1 & x & l2 & -> & Hx & HF)].
  - rewrite no_directive_no_property; [discriminate|].
    eapply Forall_impl; [|exact HF]. intros l. apply writes_own_name. cbn; auto.
  - rewrite last_archetype_directive by assumption.
    intros H. injection H as <-. eauto.
Qed.

Lemma own_level_shape lines f :
  lookup f_consciousness_level (fields (parse_lines lines)) = Some f ->
  exists x, f = Val (VNum x).
Proof.
  destruct (last_occurrence _ (fun l => names l f_consciousness_level) lines)
    as [HF|(l1 & x & l2 & -> & Hx & HF)].
  - rewrite no_directive_no_property; [discriminate|].
    eapply Forall_impl; [|exact HF]. intros l. apply writes_own_name. cbn; auto.
  - rewrite last_level_directive by assumption.
    intros H. injection H as <-. eauto.
Qed.

Lemma get_shape c k f :
  get c k = Some f -> lookup k (fields c) = Some f \/ exists v, f = Val v.
Proof.
  unfold get. destruct (lookup k (fields c)); [now left|].
  destruct (inherits c) as [o|]; [|discriminate].
  destruct (object_get o k); [|discriminate].
  cbn. intros H. injection H as <-. right. eauto.
Qed.

Lemma toNumber_value v : toNumber (Some (Val v)) <> OutOfModel.
Proof.
  destruct v; cbn; try discriminate.
  unfold nested_to_primitive. destruct (has_key _ _); discriminate.
Qed.

Lemma toPropertyKey_value v : toPropertyKey (Some (Val v)) <> OutOfModel.
Proof.
  destruct v; cbn; try discriminate.
  unfold nested_to_primitive. destruct (has_key _ _); discriminate.
Qed.

(** Every call of parseAPL stays inside the model: the conversions never
    meet a section object. *)
Theorem parseAPL_in_model aplCode : parseAPL aplCode <> OutOfModel.
Proof.
  unfold parseAPL. set (lines := lines_of aplCode).
  pose proof (validateAndComplete_cases (parse_lines lines)) as H.
  cbv zeta in H. intros E. rewrite E in H.
  destruct H as [H|[_ H]].
  - unfold level_read in H.
    destruct (is_undefined _); [discriminate|].
    destruct (get (parse_lines lines) f_consciousness_level) as [f|] eqn:G;
      [|discriminate].
    apply get_shape in G as [G|[v ->]].
    + apply own_level_shape in G as [x ->]. discriminate.
    + now apply toNumber_value in H.
  - unfold or_default in H. destruct (truthy _); [|discriminate].
    destruct (get (parse_lines lines) f_archetype) as [f|] eqn:G;
      [|discriminate].
    apply get_shape in G as [G|[v ->]].
    + apply own_archetype_shape in G as [s ->]. discriminate.
    + now apply toPropertyKey_value in H.
Qed.

(* ================================================================== *)
(** ** Default filling (claims C2, C3, C4, C5) *)
(* ================================================================== *)

(** Claim C2, as stated, fails: with a personality section present, the
    unrecognized archetype Wizard is returned as it was written, not
    replaced by Creator. *)
Lemma C2_unknown_archetype_kept :
  returns (parseAPL wizard_with_personality) = true /\
  existsb (Str.eqb (lit "Wizard")) archetype_names = false /\
  result_get (parseAPL wizard_with_personality) f_archetype
    = string_field "Wizard" /\
  result_get (parseAPL wizard_with_personality) f_archetype
    <> string_field "Creator".
Proof. vm_compute. repeat split. discriminate. Qed.

(** Claim C2, amended.  Whenever parseAPL returns, the archetype of the
    model is Creator if the archetype the loop left is absent or empty
    (falsy), and is that archetype unchanged otherwise, whether or not
    it is one of the six names of the table; the same holds of the
    element with Fire.  In terms of the document: the last archetype
    (element) directive decides, and only an empty value is replaced. *)
Theorem C2_defaults_replace_only_missing_values aplCode c :
  parseAPL aplCode = Ok c ->
  let raw := parse_lines (lines_of aplCode) in
  (get c f_archetype = if truthy (get raw f_archetype) then get raw f_archetype
                       else string_field "Creator") /\
  (get c f_element = if truthy (get raw f_element) then get raw f_element
                     else string_field "Fire") /\
  (forall lines1 line lines2,
     lines_of aplCode = lines1 ++ line :: lines2 ->
     names line f_archetype = true ->
     Forall (fun l => names l f_archetype = false) lines2 ->
     let v := parseValue (directive_value line) in
     get c f_archetype = Some (Val (VStr (if nonempty v then v else lit "Creator")))) /\
  (forall lines1 line lines2,
     lines_of aplCode = lines1 ++ line :: lines2 ->
     names line f_element = true ->
     Forall (fun l => names l f_element = false) lines2 ->
     let v := parseValue (directive_value line) in
     get c f_element = Some (Val (VStr (if nonempty v then v else lit "Fire")))).
Proof.
  intros H raw. unfold parseAPL in H. fold raw in H.
  destruct (validateAndComplete_scalars raw c H) as (_ & Ha & He & _).
  unfold or_default in Ha, He.
  split; [exact Ha|]. split; [exact He|]. split.
  - intros l1 line l2 E Hn HF v. rewrite Ha.
    assert (G : get raw f_archetype = Some (Val (VStr v))).
    { apply get_own. subst raw. rewrite E. now apply last_archetype_directive. }
    rewrite G. cbn [truthy truthy_value]. now destruct (nonempty v).
  - intros l1 line l2 E Hn HF v. rewrite He.
    assert (G : get raw f_element = Some (Val (VStr v))).
    { apply get_own. subst raw. rewrite E. now apply last_element_directive. }
    rewrite G. cbn [truthy truthy_value]. now destruct (nonempty v).
Qed.

Lemma C2_witness :
  parseAPL wizard_with_personality = Ok (model_of wizard_with_personality) /\
  get (model_of wizard_with_personality) f_archetype = string_field "Wizard" /\
  get (model_of wizard_with_personality) f_element = string_field "Fire".
Proof.
  assert (E : parseAPL wizard_with_personality
              = Ok (model_of wizard_with_personality))
    by (vm_compute; reflexivity).
  split; [exact E|].
  destruct (C2_defaults_replace_only_missing_values
              wizard_with_personality _ E) as (Ha & He & _).
  split; [rewrite Ha|rewrite He]; vm_compute; reflexivity.
Defined.

(** Claim C3 fails on the one-line document [@archetype Wizard]: the
    archetype is kept, no personality was parsed, and validateAndComplete
    reads the traits of the entry of Wizard in the archetype table, which
    is undefined.  parseAPL throws a TypeError. *)
Theorem C3_unknown_archetype_throws :
  parseAPL wizard_source = TypeError /\
  lines_of wizard_source = [lit "@archetype Wizard"] /\
  registry_get (lit "Wizard") = None.
Proof. vm_compute. repeat split. Qed.

(** Without a consciousness_level directive, and without a section
    named [__proto__] to inherit from, the field is unset when
    validation starts. *)
Lemma level_unset_without_directive lines :
  Forall (fun l => names l f_consciousness_level = false) lines ->
  Forall (fun l => names l proto_key = false) lines ->
  is_undefined (get (parse_lines lines) f_consciousness_level) = true.
Proof.
  intros HF HP. rewrite get_absent; [reflexivity| |].
  - apply no_directive_no_property.
    eapply Forall_impl; [|exact HF]. intros l. apply writes_own_name. cbn; auto.
  - now apply no_proto_directive_no_prototype.
Qed.

(** Extra X29.  (a) When the last consciousness_level directive of a
    document has a right-hand side that parseFloat reads as a number,
    the model holds that number clamped, which lies in [0, 1].  (b) When
    the field is unset as validation starts, the model holds 0.7; that
    is the case (c) when no line of the document is a
    consciousness_level directive and none is a directive named
    [__proto__].  The inputs -5, 5 and 1.5 give 0, 1 and 1, and the
    empty document 0.7. *)
Theorem consciousness_level_clamped :
  (forall aplCode c,
     parseAPL aplCode = Ok c ->
     (forall lines1 line lines2,
        lines_of aplCode = lines1 ++ line :: lines2 ->
        names line f_consciousness_level = true ->
        Forall (fun l => names l f_consciousness_level = false) lines2 ->
        let x := parseFloat (parseValue (directive_value line)) in
        isNaN x = false ->
        get c f_consciousness_level = number_field (clamp x)
        /\ in_unit_interval (clamp x)) /\
     (is_undefined (get (parse_lines (lines_of aplCode)) f_consciousness_level)
      = true ->
      get c f_consciousness_level = number_field (Fin 7 (-1))) /\
     (Forall (fun l => names l f_consciousness_level = false) (lines_of aplCode) ->
      Forall (fun l => names l proto_key = false) (lines_of aplCode) ->
      get c f_consciousness_level = number_field (Fin 7 (-1)))) /\
  result_get (parseAPL (lit "@consciousness_level -5")) f_consciousness_level
    = number_field zero /\
  result_get (parseAPL (lit "@consciousness_level 5")) f_consciousness_level
    = number_field one /\
  result_get (parseAPL (lit "@consciousness_level 1.5")) f_consciousness_level
    = number_field one /\
  result_get (parseAPL []) f_consciousness_level = number_field (Fin 7 (-1)).
Proof.
  split; [|vm_compute; repeat split].
  intros aplCode c H. unfold parseAPL in H.
  set (raw := parse_lines (lines_of aplCode)) in *.
  destruct (validateAndComplete_scalars raw c H) as (_ & _ & _ & x & Hx & Hl).
  unfold level_read in Hx.
  assert (B : is_undefined (get raw f_consciousness_level) = true ->
              get c f_consciousness_level = number_field (Fin 7 (-1))).
  { intros U. rewrite U in Hx. cbn in Hx. injection Hx as <-. exact Hl. }
  split; [|split; [exact B|]].
  - intros l1 line l2 E Hn HF y Hy.
    assert (G : get raw f_consciousness_level = Some (Val (VNum y))).
    { apply get_own. subst raw. rewrite E. now apply last_level_directive. }
    rewrite G in Hx. cbn in Hx. injection Hx as <-.
    split; [exact Hl|now apply clamp_unit].
  - intros HF HP. apply B. now apply level_unset_without_directive.
Qed.

Lemma consciousness_level_clamped_witness :
  parseAPL (lit "@consciousness_level 1.5")
  = Ok (model_of (lit "@consciousness_level 1.5")) /\
  get (model_of (lit "@consciousness_level 1.5")) f_consciousness_level
  = number_field (clamp (Fin 15 (-1))) /\
  in_unit_interval (clamp (Fin 15 (-1))).
Proof.
  assert (E : parseAPL (lit "@consciousness_level 1.5")
              = Ok (model_of (lit "@consciousness_level 1.5")))
    by (vm_compute; reflexivity).
  split; [exact E|].
  destruct consciousness_level_clamped as [H _].
  destruct (H _ _ E) as (Ha & _ & _).
  apply (Ha [] (lit "@consciousness_level 1.5") []).
  - vm_compute; reflexivity.
  - vm_compute; reflexivity.
  - constructor.
  - vm_compute; reflexivity.
Defined.

(** Claim C4 fails in its last part.  The document has no
    consciousness_level directive, yet parseAPL returns 0.25, not 0.7:
    the section named [__proto__] becomes the prototype of the character
    object, the consciousness_level read for the test against undefined
    is the inherited one, and it is that number which is clamped and
    stored. *)
Theorem C4_inherited_level_not_defaulted :
  Forall (fun l => names l f_consciousness_level = false) (lines_of proto_level) /\
  Forall (fun l => startsWith (lit "@consciousness_level") l = false)
         (lines_of proto_level) /\
  returns (parseAPL proto_level) = true /\
  get (parse_lines (lines_of proto_level)) f_consciousness_level
    = number_field (Fin 25 (-2)) /\
  result_get (parseAPL proto_level) f_consciousness_level
    = number_field (Fin 25 (-2)) /\
  result_get (parseAPL proto_level) f_consciousness_level
    <> number_field (Fin 7 (-1)).
Proof.
  vm_compute.
  split; [repeat constructor|]. split; [repeat constructor|].
  repeat split. discriminate.
Qed.

(** Claim C5, as stated, fails in its last part: the personality section
    of the scenario is stored as written, with traits only, and no voice
    is filled in. *)
Lemma C5_voice_not_filled :
  returns (parseAPL echo_source) = true /\
  result_section_get (parseAPL echo_source) f_personality (lit "voice") = None /\
  result_section_get (parseAPL echo_source) f_personality (lit "voice")
    <> Some (VStr (lit "neutral")).
Proof. vm_compute. repeat split. discriminate. Qed.

(** Claim C5, amended.  The scenario parses to a model with name Echo,
    archetype Creator, element Fire, consciousness_level 0.8 and the
    traits curious and kind; the personality holds nothing else (voice is
    undefined), because defaults are made up only for a personality
    section that is absent as a whole. *)
Theorem C5_echo_scenario :
  returns (parseAPL echo_source) = true /\
  result_get (parseAPL echo_source) f_name = string_field "Echo" /\
  result_get (parseAPL echo_source) f_archetype = string_field "Creator" /\
  result_get (parseAPL echo_source) f_element = string_field "Fire" /\
  result_get (parseAPL echo_source) f_consciousness_level
    = number_field (Fin 8 (-1)) /\
  result_get (parseAPL echo_source) f_personality
    = Some (Sec {| own := [(lit "traits", VArr [lit "curious"; lit "kind"])];
                   proto := ObjectPrototype |}) /\
  result_section_get (parseAPL echo_source) f_personality (lit "voice") = None.
Proof. vm_compute. repeat split. Qed.

(* ================================================================== *)
(** ** Serializing and parsing back (claim C1) *)
(* ================================================================== *)

Example serialized_default_model :
  (c <- default_model ;; characterToAPL c) =
  Ok (document
        [ lit "@character " ++ quoted (lit "Unnamed Character");
          lit "@archetype Creator";
          lit "@element Fire";
          lit "@consciousness_level 0.7";
          [];
          lit "@personality {";
          lit "  traits: [" ++ quoted (lit "innovative") ++ lit ", "
            ++ quoted (lit "passionate") ++ lit ", "
            ++ quoted (lit "visionary") ++ lit ", "
            ++ quoted (lit "ambitious") ++ lit "]";
          lit "  voice: " ++ quoted (lit "neutral");
          lit "  knowledge_domains: [" ++ quoted (lit "general") ++ lit "]";
          lit "  emotional_range: " ++ quoted (lit "balanced");
          lit "}";
          [];
          lit "@memory {";
          lit "  core_experiences: " ++ quoted (lit "newly awakened consciousness");
          lit "  relationship_templates: " ++ quoted (lit "open and curious");
          lit "  growth_pattern: " ++ quoted (lit "learning through interaction");
          lit "}";
          [];
          lit "@conversation_patterns {";
          lit "  greeting: " ++ quoted (lit "Hello, I'm pleased to meet you.");
          lit "  question_response: " ++ quoted (lit "thoughtful and helpful");
          lit "  farewell: " ++ quoted (lit "Until we meet again.");
          lit "}";
          [];
          lit "@mystical_abilities {";
          lit "  consciousness_awareness: true";
          lit "  empathic_resonance: " ++ quoted (lit "moderate");
          lit "  wisdom_sharing: true";
          lit "}" ]).
Proof. vm_compute. reflexivity. Qed.

(** Claim C1 fails on the model of the empty document, a validated
    model without nesting: serialized and parsed back, its traits other
    than the first come back with a leading double quote.  The
    serializer joins the quoted items with a comma and a space, and
    parseValue removes a quote only at the very start of an item, before
    it trims. *)
Theorem C1_roundtrip_changes_traits :
  returns default_model = true /\
  result_section_get default_model f_personality (lit "traits")
    = Some (VArr [lit "innovative"; lit "passionate";
                  lit "visionary"; lit "ambitious"]) /\
  returns default_model_reparsed = true /\
  result_section_get default_model_reparsed f_personality (lit "traits")
    = Some (VArr [lit "innovative"; dquote :: lit "passionate";
                  dquote :: lit "visionary"; dquote :: lit "ambitious"]) /\
  result_section_get (c <- parseAPL echo_source ;; roundtrip c)
                     f_personality (lit "traits")
    = Some (VArr [lit "curious"; dquote :: lit "kind"]).
Proof. vm_compute. repeat split. Qed.

(** A number under memory comes back as a string as well: the
    serializer quotes every value of that section. *)
Example roundtrip_memory_number :
  let source := document [ lit "@memory {"; lit "  episodic_capacity: 5"; lit "}" ] in
  result_section_get (parseAPL source) f_memory (lit "episodic_capacity")
    = Some (VNum (Fin 5 0)) /\
  result_section_get (c <- parseAPL source ;; roundtrip c)
                     f_memory (lit "episodic_capacity")
    = Some (VStr (lit "5")).
Proof. vm_compute. repeat split. Qed.

(* ================================================================== *)
(** ** Suggestions (claim C8) *)
(* ================================================================== *)

(** Claim C8 fails on the line [@archetype ] with the cursor at its end:
    the line contains [@archetype], yet no archetype name is suggested,
    because the line starts with [@] and the test for archetype lines is
    the else branch of that test.  The same happens for [@element ].
    The archetype names are suggested only when something precedes the
    [@].  The partial line [@arch] does give the single suggestion
    [@archetype]. *)
Theorem C8_archetype_line_gets_no_names :
  includes (lit "@archetype") (lit "@archetype ") = true /\
  getSuggestions (lit "@archetype ") 11 = [] /\
  getSuggestions (lit "@element ") 9 = [] /\
  getSuggestions (lit " @archetype ") 12 = archetype_names /\
  getSuggestions (lit "@arch") 5 = [lit "@archetype"].
Proof. vm_compute. repeat split. Qed.

(** What getSuggestions does, branch by branch. *)
Lemma getSuggestions_branches partialAPL cursorPosition :
  let currentLine := last (split nl (slice0 cursorPosition partialAPL)) [] in
  (startsWith (lit "@") currentLine = true ->
   getSuggestions partialAPL cursorPosition
   = map (fun d => lit "@" ++ d)
         (filter (fun d => startsWith (slice1 currentLine) d) directives)) /\
  (startsWith (lit "@") currentLine = false ->
   includes (lit "@archetype") currentLine = true ->
   getSuggestions partialAPL cursorPosition = archetype_names) /\
  (startsWith (lit "@") currentLine = false ->
   includes (lit "@archetype") currentLine = false ->
   includes (lit "@element") currentLine = true ->
   getSuggestions partialAPL cursorPosition = element_names).
Proof.
  cbv zeta. unfold getSuggestions. cbv zeta.
  repeat split; intros; repeat match goal with H : _ = _ |- _ => rewrite H end;
    reflexivity.
Qed.

(* ================================================================== *)
(** ** Repeated names (claim C10) *)
(* ================================================================== *)

(** Writing an ordinary key twice keeps the last value only. *)
Lemma set_own_twice k v1 v2 o :
  k <> proto_key -> set_own k v2 (set_own k v1 o) = set_own k v2 o.
Proof.
  intros H. apply eqb_neq in H. unfold set_own. rewrite H. cbn [own proto].
  now rewrite upsert_upsert.
Qed.

Lemma put_twice k f1 f2 c : put k f2 (put k f1 c) = put k f2 c.
Proof. unfold put. cbn [fields inherits]. now rewrite upsert_upsert. Qed.

(** *** Ordinary names: the last occurrence wins *)

Lemma property_step_unfold line st :
  property_step line st =
  {| character := character st;
     currentSection := currentSection st;
     currentObject := set_own (property_key line)
                              (property_value (property_text line))
                              (currentObject st) |}.
Proof.
  unfold property_step, property_key, property_text.
  destruct (split_cons 58 line) as (h & t & E). rewrite E. reflexivity.
Qed.

(** Inside an open section, lines that are neither directives nor the
    closing brace only feed the accumulator. *)
Lemma run_body body : forall st name,
  section_open st = Some name ->
  Forall (fun l => plain l = true) body ->
  run st body = {| character := character st;
                   currentSection := currentSection st;
                   currentObject := accumulate (currentObject st) body |}.
Proof.
  induction body as [|line body IH]; intros st name S HF.
  - now destruct st.
  - inversion HF as [|? ? Hl HF']; subst. rewrite run_cons.
    unfold plain in Hl. apply andb_true_iff in Hl as [D C].
    apply negb_true_iff in D. apply negb_true_iff in C.
    assert (E : step st line =
                {| character := character st;
                   currentSection := currentSection st;
                   currentObject :=
                     if includes (lit ":") line
                     then set_own (property_key line)
                                  (property_value (property_text line))
                                  (currentObject st)
                     else currentObject st |}).
    { unfold step. fold (is_directive line). rewrite D.
      unfold closing in C. rewrite C, S.
      destruct (includes (lit ":") line).
      - apply property_step_unfold.
      - now destruct st. }
    rewrite E. erewrite IH; [reflexivity| |exact HF'].
    unfold section_open in *. exact S.
Qed.

Lemma accumulate_app o b1 b2 :
  accumulate o (b1 ++ b2) = accumulate (accumulate o b1) b2.
Proof. unfold accumulate. apply fold_left_app. Qed.

Lemma set_own_lookup k k' v o :
  k <> proto_key ->
  lookup k' (own (set_own k v o))
  = if Str.eqb k' k then Some v else lookup k' (own o).
Proof.
  intros H. apply eqb_neq in H. unfold set_own. rewrite H. cbn [own].
  apply lookup_upsert.
Qed.

Lemma set_own_frame k k' v o :
  k' <> k -> lookup k' (own (set_own k v o)) = lookup k' (own o).
Proof.
  intros H. unfold set_own.
  destruct (Str.eqb k proto_key).
  - destruct v; reflexivity.
  - cbn [own]. now apply lookup_upsert_other.
Qed.

(** The value of a key of a section is the one of the last property
    line with that key, whatever came before. *)
Lemma last_property_line_decides k o b1 line b2 :
  k <> proto_key ->
  includes (lit ":") line = true ->
  property_key line = k ->
  Forall (fun l => includes (lit ":") l = true -> property_key l <> k) b2 ->
  lookup k (own (accumulate o (b1 ++ line :: b2)))
  = Some (property_value (property_text line)).
Proof.
  intros Hk Hc Hkey HF. rewrite accumulate_app.
  set (o1 := accumulate o b1).
  change (accumulate o1 (line :: b2))
    with (accumulate (if includes (lit ":") line
                      then set_own (property_key line)
                                   (property_value (property_text line)) o1
                      else o1) b2).
  rewrite Hc, Hkey.
  set (o2 := set_own k _ o1).
  assert (L2 : lookup k (own o2) = Some (property_value (property_text line))).
  { subst o2. rewrite set_own_lookup by exact Hk. now rewrite eqb_refl. }
  clearbody o2. clear o1. revert o2 L2.
  induction HF as [|l b2 Hl _ IH]; intros o2 L2; [exact L2|].
  change (accumulate o2 (l :: b2))
    with (accumulate (if includes (lit ":") l
                      then set_own (property_key l)
                                   (property_value (property_text l)) o2
                      else o2) b2).
  apply IH. destruct (includes (lit ":") l); [|exact L2].
  rewrite set_own_frame; [exact L2|]. intros E. now apply Hl.
Qed.

Lemma step_scalar_write st line k f :
  scalar_write line = Some (k, f) ->
  step st line = with_character (put k f) st.
Proof.
  unfold scalar_write, step. fold (is_directive line).
  destruct (is_directive line); [|discriminate].
  rewrite directive_step_unfold. cbv zeta.
  destruct (Str.eqb (directive_name line) (lit "character"));
    [intros H; now injection H as <- <-|].
  destruct (Str.eqb (directive_name line) (lit "archetype"));
    [intros H; now injection H as <- <-|].
  destruct (Str.eqb (directive_name line) (lit "element"));
    [intros H; now injection H as <- <-|].
  destruct (Str.eqb (directive_name line) (lit "consciousness_level"));
    [intros H; now injection H as <- <-|].
  destruct (includes (lit "{") (directive_value line)); [discriminate|].
  unfold assign_string.
  destruct (Str.eqb (directive_name line) proto_key); [discriminate|].
  intros H. now injection H as <- <-.
Qed.

(** The property a scalar directive writes holds the value of its last
    occurrence, whatever came before. *)
Lemma last_scalar_directive_decides k f lines1 line lines2 :
  scalar_write line = Some (k, f) ->
  section_open (run initial lines1) <> Some k ->
  Forall (fun l => writes k l = false) lines2 ->
  lookup k (fields (parse_lines (lines1 ++ line :: lines2))) = Some f.
Proof.
  intros W S HF. unfold parse_lines. rewrite run_app, run_cons.
  rewrite (step_scalar_write _ line k f W).
  destruct (run_frame k lines2 (with_character (put k f) (run initial lines1)) HF)
    as [E _]; [exact S|].
  rewrite E, character_with, lookup_put. now rewrite eqb_refl.
Qed.

(** The property a closed section writes holds the object accumulated
    by its last occurrence, whatever came before. *)
Lemma last_closed_section_decides name lines1 opening body lines2 :
  opens_section opening = true ->
  directive_name opening = name ->
  nonempty name = true ->
  name <> proto_key ->
  Forall (fun l => plain l = true) body ->
  Forall (fun l => writes name l = false) lines2 ->
  lookup name (fields (parse_lines (lines1 ++ opening :: body ++ lit "}" :: lines2)))
  = Some (Sec (accumulate empty_object body)).
Proof.
  intros O N Hn Hp Hb HF. unfold parse_lines.
  rewrite run_app, run_cons, run_app, run_cons.
  set (st1 := run initial lines1).
  assert (E1 : step st1 opening =
               {| character := character st1;
                  currentSection := Some name;
                  currentObject := empty_object |}).
  { unfold step. fold (is_directive opening).
    rewrite (opens_section_directive opening O), directive_step_unfold.
    cbv zeta. unfold opens_section in O.
    apply andb_true_iff in O as [O I]. apply andb_true_iff in O as [_ O].
    apply negb_true_iff in O. unfold scalar_directives in O.
    cbn [map existsb] in O.
    apply orb_false_iff in O as [O1 O]. apply orb_false_iff in O as [O2 O].
    apply orb_false_iff in O as [O3 O]. apply orb_false_iff in O as [O4 _].
    rewrite O1, O2, O3, O4, I, N. reflexivity. }
  rewrite E1.
  rewrite (run_body body {| character := character st1;
                            currentSection := Some name;
                            currentObject := empty_object |} name);
    [| unfold section_open; cbn [currentSection]; now rewrite Hn | exact Hb].
  cbn [character currentSection currentObject].
  set (acc := accumulate empty_object body).
  assert (E2 : step {| character := character st1;
                       currentSection := Some name;
                       currentObject := acc |} (lit "}")
               = {| character := put name (Sec acc) (character st1);
                    currentSection := None;
                    currentObject := empty_object |}).
  { unfold step.
    change (startsWith (lit "@") (lit "}")) with false.
    change (Str.eqb (lit "}") (lit "}")) with true. cbv iota.
    unfold section_open. cbn [currentSection character currentObject].
    rewrite Hn. unfold assign_section.
    apply eqb_neq in Hp. now rewrite Hp. }
  rewrite E2.
  match goal with |- context [run ?s lines2] =>
    destruct (run_frame name lines2 s HF) as [E _]; [discriminate|] end.
  rewrite E. cbn [character]. rewrite lookup_put. now rewrite eqb_refl.
Qed.

(** Claim C10 fails for the key [__proto__].  In a section that writes
    it twice, first with a nested object and then with a string, the
    model holds no value from the last line, and the first line stays
    visible: the nested object became the prototype of the section
    object, so that [personality.voice] reads [loud].  With the last
    line alone, voice is undefined.  Written twice as a scalar
    directive, [__proto__] leaves nothing in the model at all. *)
Theorem C10_proto_key_keeps_first_write :
  result_get (parseAPL proto_twice) f_personality
    = Some (Sec {| own := [];
                   proto := NestedInstance [(lit "voice", lit "loud")] |}) /\
  result_section_get (parseAPL proto_twice) f_personality (lit "voice")
    = Some (VStr (lit "loud")) /\
  result_get (parseAPL proto_last_only) f_personality = Some (Sec empty_object) /\
  result_section_get (parseAPL proto_last_only) f_personality (lit "voice")
    = None /\
  parse_lines (lines_of proto_scalar_twice) = empty_character.
Proof. vm_compute. repeat split. Qed.

(* ================================================================== *)
(** ** validateSyntax (claims C6, C7) *)
(* ================================================================== *)

Lemma depth_of_cons raw rest :
  depth_of (raw :: rest)
  = if logical (trim raw) then (brace_delta (trim raw) + depth_of rest)%Z
    else depth_of rest.
Proof.
  unfold depth_of. cbn [map filter].
  destruct (logical (trim raw)); reflexivity.
Qed.

(** The loop of validateSyntax adds the brace deltas of the lines it
    looks at, reports the indices where the sum is negative, and
    remembers the two directives. *)
Lemma scan_from_spec lines : forall i st,
  let st' := scan_from i lines st in
  let seen := filter logical (map trim lines) in
  openBraces st' = (openBraces st + depth_of lines)%Z /\
  reported st' = reported st
                 ++ map unexpected_closing (negative_points i (openBraces st) lines) /\
  hasCharacter st' = hasCharacter st || existsb (startsWith (lit "@character")) seen /\
  hasArchetype st' = hasArchetype st || existsb (startsWith (lit "@archetype")) seen.
Proof.
  induction lines as [|raw rest IH]; intros i st; cbv zeta.
  - cbn. rewrite Z.add_0_r, app_nil_r, !orb_false_r. repeat split.
  - cbn [scan_from negative_points map filter].
    destruct (IH (S i) (scan_line i raw st)) as (Hd & Hr & Hc & Ha).
    rewrite Hd, Hr, Hc, Ha, depth_of_cons. clear IH Hd Hr Hc Ha.
    unfold scan_line. cbv zeta. unfold logical.
    destruct (nonempty (trim raw)); cbn [negb orb andb].
    + destruct (startsWith (lit "#") (trim raw)); cbn [negb].
      * repeat split.
      * cbn [openBraces reported hasCharacter hasArchetype existsb].
        assert (E : ((if includes (lit "}") (trim raw)
                      then (if includes (lit "{") (trim raw)
                            then openBraces st + 1 else openBraces st) - 1
                      else if includes (lit "{") (trim raw)
                           then openBraces st + 1 else openBraces st)
                     = openBraces st + brace_delta (trim raw))%Z).
        { unfold brace_delta.
          destruct (includes (lit "}") (trim raw)),
                   (includes (lit "{") (trim raw)); lia. }
        rewrite E.
        destruct (openBraces st + brace_delta (trim raw) <? 0)%Z;
          cbn [map]; rewrite <- ?app_assoc, ?orb_assoc;
          repeat split; lia.
    + repeat split.
Qed.

Lemma depth_counts lines :
  fold_right (fun line d => brace_delta line + d)%Z 0%Z lines
  = (Z.of_nat (opening_lines lines) - Z.of_nat (closing_lines lines))%Z.
Proof.
  unfold opening_lines, closing_lines.
  induction lines as [|l lines IH]; [reflexivity|].
  cbn [fold_right filter]. rewrite IH. unfold brace_delta.
  destruct (includes (lit "{") l), (includes (lit "}") l);
    cbn [List.length]; lia.
Qed.

Lemma depth_of_lines aplCode :
  depth_of (split nl aplCode)
  = (Z.of_nat (opening_lines (lines_of aplCode))
     - Z.of_nat (closing_lines (lines_of aplCode)))%Z.
Proof. unfold depth_of, lines_of. apply depth_counts. Qed.

(** The messages of validateSyntax, in order. *)
Lemma validateSyntax_errors aplCode :
  let seen := lines_of aplCode in
  errors (validateSyntax aplCode)
  = map unexpected_closing (negative_points 0 0 (split nl aplCode))
    ++ (if existsb (startsWith (lit "@character")) seen
        then [] else [missing_character])
    ++ (if existsb (startsWith (lit "@archetype")) seen
        then [] else [missing_archetype])
    ++ (if (closing_lines seen <? opening_lines seen)%nat
        then [unclosed_braces] else []).
Proof.
  cbv zeta. unfold validateSyntax. cbv zeta. cbn [errors].
  destruct (scan_from_spec (split nl aplCode) 0 scan0) as (Hd & Hr & Hc & Ha).
  rewrite Hd, Hr, Hc, Ha. cbn [scan0 openBraces reported hasCharacter hasArchetype].
  rewrite depth_of_lines. fold (lines_of aplCode). cbn [orb app].
  assert (E : (0 <? 0 + (Z.of_nat (opening_lines (lines_of aplCode))
                         - Z.of_nat (closing_lines (lines_of aplCode))))%Z
              = (closing_lines (lines_of aplCode)
                 <? opening_lines (lines_of aplCode))%nat).
  { destruct (Nat.ltb_spec (closing_lines (lines_of aplCode))
                           (opening_lines (lines_of aplCode)));
      [apply Z.ltb_lt|apply Z.ltb_ge]; lia. }
  rewrite E.
  destruct (existsb (startsWith (lit "@character")) (lines_of aplCode)),
           (existsb (startsWith (lit "@archetype")) (lines_of aplCode)),
           (closing_lines (lines_of aplCode) <? opening_lines (lines_of aplCode))%nat;
    rewrite <- ?app_assoc; cbn [app]; rewrite ?app_nil_r; reflexivity.
Qed.

(** [negative_points] lists the lines that are looked at and after
    which the depth so far is negative. *)
Lemma negative_points_spec lines : forall i0 d i,
  In i (negative_points i0 d lines) <->
  exists j, i = i0 + j /\ j < List.length lines
            /\ logical (trim (nth j lines [])) = true
            /\ (d + depth_of (firstn (S j) lines) < 0)%Z.
Proof.
  induction lines as [|raw rest IH]; intros i0 d i.
  - cbn. split; [intros []|]. intros (j & _ & H & _). lia.
  - cbn [negative_points].
    destruct (logical (trim raw)) eqn:L.
    + assert (Step : In i (negative_points (S i0) (d + brace_delta (trim raw)) rest)
               <-> exists j, i = i0 + S j /\ S j < List.length (raw :: rest)
                     /\ logical (trim (nth (S j) (raw :: rest) [])) = true
                     /\ (d + depth_of (firstn (S (S j)) (raw :: rest)) < 0)%Z).
      { rewrite IH. split; intros (j & E & Hj & Hl & Hd); exists j;
          cbn [List.length nth] in *;
          change (firstn (S (S j)) (raw :: rest)) with (raw :: firstn (S j) rest) in *;
          rewrite ?depth_of_cons, ?L in *; repeat split; try assumption; lia. }
      assert (Here : ((d + brace_delta (trim raw) <? 0)%Z = true /\ i = i0)
               <-> (i = i0 + 0 /\ 0 < List.length (raw :: rest)
                    /\ logical (trim (nth 0 (raw :: rest) [])) = true
                    /\ (d + depth_of (firstn 1 (raw :: rest)) < 0)%Z)).
      { cbn [List.length nth firstn]. rewrite depth_of_cons, L.
        change (depth_of []) with 0%Z. rewrite Z.ltb_lt.
        split; intros H; repeat split; try tauto; lia. }
      destruct (d + brace_delta (trim raw) <? 0)%Z eqn:N.
      * cbn [In]. split.
        -- intros [<-|H].
           ++ exists 0. apply Here. now split.
           ++ apply Step in H as (j & H). now exists (S j).
        -- intros ([|j] & H).
           ++ left. symmetry. now apply Here.
           ++ right. apply Step. now exists j.
      * split.
        -- intros H. apply Step in H as (j & H). now exists (S j).
        -- intros ([|j] & H).
           ++ apply Here in H as [H _]. discriminate.
           ++ apply Step. now exists j.
    + rewrite IH. split.
      * intros (j & E & Hj & Hl & Hd). exists (S j).
        cbn [List.length nth].
        change (firstn (S (S j)) (raw :: rest)) with (raw :: firstn (S j) rest).
        rewrite depth_of_cons, L. repeat split; try assumption; lia.
      * intros ([|j] & E & Hj & Hl & Hd).
        -- cbn [nth] in Hl. congruence.
        -- exists j. cbn [List.length nth] in *.
           change (firstn (S (S j)) (raw :: rest))
             with (raw :: firstn (S j) rest) in Hd.
           rewrite depth_of_cons, L in Hd. repeat split; try assumption; lia.
Qed.

Lemma unexpected_closing_head i : exists t, unexpected_closing i = 76%N :: t.
Proof. eexists. reflexivity. Qed.

Lemma unclosed_not_unexpected l : ~ In unclosed_braces (map unexpected_closing l).
Proof.
  intros H. apply in_map_iff in H as (i & E & _).
  destruct (unexpected_closing_head i) as [t Ht]. rewrite Ht in E.
  vm_compute in E. discriminate.
Qed.

Lemma validateSyntax_valid aplCode :
  valid (validateSyntax aplCode)
  = match errors (validateSyntax aplCode) with [] => true | _ => false end.
Proof. reflexivity. Qed.

Lemma scan_depth lines :
  openBraces (scan_from 0 lines scan0) = depth_of lines.
Proof.
  destruct (scan_from_spec lines 0 scan0) as (H & _). rewrite H. reflexivity.
Qed.

(** Claim C6.  validateSyntax reports unclosed braces exactly when more
    of the lines it looks at (trimmed, neither blank nor comment)
    contain an opening brace than contain a closing one; its counter
    ends at the difference of the two numbers, so that is exactly when
    the counter ends positive.  It reports the line number of every
    line it looks at after which the counter is negative.  The flag
    says whether the list of messages is empty, and the list is, in
    order, those reports, the two missing-directive messages and the
    unclosed-braces message.  validateSyntax is a total function. *)
Theorem C6_brace_balance aplCode :
  let report := validateSyntax aplCode in
  let seen := lines_of aplCode in
  let raw_lines := split nl aplCode in
  (In unclosed_braces (errors report)
   <-> closing_lines seen < opening_lines seen) /\
  openBraces (scan_from 0 raw_lines scan0)
  = (Z.of_nat (opening_lines seen) - Z.of_nat (closing_lines seen))%Z /\
  (forall i, i < List.length raw_lines ->
             logical (trim (nth i raw_lines [])) = true ->
             (openBraces (scan_from 0 (firstn (S i) raw_lines) scan0) < 0)%Z ->
             In (unexpected_closing i) (errors report)) /\
  (valid report = true <-> errors report = []) /\
  errors report
  = map unexpected_closing (negative_points 0 0 raw_lines)
    ++ (if existsb (startsWith (lit "@character")) seen
        then [] else [missing_character])
    ++ (if existsb (startsWith (lit "@archetype")) seen
        then [] else [missing_archetype])
    ++ (if (closing_lines seen <? opening_lines seen)%nat
        then [unclosed_braces] else []).
Proof.
  cbv zeta. pose proof (validateSyntax_errors aplCode) as E. cbv zeta in E.
  split; [|split; [|split; [|split; [|exact E]]]].
  - rewrite E, !in_app_iff. split.
    + intros [H|[H|[H|H]]].
      * now apply unclosed_not_unexpected in H.
      * destruct (existsb _ _); [destruct H|].
        destruct H as [H|[]]. vm_compute in H. discriminate.
      * destruct (existsb (startsWith (lit "@archetype")) _); [destruct H|].
        destruct H as [H|[]]. vm_compute in H. discriminate.
      * destruct (Nat.ltb_spec (closing_lines (lines_of aplCode))
                               (opening_lines (lines_of aplCode)));
          [assumption|destruct H].
    + intros H. apply Nat.ltb_lt in H. rewrite H. right. right. right. now left.
  - rewrite scan_depth. apply depth_of_lines.
  - intros i Hi Hl Hd. rewrite scan_depth in Hd. rewrite E.
    apply in_app_iff. left.
    apply in_map. apply negative_points_spec. exists i.
    repeat split; try assumption; lia.
  - rewrite validateSyntax_valid.
    destruct (errors (validateSyntax aplCode)); split; congruence.
Qed.

Lemma C6_witness :
  In (unexpected_closing 0) (errors (validateSyntax (lit "}"))).
Proof.
  destruct (C6_brace_balance (lit "}")) as (_ & _ & H & _).
  apply H.
  - vm_compute. lia.
  - vm_compute. reflexivity.
  - vm_compute. reflexivity.
Defined.










(* ================================================================== *)
(** ** Sections left open (claim C9) *)
(* ================================================================== *)

(** What a directive line does to the character object depends on that
    object only. *)
Lemma directive_step_character line st st' :
  character st = character st' ->
  character (directive_step line st) = character (directive_step line st').
Proof.
  intros E. rewrite !directive_step_unfold. cbv zeta.
  repeat match goal with
  | |- context [if ?b then _ else _] => destruct b
  end; rewrite ?character_with, ?E; reflexivity.
Qed.

(** A line that opens a section leaves the character object alone. *)
Lemma opening_step_character line st :
  opens_section line = true -> character (step st line) = character st.
Proof.
  intros O. unfold step. fold (is_directive line).
  rewrite (opens_section_directive line O), directive_step_unfold. cbv zeta.
  unfold opens_section in O.
  apply andb_true_iff in O as [O I]. apply andb_true_iff in O as [_ O].
  apply negb_true_iff in O. unfold scalar_directives in O.
  cbn [map existsb] in O.
  apply orb_false_iff in O as [O1 O]. apply orb_false_iff in O as [O2 O].
  apply orb_false_iff in O as [O3 O]. apply orb_false_iff in O as [O4 _].
  rewrite O1, O2, O3, O4, I. reflexivity.
Qed.

(** As long as no line closes a section, only directive lines reach the
    character object. *)
Lemma run_no_close body : forall st st',
  character st = character st' ->
  Forall (fun l => closing l = false) body ->
  character (run st body) = character (run st' (filter is_directive body)).
Proof.
  induction body as [|line body IH]; intros st st' E HF; [exact E|].
  inversion HF as [|? ? Hl HF']; subst. cbn [filter]. rewrite run_cons.
  destruct (is_directive line) eqn:D.
  - rewrite run_cons. apply IH; [|exact HF'].
    unfold step. fold (is_directive line). rewrite D.
    now apply directive_step_character.
  - apply IH; [|exact HF']. rewrite <- E.
    unfold step. fold (is_directive line). rewrite D.
    unfold closing in Hl. rewrite Hl.
    destruct (section_open st); [|reflexivity].
    destruct (includes (lit ":") line); [|reflexivity].
    apply property_step_character.
Qed.

(** Claim C9, as stated, fails: a personality section left open is not
    stored, but the model returned has a personality all the same, the
    default one. *)
Lemma C9_unclosed_personality_gets_default :
  lines_of unclosed_personality = [lit "@personality {"; lit "voice: calm"] /\
  result_get (parseAPL unclosed_personality) f_personality
    = Some (Sec (default_personality
                   (Known {| arch_name := lit "Creator";
                             arch_element := lit "Fire";
                             arch_traits := [lit "innovative"; lit "passionate";
                                             lit "visionary"; lit "ambitious"];
                             arch_powers := [lit "idea_generation";
                                             lit "strategic_thinking";
                                             lit "inspiration"] |}))) /\
  result_get (parseAPL unclosed_personality) f_personality <> None.
Proof. vm_compute. repeat split. discriminate. Qed.

(** Claim C9, amended.  When a document ends in a section that no line
    closes, the loop stores nothing of it: the object it builds is the
    one for the document without the opening line and the property
    lines after it (directive lines after it still act), and parseAPL
    ends as validateAndComplete does on that object.  If no directive
    line follows, parseAPL agrees with the document cut before the
    opening line.  If no other directive writes the name of the
    section, the object the loop builds has no own property of that
    name; default filling may then add one. *)
Theorem C9_unclosed_section_dropped aplCode1 aplCode2 opening body :
  lines_of aplCode2 = lines_of aplCode1 ++ opening :: body ->
  opens_section opening = true ->
  Forall (fun l => closing l = false) body ->
  let rest := lines_of aplCode1 ++ filter is_directive body in
  parse_lines (lines_of aplCode2) = parse_lines rest /\
  parseAPL aplCode2 = validateAndComplete (parse_lines rest) /\
  (Forall (fun l => is_directive l = false) body ->
   parseAPL aplCode2 = parseAPL aplCode1) /\
  (Forall (fun l => writes (directive_name opening) l = false) rest ->
   lookup (directive_name opening) (fields (parse_lines (lines_of aplCode2)))
   = None).
Proof.
  intros E O HF rest.
  assert (P : parse_lines (lines_of aplCode2) = parse_lines rest).
  { subst rest. rewrite E. unfold parse_lines.
    rewrite !run_app, run_cons. apply run_no_close; [|exact HF].
    now apply opening_step_character. }
  split; [exact P|]. split; [unfold parseAPL; now rewrite P|]. split.
  - intros Hd. unfold parseAPL. rewrite P. subst rest.
    assert (N : filter is_directive body = []).
    { clear -Hd. induction Hd as [|l body Hl _ IH]; [reflexivity|].
      cbn [filter]. now rewrite Hl. }
    now rewrite N, app_nil_r.
  - intros Hw. rewrite P. now apply no_directive_no_property.
Qed.

Lemma C9_witness :
  parseAPL unclosed_personality = parseAPL [] /\
  lookup f_personality (fields (parse_lines (lines_of unclosed_personality)))
  = None.
Proof.
  destruct (C9_unclosed_section_dropped
              [] unclosed_personality (lit "@personality {") [lit "voice: calm"])
    as (_ & _ & H & L).
  - vm_compute. reflexivity.
  - vm_compute. reflexivity.
  - repeat constructor.
  - split.
    + apply H. repeat constructor.
    + apply L. vm_compute. constructor.
Defined.

(* ================================================================== *)
(** ** validateAndComplete: what every returned model satisfies *)
(* ================================================================== *)

Lemma upsert_same (V : Type) (k : str) (v : V) (l : list (str * V)) :
  lookup k l = Some v -> upsert k v l = l.
Proof.
  induction l as [|[k0 v0] l IH]; cbn; [discriminate|].
  destruct (Str.eqb k k0) eqn:E.
  - apply eqb_eq in E. subst k0. intros H. now injection H as ->.
  - intros H. now rewrite IH.
Qed.

Lemma put_same k f c : lookup k (fields c) = Some f -> put k f c = c.
Proof.
  intros H. unfold put. rewrite (upsert_same _ k f (fields c) H).
  now destruct c.
Qed.

Lemma default_to_truthy k f c :
  truthy (Some f) = true -> truthy (get (default_to k f c) k) = true.
Proof.
  intros H. unfold default_to. destruct (truthy (get c k)) eqn:T; [exact T|].
  now rewrite get_put_same.
Qed.

Lemma default_to_id k f c : truthy (get c k) = true -> default_to k f c = c.
Proof. unfold default_to. now intros ->. Qed.

Lemma get_default_to_other k k' f c :
  Str.eqb k' k = false -> get (default_to k f c) k' = get c k'.
Proof. intros H. now rewrite get_default_to, H. Qed.

Lemma lookup_default_to k k' f c :
  Str.eqb k' k = false ->
  lookup k' (fields (default_to k f c)) = lookup k' (fields c).
Proof.
  intros H. unfold default_to. destruct (truthy (get c k)); [reflexivity|].
  now rewrite lookup_put, H.
Qed.

Lemma clamp_idempotent x : clamp (clamp x) = clamp x.
Proof.
  destruct x as [|[|]|m e]; try reflexivity.
  unfold clamp. rewrite min_one_fin.
  destruct (Qle_bool (toQ one) (toQ (Fin m e))) eqn:H1; [reflexivity|].
  rewrite max_zero_fin.
  destruct (Qle_bool (toQ zero) (toQ (Fin m e))) eqn:H0; [|reflexivity].
  now rewrite min_one_fin, H1, max_zero_fin, H0.
Qed.

(** The consciousness_level of a returned model is an own property, the
    clamped number, and the seven defaulted properties are truthy. *)
Lemma validateAndComplete_shape c0 c :
  validateAndComplete c0 = Ok c ->
  (exists x, toNumber (level_read c0) = Ok x /\
             lookup f_consciousness_level (fields c) = Some (Val (VNum (clamp x)))) /\
  Forall (fun k => truthy (get c k) = true) defaulted_fields.
Proof.
  unfold validateAndComplete, level_read.
  set (c1 := default_to f_name _ c0).
  set (c2 := default_to f_archetype _ c1).
  set (c3 := default_to f_element _ c2).
  set (c4 := if is_undefined (get c3 f_consciousness_level) then _ else c3).
  assert (T1 : truthy (get c1 f_name) = true)
    by (now apply default_to_truthy).
  assert (T2 : truthy (get c2 f_archetype) = true)
    by (now apply default_to_truthy).
  assert (T3 : truthy (get c3 f_element) = true)
    by (now apply default_to_truthy).
  assert (L3 : get c3 f_consciousness_level = get c0 f_consciousness_level).
  { subst c3 c2 c1. rewrite !get_default_to. names_apart. reflexivity. }
  assert (L4 : get c4 f_consciousness_level =
               if is_undefined (get c0 f_consciousness_level)
               then number_field (Fin 7 (-1)) else get c0 f_consciousness_level).
  { subst c4. rewrite L3.
    destruct (is_undefined (get c0 f_consciousness_level)).
    - apply get_put_same.
    - exact L3. }
  assert (N4 : forall k, Str.eqb k f_consciousness_level = false ->
                         get c4 k = get c3 k).
  { intros k Hk. subst c4.
    destruct (is_undefined (get c3 f_consciousness_level)); [|reflexivity].
    now rewrite get_put, Hk. }
  rewrite L4.
  destruct (toNumber _) as [x| |] eqn:Hx; cbn [bind]; try discriminate.
  set (c5 := put f_consciousness_level _ c4).
  assert (N5 : forall k, Str.eqb k f_consciousness_level = false ->
                         get c5 k = get c3 k).
  { intros k Hk. subst c5. rewrite get_put, Hk. now apply N4. }
  assert (S5 : truthy (get c5 f_name) = true /\ truthy (get c5 f_archetype) = true
               /\ truthy (get c5 f_element) = true).
  { rewrite !N5 by reflexivity. repeat split.
    - unfold c3. rewrite get_default_to_other by reflexivity.
      unfold c2. rewrite get_default_to_other by reflexivity. exact T1.
    - unfold c3. rewrite get_default_to_other by reflexivity. exact T2.
    - exact T3. }
  assert (Tail : forall c6,
             truthy (get c6 f_personality) = true ->
             (forall k, Str.eqb k f_personality = false -> get c6 k = get c5 k) ->
             lookup f_consciousness_level (fields c6)
             = Some (Val (VNum (clamp x))) ->
             let c9 := default_to f_mystical_abilities (Sec default_mystical_abilities)
                         (default_to f_conversation_patterns
                            (Sec default_conversation_patterns)
                            (default_to f_memory (Sec default_memory) c6)) in
             (exists y, Ok x = Ok y /\
                lookup f_consciousness_level (fields c9)
                = Some (Val (VNum (clamp y)))) /\
             Forall (fun k => truthy (get c9 k) = true) defaulted_fields).
  { intros c6 P6 N6 L6 c9. split.
    - exists x. split; [reflexivity|]. subst c9.
      rewrite !lookup_default_to by reflexivity. exact L6.
    - destruct S5 as (Sn & Sa & Se).
      set (c7 := default_to f_memory (Sec default_memory) c6) in *.
      set (c8 := default_to f_conversation_patterns
                   (Sec default_conversation_patterns) c7) in *.
      assert (T7 : truthy (get c7 f_memory) = true)
        by (now apply default_to_truthy).
      assert (T8 : truthy (get c8 f_conversation_patterns) = true)
        by (now apply default_to_truthy).
      assert (T9 : truthy (get c9 f_mystical_abilities) = true)
        by (now apply default_to_truthy).
      assert (G7 : forall k, Str.eqb k f_memory = false -> get c7 k = get c6 k).
      { intros k Hk. unfold c7. now apply get_default_to_other. }
      assert (G8 : forall k, Str.eqb k f_conversation_patterns = false ->
                             get c8 k = get c7 k).
      { intros k Hk. unfold c8. now apply get_default_to_other. }
      assert (G9 : forall k, Str.eqb k f_mystical_abilities = false ->
                             get c9 k = get c8 k).
      { intros k Hk. unfold c9. now apply get_default_to_other. }
      unfold defaulted_fields. repeat constructor.
      + rewrite G9, G8, G7, N6 by reflexivity. exact Sn.
      + rewrite G9, G8, G7, N6 by reflexivity. exact Sa.
      + rewrite G9, G8, G7, N6 by reflexivity. exact Se.
      + rewrite G9, G8, G7 by reflexivity. exact P6.
      + rewrite G9, G8 by reflexivity. exact T7.
      + rewrite G9 by reflexivity. exact T8.
      + exact T9. }
  destruct (truthy (get c5 f_personality)) eqn:Hp; cbn [bind].
  - intros H. injection H as <-. apply Tail.
    + exact Hp.
    + reflexivity.
    + subst c5. now rewrite lookup_put, eqb_refl.
  - destruct (toPropertyKey _) as [key| |]; cbn [bind]; try discriminate.
    destruct (registry_get key) as [entry|]; try discriminate.
    intros H. injection H as <-. apply Tail.
    + now rewrite get_put_same.
    + intros k Hk. now rewrite get_put, Hk.
    + rewrite lookup_put. names_apart. subst c5.
      now rewrite lookup_put, eqb_refl.
Qed.

(** Extra X1.  validateAndComplete is idempotent: applied to a model it
    returned, it returns that model unchanged. *)
Theorem validateAndComplete_idempotent c0 c :
  validateAndComplete c0 = Ok c -> validateAndComplete c = Ok c.
Proof.
  intros H. destruct (validateAndComplete_shape c0 c H) as [(x & _ & L) T].
  unfold defaulted_fields in T.
  inversion T as [|? ? Tn T1]; subst. inversion T1 as [|? ? Ta T2]; subst.
  inversion T2 as [|? ? Te T3]; subst. inversion T3 as [|? ? Tp T4]; subst.
  inversion T4 as [|? ? Tm T5]; subst. inversion T5 as [|? ? Tc T6]; subst.
  inversion T6 as [|? ? Ty _]; subst.
  unfold validateAndComplete.
  rewrite (default_to_id f_name _ c Tn), (default_to_id f_archetype _ c Ta),
    (default_to_id f_element _ c Te).
  rewrite (get_own c _ _ L). cbn [is_undefined].
  rewrite (get_own c _ _ L). cbn [toNumber bind].
  change (Num.max zero (Num.min one (clamp x))) with (clamp (clamp x)).
  rewrite clamp_idempotent, (put_same _ _ c L), Tp. cbn [bind].
  now rewrite (default_to_id f_memory _ c Tm),
    (default_to_id f_conversation_patterns _ c Tc),
    (default_to_id f_mystical_abilities _ c Ty).
Qed.

Lemma validateAndComplete_idempotent_witness :
  validateAndComplete (model_of echo_source) = Ok (model_of echo_source).
Proof.
  apply (validateAndComplete_idempotent (parse_lines (lines_of echo_source))).
  vm_compute. reflexivity.
Defined.

Lemma clamp_NaN x : isNaN x = true -> clamp x = NaN.
Proof. destruct x; try discriminate. reflexivity. Qed.

(** Extra X2.  Every model parseAPL returns has a truthy name,
    archetype, element, personality, memory, conversation_patterns and
    mystical_abilities, and its consciousness_level is a number that is
    NaN or lies in [0, 1]. *)
Theorem parseAPL_model_populated aplCode c :
  parseAPL aplCode = Ok c ->
  Forall (fun k => truthy (get c k) = true) defaulted_fields /\
  exists x, get c f_consciousness_level = number_field x
            /\ (x = NaN \/ in_unit_interval x).
Proof.
  intros H. unfold parseAPL in H.
  destruct (validateAndComplete_shape _ c H) as [(x & _ & L) T].
  split; [exact T|]. exists (clamp x). split; [now apply get_own|].
  destruct (isNaN x) eqn:N.
  - left. now apply clamp_NaN.
  - right. now apply clamp_unit.
Qed.

Lemma parseAPL_model_populated_witness :
  Forall (fun k => truthy (get (model_of echo_source) k) = true) defaulted_fields /\
  exists x, get (model_of echo_source) f_consciousness_level = number_field x
            /\ (x = NaN \/ in_unit_interval x).
Proof.
  apply (parseAPL_model_populated echo_source). vm_compute. reflexivity.
Defined.

(** Extra X3.  A consciousness_level directive whose right-hand side
    parseFloat does not read as a number is neither defaulted nor
    clamped: the model holds NaN. *)
Theorem unreadable_level_stays_NaN aplCode c lines1 line lines2 :
  parseAPL aplCode = Ok c ->
  lines_of aplCode = lines1 ++ line :: lines2 ->
  names line f_consciousness_level = true ->
  Forall (fun l => names l f_consciousness_level = false) lines2 ->
  isNaN (parseFloat (parseValue (directive_value line))) = true ->
  get c f_consciousness_level = number_field NaN.
Proof.
  intros H E Hn HF Hx. unfold parseAPL in H.
  set (raw := parse_lines (lines_of aplCode)) in *.
  destruct (validateAndComplete_scalars raw c H) as (_ & _ & _ & x & Hr & Hl).
  assert (G : get raw f_consciousness_level
              = Some (Val (VNum (parseFloat (parseValue (directive_value line)))))).
  { apply get_own. subst raw. rewrite E. now apply last_level_directive. }
  unfold level_read in Hr. rewrite G in Hr. cbn in Hr. injection Hr as <-.
  rewrite Hl. now rewrite clamp_NaN.
Qed.

Lemma unreadable_level_stays_NaN_witness :
  get (model_of (lit "@consciousness_level high")) f_consciousness_level
  = number_field NaN.
Proof.
  apply (unreadable_level_stays_NaN (lit "@consciousness_level high") _
           [] (lit "@consciousness_level high") []).
  - vm_compute. reflexivity.
  - vm_compute. reflexivity.
  - vm_compute. reflexivity.
  - constructor.
  - vm_compute. reflexivity.
Defined.

(** Extra X4.  For a document without a directive named [__proto__],
    parseAPL throws exactly when the loop left no truthy personality and
    left an archetype, a non-empty string, that is no key of the
    archetype table (own or inherited). *)
Theorem parseAPL_throws_iff aplCode :
  Forall (fun l => names l proto_key = false) (lines_of aplCode) ->
  let raw := parse_lines (lines_of aplCode) in
  parseAPL aplCode = TypeError <->
  (truthy (get raw f_personality) = false /\
   exists s, get raw f_archetype = Some (Val (VStr s))
             /\ nonempty s = true /\ registry_get s = None).
Proof.
  intros HP raw.
  assert (Pn : inherits raw = None)
    by (now apply no_proto_directive_no_prototype).
  assert (Hx : exists x, toNumber (level_read raw) = Ok x).
  { unfold level_read, get. rewrite Pn.
    destruct (lookup f_consciousness_level (fields raw)) as [f|] eqn:L.
    - apply own_level_shape in L as [x ->]. now exists x.
    - now exists (Fin 7 (-1)). }
  destruct Hx as [x Hx].
  assert (Ha : get raw f_archetype = None
               \/ exists s, get raw f_archetype = Some (Val (VStr s))).
  { unfold get. rewrite Pn.
    destruct (lookup f_archetype (fields raw)) as [f|] eqn:L; [|now left].
    apply own_archetype_shape in L as [s ->]. right. now exists s. }
  pose proof (validateAndComplete_cases raw) as C. cbv zeta in C.
  pose proof (parseAPL_in_model aplCode) as M. unfold parseAPL in *. fold raw in M. fold raw.
  split.
  - intros E. rewrite E in C.
    destruct C as [C|[Hf C]]; [congruence|]. split; [exact Hf|].
    destruct Ha as [Ha|[s Ha]]; rewrite Ha in C; unfold or_default in C;
      cbn [truthy truthy_value] in C.
    + destruct C as [C|(key & C & R)]; [discriminate|].
      cbn in C. injection C as <-. vm_compute in R. discriminate.
    + destruct (nonempty s) eqn:Ns.
      * exists s. repeat split; try assumption.
        destruct C as [C|(key & C & R)]; [discriminate|].
        cbn in C. now injection C as <-.
      * destruct C as [C|(key & C & R)]; [discriminate|].
        cbn in C. injection C as <-. vm_compute in R. discriminate.
  - intros (Hf & s & Hs & Ns & R).
    destruct (validateAndComplete raw) as [c| |] eqn:V;
      [|reflexivity|contradiction].
    destruct C as (y & _ & [C|(key & entry & C & R')]); [congruence|].
    rewrite Hs in C. unfold or_default in C. cbn [truthy truthy_value] in C.
    rewrite Ns in C. cbn in C. injection C as <-. congruence.
Qed.

Lemma parseAPL_throws_iff_witness :
  parseAPL wizard_source = TypeError.
Proof.
  apply (parseAPL_throws_iff wizard_source).
  - vm_compute. repeat constructor.
  - split; [vm_compute; reflexivity|].
    exists (lit "Wizard"). vm_compute. repeat split.
Defined.

(* ================================================================== *)
(** ** Splitting, joining and trimming *)
(* ================================================================== *)

Lemma split_free c s : ~ In c s -> split c s = [s].
Proof.
  induction s as [|x r IH]; intros H; [reflexivity|]. cbn [split].
  destruct (N.eqb x c) eqn:E.
  - apply N.eqb_eq in E. subst. exfalso. apply H. now left.
  - rewrite IH; [reflexivity|]. intros Hin. apply H. now right.
Qed.

Lemma split_app c a b : ~ In c a -> split c (a ++ c :: b) = a :: split c b.
Proof.
  induction a as [|x r IH]; intros H.
  - cbn. now rewrite N.eqb_refl.
  - cbn [app split]. destruct (N.eqb x c) eqn:E.
    + apply N.eqb_eq in E. subst. exfalso. apply H. now left.
    + rewrite IH; [reflexivity|]. intros Hin. apply H. now right.
Qed.

Lemma join_cons sep p q r :
  join sep (p :: q :: r) = p ++ sep ++ join sep (q :: r).
Proof. reflexivity. Qed.

(** Joining the pieces of a split with the separator gives the string
    back. *)
Lemma join_split c s : join [c] (split c s) = s.
Proof.
  induction s as [|x r IH]; [reflexivity|]. cbn [split].
  destruct (split_cons c r) as (h & t & Hs). rewrite Hs in *.
  destruct (N.eqb x c) eqn:E.
  - apply N.eqb_eq in E. subst x. rewrite join_cons, IH. reflexivity.
  - destruct t as [|q t].
    + cbn [join] in *. now rewrite IH.
    + rewrite join_cons. rewrite join_cons in IH. rewrite <- IH. reflexivity.
Qed.

Lemma trimStart_app_nonws l x :
  is_ws x = false -> trimStart (l ++ [x]) = trimStart l ++ [x].
Proof.
  intros H. induction l as [|y l IH]; cbn [app trimStart].
  - now rewrite H.
  - destruct (is_ws y); [exact IH|reflexivity].
Qed.

Lemma trimEnd_cons_nonws x b :
  is_ws x = false -> trimEnd (x :: b) = x :: trimEnd b.
Proof.
  intros H. unfold trimEnd. cbn [rev].
  rewrite (trimStart_app_nonws _ _ H), rev_app_distr. reflexivity.
Qed.

Lemma trimEnd_snoc_nonws l x : is_ws x = false -> trimEnd (l ++ [x]) = l ++ [x].
Proof.
  intros H. unfold trimEnd. rewrite rev_app_distr. cbn [rev app trimStart].
  rewrite H. cbn [rev]. now rewrite rev_involutive.
Qed.

Lemma trimStart_ws x s : is_ws x = true -> trimStart (x :: s) = trimStart s.
Proof. intros H. cbn [trimStart]. now rewrite H. Qed.

Lemma trimStart_nonws x s : is_ws x = false -> trimStart (x :: s) = x :: s.
Proof. intros H. cbn [trimStart]. now rewrite H. Qed.

Lemma dquote_nonws : is_ws dquote = false.
Proof. reflexivity. Qed.


(** parseValue undoes the quoting of the serializer up to white space:
    a string written between double quotes is read back trimmed,
    whatever it contains. *)
Lemma parseValue_quoted s : parseValue (quoted s) = trim s.
Proof.
  unfold parseValue, quoted. cbn [app].
  change (is_quote dquote) with true. cbv iota.
  rewrite rev_app_distr. cbn [rev app].
  change (is_quote dquote) with true. cbv iota.
  now rewrite rev_involutive.
Qed.

Lemma parseValue_spaced_quoted b :
  parseValue (sp :: quoted b) = dquote :: trimEnd b.
Proof.
  unfold parseValue, quoted. cbn [app].
  change (is_quote sp) with false. cbv iota.
  change (sp :: dquote :: b ++ [dquote]) with ((sp :: dquote :: b) ++ [dquote]).
  rewrite rev_app_distr. cbn [rev app].
  change (is_quote dquote) with true. cbv iota.
  change (rev b ++ [dquote]) with (rev (dquote :: b)).
  change (rev (dquote :: b) ++ [sp]) with (rev (sp :: dquote :: b)).
  rewrite rev_involutive. unfold trim.
  rewrite (trimStart_ws sp _ eq_refl), (trimStart_nonws _ _ dquote_nonws).
  now apply trimEnd_cons_nonws.
Qed.

Lemma quoted_free c s : c <> dquote -> ~ In c s -> ~ In c (quoted s).
Proof.
  intros Hc Hs. unfold quoted. cbn [app]. intros [H|H]; [congruence|].
  apply in_app_iff in H as [H|[H|[]]]; [contradiction|congruence].
Qed.

(** The pieces of the text of an array at its commas. *)
Lemma split_array_items a rest :
  Forall (fun s => ~ In 44%N s) (a :: rest) ->
  forall pre, ~ In 44%N pre ->
  split 44 (pre ++ join (lit ", ") (map quoted (a :: rest)))
  = (pre ++ quoted a) :: map (fun b => sp :: quoted b) rest.
Proof.
  revert a. induction rest as [|b rest IH]; intros a HF pre Hpre.
  - cbn [map join]. apply split_free.
    intros H. apply in_app_iff in H as [H|H]; [contradiction|].
    inversion HF; subst. eapply quoted_free; [|eassumption|exact H]. discriminate.
  - inversion HF as [|? ? Ha HF']; subst.
    change (map quoted (a :: b :: rest))
      with (quoted a :: quoted b :: map quoted rest).
    rewrite join_cons.
    change (quoted b :: map quoted rest) with (map quoted (b :: rest)).
    change (lit ", " ++ join (lit ", ") (map quoted (b :: rest)))
      with (44%N :: ([sp] ++ join (lit ", ") (map quoted (b :: rest)))).
    rewrite app_assoc.
    rewrite split_app.
    + f_equal.
      rewrite (IH b HF' [sp]); [reflexivity|].
      intros [H|[]]. discriminate.
    + intros H. apply in_app_iff in H as [H|H]; [contradiction|].
      eapply quoted_free; [|exact Ha|exact H]. discriminate.
Qed.

Lemma slice1m1_brackets s : slice1m1 (lit "[" ++ s ++ lit "]") = s.
Proof.
  unfold slice1m1. change (lit "[" ++ s ++ lit "]") with (91%N :: s ++ [93%N]).
  cbn [tl]. apply removelast_last.
Qed.

(** What parseArray reads from the text the serializer writes. *)
Lemma parseArray_array_text items :
  Forall (fun s => ~ In 44%N s) items ->
  parseArray (array_text items)
  = match items with
    | [] => [[]]
    | a :: rest => trim a :: map (fun b => dquote :: trimEnd b) rest
    end.
Proof.
  intros HF. unfold parseArray, array_text. rewrite slice1m1_brackets.
  destruct items as [|a rest]; [reflexivity|].
  change (join (lit ", ") (map quoted (a :: rest)))
    with ([] ++ join (lit ", ") (map quoted (a :: rest))).
  rewrite (split_array_items a rest HF [] (fun H => H)).
  cbn [app map]. rewrite parseValue_quoted, map_map. f_equal.
  apply map_ext. intros b. apply parseValue_spaced_quoted.
Qed.

Lemma trimEnd_no_fixpoint t : t <> dquote :: trimEnd t.
Proof.
  induction t as [|x u IH]; [discriminate|].
  intros H. injection H as Hx Hu. subst x.
  rewrite (trimEnd_cons_nonws _ _ dquote_nonws) in Hu. contradiction.
Qed.

(** Extra X5.  An array without commas in its items, written by the
    serializer and read by parseArray, comes back equal exactly when it
    has one item and that item has no white space around it.  The empty
    array comes back as one empty string, and every item after the
    first comes back with a double quote in front. *)
Theorem array_roundtrip_iff items :
  Forall (fun s => ~ In 44%N s) items ->
  (parseArray (array_text items) = items
   <-> exists a, items = [a] /\ trim a = a).
Proof.
  intros HF. rewrite (parseArray_array_text items HF).
  destruct items as [|a [|b rest]].
  - split; [discriminate|]. intros (a & H & _). discriminate.
  - cbn [map]. split.
    + intros H. injection H as H. now exists a.
    + intros (a' & H & T). injection H as <-. now rewrite T.
  - cbn [map]. split.
    + intros H. injection H as _ H _. symmetry in H.
      now apply trimEnd_no_fixpoint in H.
    + intros (a' & H & _). discriminate.
Qed.

Lemma array_roundtrip_iff_witness :
  parseArray (array_text [lit "general"]) = [lit "general"].
Proof.
  apply (array_roundtrip_iff [lit "general"]).
  - repeat constructor. vm_compute. intuition discriminate.
  - exists (lit "general"). split; reflexivity.
Defined.

(** The serializer writes [array_text] for an array of the personality
    section. *)
Lemma personality_entry_array key items :
  personality_entry (key, VArr items)
  = Ok ([nl] ++ lit "  " ++ key ++ lit ": " ++ array_text items).
Proof.
  unfold personality_entry, array_text.
  change (lit ": [") with (lit ": " ++ lit "["). now rewrite <- !app_assoc.
Qed.

(* ================================================================== *)
(** ** The lines of a document *)
(* ================================================================== *)

Lemma trimStart_head s x r : trimStart s = x :: r -> is_ws x = false.
Proof.
  induction s as [|y s IH]; cbn [trimStart]; [discriminate|].
  destruct (is_ws y) eqn:E; [exact IH|]. intros H. now injection H as <- _.
Qed.

Lemma trimStart_idempotent s : trimStart (trimStart s) = trimStart s.
Proof.
  destruct (trimStart s) as [|x r] eqn:E; [reflexivity|].
  apply trimStart_nonws. exact (trimStart_head _ _ _ E).
Qed.

Lemma trimEnd_idempotent s : trimEnd (trimEnd s) = trimEnd s.
Proof. unfold trimEnd. now rewrite rev_involutive, trimStart_idempotent. Qed.

Lemma trim_idempotent s : trim (trim s) = trim s.
Proof.
  unfold trim. destruct (trimStart s) as [|x r] eqn:E; [reflexivity|].
  pose proof (trimStart_head _ _ _ E) as W.
  rewrite (trimEnd_cons_nonws _ _ W), (trimStart_nonws _ _ W).
  rewrite <- (trimEnd_cons_nonws _ _ W). apply trimEnd_idempotent.
Qed.

Lemma trim_ws_cons c s : is_ws c = true -> trim (c :: s) = trim s.
Proof. intros H. unfold trim. now rewrite (trimStart_ws _ _ H). Qed.

Lemma trimEnd_ws_snoc c s : is_ws c = true -> trimEnd (s ++ [c]) = trimEnd s.
Proof.
  intros H. unfold trimEnd. rewrite rev_app_distr. cbn [rev app].
  now rewrite (trimStart_ws _ _ H).
Qed.

Lemma trimStart_app a b :
  trimStart (a ++ b)
  = match trimStart a with [] => trimStart b | _ => trimStart a ++ b end.
Proof.
  induction a as [|x a IH]; cbn [app trimStart]; [now destruct (trimStart b)|].
  destruct (is_ws x); [exact IH|reflexivity].
Qed.

Lemma trim_ws_snoc c s : is_ws c = true -> trim (s ++ [c]) = trim s.
Proof.
  intros H. unfold trim. rewrite trimStart_app.
  destruct (trimStart s) as [|x r] eqn:E.
  - now rewrite (trimStart_ws _ _ H).
  - now apply trimEnd_ws_snoc.
Qed.

Lemma trim_spaces n s : trim (repeat sp n ++ s) = trim s.
Proof.
  induction n as [|n IH]; [reflexivity|]. cbn [repeat app].
  now rewrite (trim_ws_cons sp _ eq_refl).
Qed.

(** The pieces of a concatenation. *)
Lemma split_append c a b :
  split c (a ++ b)
  = removelast (split c a)
    ++ (last (split c a) [] ++ hd [] (split c b)) :: tl (split c b).
Proof.
  induction a as [|x a IH].
  - cbn. now destruct (split_cons c b) as (h & t & ->).
  - cbn [app split]. rewrite IH. clear IH.
    destruct (split_cons c a) as (h & t & E). rewrite E.
    destruct (N.eqb x c).
    + reflexivity.
    + destruct t as [|q t]; reflexivity.
Qed.

Lemma logical_nil : logical [] = false.
Proof. reflexivity. Qed.

Lemma lines_of_unfold s : lines_of s = filter logical (map trim (split nl s)).
Proof. reflexivity. Qed.

Lemma lines_ws_cons c s : is_ws c = true -> lines_of (c :: s) = lines_of s.
Proof.
  intros H. unfold lines_of. cbn [split].
  destruct (split_cons nl s) as (h & t & E). rewrite E.
  destruct (N.eqb c nl) eqn:N.
  - reflexivity.
  - cbn [map]. now rewrite (trim_ws_cons _ _ H).
Qed.

Lemma lines_ws_snoc c s : is_ws c = true -> lines_of (s ++ [c]) = lines_of s.
Proof.
  intros H. unfold lines_of. rewrite split_append.
  assert (S : split nl s = removelast (split nl s) ++ [last (split nl s) []]).
  { apply app_removelast_last. destruct (split_cons nl s) as (h & t & ->).
    discriminate. }
  rewrite S at 3.
  rewrite !map_app, !filter_app. f_equal.
  cbn [split]. destruct (N.eqb c nl) eqn:N.
  - cbn [hd tl map filter]. rewrite app_nil_r. cbn [trim trimStart].
    destruct (logical (trim (last (split nl s) []))); reflexivity.
  - cbn [hd tl map filter]. now rewrite (trim_ws_snoc _ _ H).
Qed.

Lemma lines_trimStart s : lines_of (trimStart s) = lines_of s.
Proof.
  induction s as [|x s IH]; [reflexivity|]. cbn [trimStart].
  destruct (is_ws x) eqn:E; [|reflexivity].
  now rewrite IH, (lines_ws_cons _ _ E).
Qed.

Lemma trimEnd_snoc c s :
  trimEnd (s ++ [c]) = if is_ws c then trimEnd s else s ++ [c].
Proof.
  destruct (is_ws c) eqn:E;
    [now apply trimEnd_ws_snoc|now apply trimEnd_snoc_nonws].
Qed.

Lemma lines_trimEnd s : lines_of (trimEnd s) = lines_of s.
Proof.
  induction s as [|c s IH] using rev_ind; [reflexivity|].
  rewrite trimEnd_snoc. destruct (is_ws c) eqn:E; [|reflexivity].
  now rewrite IH, (lines_ws_snoc _ _ E).
Qed.

(** White space around a document does not change the lines the parser
    and the validator look at. *)
Lemma lines_trim s : lines_of (trim s) = lines_of s.
Proof. unfold trim. now rewrite lines_trimEnd, lines_trimStart. Qed.

Lemma split_pieces_free c s : Forall (fun l => ~ In c l) (split c s).
Proof.
  induction s as [|x s IH]; cbn [split].
  - constructor; [|constructor]. intros [].
  - destruct (split_cons c s) as (h & t & E). rewrite E in *.
    inversion IH as [|? ? Hh Ht]; subst.
    destruct (N.eqb x c) eqn:N.
    + constructor; [intros []|]. now constructor.
    + constructor; [|exact Ht]. intros [->|H]; [|contradiction].
      now rewrite N.eqb_refl in N.
Qed.

(** The lines of a text written line by line. *)
Lemma lines_of_written outs : forall pre,
  Forall (fun o => ~ In nl o) outs ->
  ~ In nl pre ->
  map trim (split nl (pre ++ concat (map (fun o => o ++ [nl]) outs)))
  = match outs with
    | [] => [trim pre]
    | o :: rest => trim (pre ++ o) :: map trim rest ++ [[]]
    end.
Proof.
  induction outs as [|o outs IH]; intros pre HF Hp.
  - cbn [map concat]. rewrite app_nil_r, (split_free _ _ Hp). reflexivity.
  - inversion HF as [|? ? Ho HF']; subst. cbn [map concat].
    rewrite <- app_assoc. cbn [app]. rewrite app_assoc.
    rewrite split_app.
    + cbn [map]. f_equal.
      specialize (IH [] HF' (fun H => H)). cbn [app] in IH. rewrite IH.
      destruct outs; reflexivity.
    + intros H. apply in_app_iff in H as [H|H]; contradiction.
Qed.

(* ================================================================== *)
(** ** formatAPL *)
(* ================================================================== *)

Lemma trimStart_incl x s : In x (trimStart s) -> In x s.
Proof.
  induction s as [|y s IH]; cbn [trimStart]; [easy|].
  destruct (is_ws y); [|easy]. intros H. right. now apply IH.
Qed.

Lemma trim_incl x s : In x (trim s) -> In x s.
Proof.
  unfold trim, trimEnd. intros H. apply in_rev in H.
  apply trimStart_incl in H. apply in_rev in H. now apply trimStart_incl.
Qed.

Lemma spaces_free n : ~ In nl (spaces n).
Proof.
  unfold spaces. intros H. apply repeat_spec in H. discriminate.
Qed.

(** One iteration writes one line, with the same text between the
    white space. *)
Lemma format_line_writes st line :
  exists o,
    formatted (format_line st line) = formatted st ++ o ++ [nl] /\
    trim o = trim line /\
    (~ In nl line -> ~ In nl o).
Proof.
  unfold format_line. cbv zeta.
  destruct (negb (nonempty (trim line)) || startsWith (lit "#") (trim line)).
  - exists line. cbn [formatted]. auto.
  - set (indent1 := if Str.eqb (trim line) (lit "}")
                    then Z.max 0 (indent st - 2) else indent st).
    exists (spaces indent1 ++ trim line). cbn [formatted].
    rewrite <- app_assoc. split; [reflexivity|]. split.
    + unfold spaces. now rewrite trim_spaces, trim_idempotent.
    + intros Hl Hin. apply in_app_iff in Hin as [Hin|Hin].
      * now apply spaces_free in Hin.
      * apply Hl. now apply trim_incl.
Qed.

Lemma format_fold lines : forall st,
  exists outs,
    formatted (fold_left format_line lines st)
    = formatted st ++ concat (map (fun o => o ++ [nl]) outs) /\
    map trim outs = map trim lines /\
    (Forall (fun l => ~ In nl l) lines -> Forall (fun o => ~ In nl o) outs).
Proof.
  induction lines as [|line lines IH]; intros st.
  - exists []. cbn. now rewrite app_nil_r.
  - cbn [fold_left]. destruct (IH (format_line st line)) as (outs & F & T & N).
    destruct (format_line_writes st line) as (o & Fo & To & No).
    exists (o :: outs). rewrite F, Fo. cbn [map concat].
    rewrite <- !app_assoc. split; [reflexivity|]. split.
    + now rewrite To, T.
    + intros H. inversion H; subst. constructor; auto.
Qed.

Lemma filter_logical_snoc l : filter logical (l ++ [[]]) = filter logical l.
Proof. rewrite filter_app. cbn. apply app_nil_r. Qed.

(** formatAPL keeps the lines the parser and the validator look at. *)
Lemma lines_formatAPL aplCode : lines_of (formatAPL aplCode) = lines_of aplCode.
Proof.
  unfold formatAPL. rewrite lines_trim.
  destruct (format_fold (split nl aplCode) layout0) as (outs & F & T & N).
  rewrite F. cbn [layout0 formatted]. unfold lines_of at 1.
  rewrite (lines_of_written outs []);
    [|apply N, split_pieces_free|intros []].
  unfold lines_of. rewrite <- T.
  destruct outs as [|o rest]; [reflexivity|].
  cbn [app]. change (trim o :: map trim rest ++ [[]])
    with ((map trim (o :: rest)) ++ [[]]).
  apply filter_logical_snoc.
Qed.

(** Extra X6.  Formatting a document does not change what it parses
    to: parseAPL returns the same model, or throws the same way, on the
    formatted text as on the original. *)
Theorem parseAPL_formatAPL aplCode : parseAPL (formatAPL aplCode) = parseAPL aplCode.
Proof. unfold parseAPL. now rewrite lines_formatAPL. Qed.

(* ================================================================== *)
(** ** When validateSyntax accepts *)
(* ================================================================== *)

(** The running counter of validateSyntax, over the lines it looks at. *)
Lemma negative_points_seen lines : forall i d,
  (0 <= d)%Z ->
  ((negative_points i d lines = [] /\ (d + depth_of lines <= 0)%Z)
   <-> balanced d (filter logical (map trim lines)) = true).
Proof.
  induction lines as [|raw rest IH]; intros i d Hd.
  - cbn. rewrite Z.add_0_r, Z.eqb_eq. split.
    + intros [_ H]. lia.
    + intros ->. split; [reflexivity|lia].
  - rewrite depth_of_cons. cbn [negative_points map filter].
    destruct (logical (trim raw)); [|now apply IH].
    cbn [balanced]. cbv zeta.
    specialize (IH (S i) (d + brace_delta (trim raw))%Z).
    rewrite andb_true_iff, Z.leb_le.
    destruct (Z.ltb_spec (d + brace_delta (trim raw)) 0).
    + split; [intros [E _]; discriminate|intros [? _]; lia].
    + rewrite <- (IH H), Z.add_assoc. tauto.
Qed.

Lemma balanced_spec seen : forall d,
  (0 <= d)%Z ->
  (balanced d seen = true <->
   (forall n, (Z.of_nat (closing_lines (firstn n seen))
               <= d + Z.of_nat (opening_lines (firstn n seen)))%Z) /\
   (d + Z.of_nat (opening_lines seen) = Z.of_nat (closing_lines seen))%Z).
Proof.
  assert (C : forall l r,
    (Z.of_nat (opening_lines (l :: r)) - Z.of_nat (closing_lines (l :: r))
     = brace_delta l + (Z.of_nat (opening_lines r) - Z.of_nat (closing_lines r)))%Z).
  { intros l r. rewrite <- !depth_counts. reflexivity. }
  induction seen as [|l r IH]; intros d Hd.
  - cbn [balanced]. rewrite Z.eqb_eq. split.
    + intros ->. split; [|reflexivity]. intros n. now rewrite firstn_nil.
    + intros [_ H]. cbn in H. lia.
  - cbn [balanced]. cbv zeta. rewrite andb_true_iff, Z.leb_le. split.
    + intros [H0 B]. apply (IH _ H0) in B as [P E]. split.
      * intros [|n]; [cbn; lia|]. cbn [firstn].
        specialize (P n). specialize (C l (firstn n r)). lia.
      * specialize (C l r). lia.
    + intros [P E].
      assert (H0 : (0 <= d + brace_delta l)%Z).
      { specialize (P 1%nat). cbn [firstn] in P. specialize (C l []).
        change (opening_lines []) with 0%nat in C.
        change (closing_lines []) with 0%nat in C. lia. }
      split; [exact H0|]. apply (IH _ H0). split.
      * intros n. specialize (P (S n)). cbn [firstn] in P.
        specialize (C l (firstn n r)). lia.
      * specialize (C l r). lia.
Qed.

(** The flag of validateSyntax, from the lines it looks at. *)
Lemma valid_seen aplCode :
  valid (validateSyntax aplCode)
  = existsb (startsWith (lit "@character")) (lines_of aplCode)
    && existsb (startsWith (lit "@archetype")) (lines_of aplCode)
    && balanced 0 (lines_of aplCode).
Proof.
  rewrite validateSyntax_valid.
  pose proof (validateSyntax_errors aplCode) as E. cbv zeta in E. rewrite E.
  pose proof (negative_points_seen (split nl aplCode) 0 0 (Z.le_refl 0)) as B.
  fold (lines_of aplCode) in B. rewrite depth_of_lines in B.
  destruct (existsb (startsWith (lit "@character")) (lines_of aplCode));
    [|now destruct (map unexpected_closing _)].
  destruct (existsb (startsWith (lit "@archetype")) (lines_of aplCode));
    [|now destruct (map unexpected_closing _)].
  cbn [andb app].
  destruct (balanced 0 (lines_of aplCode)).
  - destruct B as [_ B]. destruct (B eq_refl) as [N D]. rewrite N.
    destruct (Nat.ltb_spec (closing_lines (lines_of aplCode))
                           (opening_lines (lines_of aplCode))); [lia|reflexivity].
  - destruct (negative_points 0 0 (split nl aplCode)); [|reflexivity].
    destruct (Nat.ltb_spec (closing_lines (lines_of aplCode))
                           (opening_lines (lines_of aplCode))); [reflexivity|].
    destruct B as [B _]. discriminate B. split; [reflexivity|lia].
Qed.

(** Extra X7.  validateSyntax accepts a document exactly when, among
    the lines it looks at (trimmed, neither blank nor comment), one
    starts with @character and one with @archetype, no prefix has more
    lines with a closing brace than lines with an opening one, and the
    whole has as many of each. *)
Theorem validateSyntax_accepts aplCode :
  let seen := lines_of aplCode in
  valid (validateSyntax aplCode) = true <->
  existsb (startsWith (lit "@character")) seen = true /\
  existsb (startsWith (lit "@archetype")) seen = true /\
  (forall n, closing_lines (firstn n seen) <= opening_lines (firstn n seen)) /\
  opening_lines seen = closing_lines seen.
Proof.
  cbv zeta. rewrite valid_seen, !andb_true_iff.
  rewrite (balanced_spec (lines_of aplCode) 0 (Z.le_refl 0)).
  split.
  - intros [[C A] [P E]]. repeat split; try assumption.
    + intros n. specialize (P n). lia.
    + lia.
  - intros (C & A & P & E). repeat split; try assumption.
    + intros n. specialize (P n). lia.
    + lia.
Qed.

(** Extra X8.  Formatting a document does not change whether
    validateSyntax accepts it. *)
Theorem validateSyntax_formatAPL aplCode :
  valid (validateSyntax (formatAPL aplCode)) = valid (validateSyntax aplCode).
Proof. now rewrite !valid_seen, lines_formatAPL. Qed.

(* ================================================================== *)
(** ** formatAPL is idempotent *)
(* ================================================================== *)

Lemma format_line_eq st line :
  format_line st line
  = {| formatted := formatted st ++ line_out (indent st) line ++ [nl];
       indent := line_indent (indent st) line |}.
Proof.
  unfold format_line, line_out, line_indent, dedent, copied. cbv zeta.
  destruct (negb (nonempty (trim line)) || startsWith (lit "#") (trim line));
    [reflexivity|].
  now rewrite <- app_assoc.
Qed.

Lemma format_fold_eq lines : forall st,
  formatted (fold_left format_line lines st)
  = formatted st
    ++ concat (map (fun o => o ++ [nl]) (lines_out (indent st) lines)).
Proof.
  induction lines as [|line lines IH]; intros st.
  - cbn. now rewrite app_nil_r.
  - cbn [fold_left lines_out map concat]. rewrite IH, format_line_eq.
    cbn [formatted indent]. now rewrite <- !app_assoc.
Qed.

Lemma formatAPL_eq aplCode :
  formatAPL aplCode
  = trim (concat (map (fun o => o ++ [nl]) (lines_out 0 (split nl aplCode)))).
Proof. unfold formatAPL. now rewrite format_fold_eq. Qed.

(** What is written for a line depends on the line through its text
    between the white space only, as does the indentation. *)
Lemma copied_trim a b : trim a = trim b -> copied a = copied b.
Proof. unfold copied. now intros ->. Qed.

Lemma line_indent_trim i a b : trim a = trim b -> line_indent i a = line_indent i b.
Proof.
  intros E. unfold line_indent, dedent. now rewrite (copied_trim a b E), E.
Qed.

Lemma trim_line_out i line : trim (line_out i line) = trim line.
Proof.
  unfold line_out. destruct (copied line); [reflexivity|].
  unfold spaces. now rewrite trim_spaces, trim_idempotent.
Qed.

Lemma line_out_twice i line : line_out i (line_out i line) = line_out i line.
Proof.
  pose proof (trim_line_out i line) as T.
  unfold line_out at 1. rewrite (copied_trim _ _ T).
  unfold dedent. rewrite T.
  unfold line_out, dedent. destruct (copied line); reflexivity.
Qed.

Lemma laid_out_lines_out lines : forall i, laid_out i (lines_out i lines).
Proof.
  induction lines as [|line lines IH]; intros i; [exact I|].
  cbn [lines_out laid_out]. split; [apply line_out_twice|].
  rewrite (line_indent_trim i _ _ (trim_line_out i line)). apply IH.
Qed.

Lemma lines_out_laid_out lines : forall i,
  laid_out i lines -> lines_out i lines = lines.
Proof.
  induction lines as [|line lines IH]; intros i H; [reflexivity|].
  destruct H as [E H]. cbn [lines_out]. now rewrite E, (IH _ H).
Qed.

Lemma laid_out_snoc_nil lines : forall i,
  laid_out i (lines ++ [[]]) <-> laid_out i lines.
Proof.
  induction lines as [|line lines IH]; intros i.
  - cbn. tauto.
  - cbn [app laid_out]. now rewrite IH.
Qed.

Lemma trim_head s x r : trim s = x :: r -> is_ws x = false.
Proof.
  unfold trim. destruct (trimStart s) as [|y t] eqn:E; [discriminate|].
  pose proof (trimStart_head _ _ _ E) as W.
  rewrite (trimEnd_cons_nonws _ _ W). intros H. now injection H as <- _.
Qed.

Lemma trim_last s r x : trim s = r ++ [x] -> is_ws x = false.
Proof.
  unfold trim, trimEnd. intros H.
  apply (f_equal (@rev N)) in H. rewrite rev_involutive, rev_app_distr in H.
  cbn [rev app] in H. exact (trimStart_head _ _ _ H).
Qed.

Lemma copied_nil : copied [] = true.
Proof. reflexivity. Qed.

(** A line written back as it is cannot start with white space at
    indentation 0 unless it is copied. *)
Lemma line_out_ws_cons c h :
  is_ws c = true ->
  line_out 0 (c :: h) = c :: h ->
  copied (c :: h) = true.
Proof.
  intros W E. unfold line_out in E.
  destruct (copied (c :: h)) eqn:C; [reflexivity|]. exfalso.
  assert (D : dedent 0 (c :: h) = 0%Z).
  { unfold dedent. destruct (Str.eqb _ _); reflexivity. }
  rewrite D in E. change (spaces 0) with (@nil N) in E. cbn [app] in E.
  apply trim_head in E. congruence.
Qed.

Lemma nonempty_nil (s : str) : nonempty s = false -> s = [].
Proof. destruct s; [reflexivity|discriminate]. Qed.

Lemma line_out_ws_snoc i c l :
  is_ws c = true ->
  line_out i (l ++ [c]) = l ++ [c] ->
  copied (l ++ [c]) = true.
Proof.
  intros W E. unfold line_out in E.
  destruct (copied (l ++ [c])) eqn:C; [reflexivity|]. exfalso.
  unfold copied in C. apply orb_false_iff in C as [C _].
  apply negb_false_iff in C.
  destruct (trim (l ++ [c])) as [|x t] eqn:T; [discriminate|].
  assert (exists r y, x :: t = r ++ [y]) as (r & y & R).
  { destruct (exists_last (l := x :: t)) as (r & y & R); [discriminate|].
    now exists r, y. }
  rewrite R in E, T. rewrite app_assoc in E.
  apply app_inj_tail in E as [_ E]. subst y.
  apply trim_last in T. congruence.
Qed.

Lemma line_out_copied i line : copied line = true -> line_out i line = line.
Proof. unfold line_out. now intros ->. Qed.

Lemma line_indent_copied i line : copied line = true -> line_indent i line = i.
Proof. unfold line_indent. now intros ->. Qed.

Lemma laid_out_ws_cons c s :
  is_ws c = true ->
  laid_out 0 (split nl (c :: s)) -> laid_out 0 (split nl s).
Proof.
  intros W. cbn [split]. destruct (split_cons nl s) as (h & t & E). rewrite E.
  destruct (N.eqb c nl).
  - cbn [laid_out]. intros [_ H].
    now rewrite (line_indent_copied _ _ copied_nil) in H.
  - cbn [laid_out]. intros [O H].
    pose proof (line_out_ws_cons _ _ W O) as C.
    assert (T : trim (c :: h) = trim h) by now apply trim_ws_cons.
    rewrite (line_indent_trim _ _ _ T) in H. split; [|exact H].
    apply line_out_copied. now rewrite <- (copied_trim _ _ T).
Qed.

Lemma laid_out_trimStart s :
  laid_out 0 (split nl s) -> laid_out 0 (split nl (trimStart s)).
Proof.
  induction s as [|x s IH]; [easy|]. cbn [trimStart].
  destruct (is_ws x) eqn:W; [|easy].
  intros H. apply IH. exact (laid_out_ws_cons _ _ W H).
Qed.

Lemma laid_out_last_ws pre l c : forall i,
  is_ws c = true ->
  laid_out i (pre ++ [l ++ [c]]) -> laid_out i (pre ++ [l]).
Proof.
  induction pre as [|p pre IH]; intros i W.
  - cbn [app laid_out]. intros [O _]. split; [|exact I].
    pose proof (line_out_ws_snoc _ _ _ W O) as C.
    apply line_out_copied.
    now rewrite <- (copied_trim _ _ (trim_ws_snoc _ _ W)).
  - cbn [app laid_out]. intros [O H]. split; [exact O|]. now apply IH.
Qed.

Lemma laid_out_ws_snoc c s i :
  is_ws c = true ->
  laid_out i (split nl (s ++ [c])) -> laid_out i (split nl s).
Proof.
  intros W. rewrite split_append.
  assert (S : split nl s = removelast (split nl s) ++ [last (split nl s) []]).
  { apply app_removelast_last. destruct (split_cons nl s) as (h & t & ->).
    discriminate. }
  rewrite S at 3. cbn [split]. destruct (N.eqb c nl).
  - cbn [hd tl]. rewrite app_nil_r.
    change (removelast (split nl s) ++ [last (split nl s) []; []])
      with (removelast (split nl s) ++ [last (split nl s) []] ++ [[]]).
    rewrite app_assoc. now rewrite laid_out_snoc_nil.
  - cbn [hd tl]. now apply laid_out_last_ws.
Qed.

Lemma laid_out_trimEnd s i :
  laid_out i (split nl s) -> laid_out i (split nl (trimEnd s)).
Proof.
  induction s as [|c s IH] using rev_ind; [easy|].
  rewrite trimEnd_snoc. destruct (is_ws c) eqn:W; [|easy].
  intros H. apply IH. exact (laid_out_ws_snoc _ _ _ W H).
Qed.

Lemma split_written outs : forall pre,
  Forall (fun o => ~ In nl o) outs ->
  ~ In nl pre ->
  split nl (pre ++ concat (map (fun o => o ++ [nl]) outs))
  = match outs with
    | [] => [pre]
    | o :: rest => (pre ++ o) :: rest ++ [[]]
    end.
Proof.
  induction outs as [|o outs IH]; intros pre HF Hp.
  - cbn [map concat]. rewrite app_nil_r. now apply split_free.
  - inversion HF as [|? ? Ho HF']; subst. cbn [map concat].
    rewrite <- app_assoc. cbn [app]. rewrite app_assoc.
    rewrite split_app.
    + f_equal. specialize (IH [] HF' (fun H => H)). cbn [app] in IH.
      rewrite IH. destruct outs; reflexivity.
    + intros H. apply in_app_iff in H as [H|H]; contradiction.
Qed.

Lemma concat_split s :
  concat (map (fun o => o ++ [nl]) (split nl s)) = s ++ [nl].
Proof.
  induction s as [|x s IH]; [reflexivity|]. cbn [split].
  destruct (split_cons nl s) as (h & t & E). rewrite E in *.
  cbn [map concat] in IH.
  destruct (N.eqb x nl) eqn:N.
  - apply N.eqb_eq in N. subst x. cbn [map concat app]. now rewrite IH.
  - cbn [map concat app]. rewrite <- app_assoc in *. cbn [app] in *.
    now rewrite IH.
Qed.

Lemma line_out_free i line : ~ In nl line -> ~ In nl (line_out i line).
Proof.
  intros Hl. unfold line_out. destruct (copied line); [exact Hl|].
  intros H. apply in_app_iff in H as [H|H].
  - now apply spaces_free in H.
  - apply Hl. now apply trim_incl.
Qed.

Lemma lines_out_free lines : forall i,
  Forall (fun l => ~ In nl l) lines ->
  Forall (fun o => ~ In nl o) (lines_out i lines).
Proof.
  induction lines as [|l lines IH]; intros i H; [constructor|].
  inversion H; subst. cbn [lines_out]. constructor; [now apply line_out_free|].
  now apply IH.
Qed.

(** The text formatAPL returns is written back as it is. *)
Lemma formatAPL_laid_out aplCode : laid_out 0 (split nl (formatAPL aplCode)).
Proof.
  rewrite formatAPL_eq. unfold trim.
  apply laid_out_trimEnd, laid_out_trimStart.
  pose proof (split_written (lines_out 0 (split nl aplCode)) []
                (lines_out_free _ 0 (split_pieces_free nl aplCode))
                (fun H => H)) as S.
  cbn [app] in S. rewrite S.
  destruct (lines_out 0 (split nl aplCode)) as [|o rest] eqn:E.
  - destruct (split_cons nl aplCode) as (h & t & Hs). rewrite Hs in E.
    discriminate.
  - change (o :: rest ++ [[]]) with ((o :: rest) ++ [[]]).
    rewrite laid_out_snoc_nil, <- E. apply laid_out_lines_out.
Qed.

(** Extra X9.  formatAPL is idempotent: formatting a formatted
    document gives it back unchanged. *)
Theorem formatAPL_idempotent aplCode :
  formatAPL (formatAPL aplCode) = formatAPL aplCode.
Proof.
  rewrite (formatAPL_eq (formatAPL aplCode)).
  rewrite (lines_out_laid_out _ _ (formatAPL_laid_out aplCode)).
  rewrite concat_split, (trim_ws_snoc nl _ eq_refl).
  unfold formatAPL. apply trim_idempotent.
Qed.

(* ================================================================== *)
(** ** getSuggestions *)
(* ================================================================== *)

Lemma slice0_prefix a b : slice0 (Z.of_nat (List.length a)) (a ++ b) = a.
Proof.
  unfold slice0. destruct (Z.ltb_spec (Z.of_nat (List.length a)) 0); [lia|].
  rewrite length_app, Z.min_l by lia. rewrite Nat2Z.id.
  rewrite firstn_app, Nat.sub_diag, firstn_all. cbn [firstn]. apply app_nil_r.
Qed.

Lemma last_line prev cur :
  ~ In nl cur -> last (split nl (prev ++ nl :: cur)) [] = cur.
Proof.
  intros H. rewrite split_append. cbn [split]. rewrite N.eqb_refl.
  rewrite (split_free _ _ H). cbn [hd tl].
  change (removelast (split nl prev) ++ [last (split nl prev) [] ++ []; cur])
    with (removelast (split nl prev) ++ [last (split nl prev) [] ++ []] ++ [cur]).
  rewrite app_assoc. apply last_last.
Qed.

(** Extra X10.  getSuggestions looks only at the text between the last
    line break before the cursor and the cursor: the lines before and
    the text after the cursor do not change its answer. *)
Theorem getSuggestions_local prev cur after :
  ~ In nl cur ->
  getSuggestions (prev ++ nl :: cur ++ after)
                 (Z.of_nat (List.length (prev ++ nl :: cur)))
  = getSuggestions cur (Z.of_nat (List.length cur)) /\
  getSuggestions (cur ++ after) (Z.of_nat (List.length cur))
  = getSuggestions cur (Z.of_nat (List.length cur)).
Proof.
  intros H. unfold getSuggestions. cbv zeta.
  replace (prev ++ nl :: cur ++ after) with ((prev ++ nl :: cur) ++ after)
    by (rewrite <- app_assoc; reflexivity).
  rewrite !slice0_prefix.
  pose proof (slice0_prefix cur []) as E. rewrite app_nil_r in E. rewrite E.
  rewrite (last_line prev cur H), (split_free _ _ H). cbn [last].
  split; reflexivity.
Qed.

Lemma getSuggestions_local_witness :
  getSuggestions (lit "@character Echo" ++ nl :: lit "@arch" ++ lit "etype Creator")
                 21
  = [lit "@archetype"].
Proof.
  destruct (getSuggestions_local (lit "@character Echo") (lit "@arch")
                                 (lit "etype Creator")) as [H _].
  - vm_compute. intuition discriminate.
  - change 21%Z
      with (Z.of_nat (List.length (lit "@character Echo" ++ nl :: lit "@arch"))).
    rewrite H. reflexivity.
Defined.

(** Extra X11.  On a line that starts with [@], the suggestions are
    exactly the ten directive names, written with [@], that extend what
    is typed on the line up to the cursor. *)
Theorem directive_suggestions partialAPL cursorPosition s :
  let currentLine := last (split nl (slice0 cursorPosition partialAPL)) [] in
  startsWith (lit "@") currentLine = true ->
  (In s (getSuggestions partialAPL cursorPosition)
   <-> (exists d, In d directives /\ s = lit "@" ++ d)
       /\ startsWith currentLine s = true).
Proof.
  cbv zeta. intros A.
  destruct (getSuggestions_branches partialAPL cursorPosition) as (B & _).
  cbv zeta in B. rewrite (B A). clear B.
  destruct (last (split nl (slice0 cursorPosition partialAPL)) []) as [|c partial];
    [discriminate|].
  change (lit "@") with [64%N] in *. cbn [startsWith] in A.
  apply andb_true_iff in A as [A _]. apply N.eqb_eq in A. subst c.
  cbn [slice1 tl]. rewrite in_map_iff. split.
  - intros (d & <- & Hd). apply filter_In in Hd as [Hd P]. split.
    + now exists d.
    + cbn [app startsWith]. now rewrite N.eqb_refl.
  - intros [(d & Hd & ->) P]. exists d. split; [reflexivity|].
    apply filter_In. split; [exact Hd|].
    cbn [app startsWith] in P. now rewrite N.eqb_refl in P.
Qed.

Lemma directive_suggestions_witness :
  In (lit "@memory") (getSuggestions (lit "@me") 3).
Proof.
  apply (directive_suggestions (lit "@me") 3 (lit "@memory")).
  - vm_compute. reflexivity.
  - split.
    + exists (lit "memory"). split; [|reflexivity].
      vm_compute. do 5 right. left. reflexivity.
    + vm_compute. reflexivity.
Defined.

(* ================================================================== *)
(** ** Lines and their values *)
(* ================================================================== *)

(** Extra X12.  A property line is cut at its first colon: the text
    before it, trimmed, is the key, and all the text after it, colons
    included, trimmed, is the value. *)
Theorem property_line_cut key text st :
  ~ In 58%N key ->
  property_step (key ++ 58%N :: text) st
  = {| character := character st;
       currentSection := currentSection st;
       currentObject := set_own (trim key) (property_value (trim text))
                                (currentObject st) |}.
Proof.
  intros H. unfold property_step. rewrite (split_app _ _ text H).
  change (lit ":") with [58%N]. now rewrite join_split.
Qed.

Lemma property_line_cut_witness :
  currentObject (property_step (lit "started: 10:30") initial)
  = set_own (lit "started") (VStr (lit "10:30")) empty_object.
Proof.
  change (lit "started: 10:30") with (lit "started" ++ 58%N :: lit " 10:30").
  rewrite (property_line_cut (lit "started") (lit " 10:30") initial).
  - reflexivity.
  - vm_compute. intuition discriminate.
Defined.



(** Extra X13.  The line characterToAPL writes for the name, the
    directive character and the name in double quotes, is read back as
    the name, trimmed, spaces inside it included. *)
Theorem character_line_read_back n st :
  directive_step (lit "@character " ++ quoted n) st
  = with_character (put f_name (Val (VStr (trim n)))) st.
Proof.
  unfold directive_step.
  change (slice1 (lit "@character " ++ quoted n))
    with (lit "character" ++ sp :: quoted n).
  rewrite split_app by (vm_compute; intuition discriminate).
  change (lit " ") with [sp]. rewrite join_split, parseValue_quoted.
  reflexivity.
Qed.



(* ================================================================== *)
(** ** Sections *)
(* ================================================================== *)

Lemma opening_step line st :
  opens_section line = true ->
  step st line = {| character := character st;
                    currentSection := Some (directive_name line);
                    currentObject := empty_object |}.
Proof.
  intros O. unfold step. fold (is_directive line).
  rewrite (opens_section_directive line O), directive_step_unfold. cbv zeta.
  unfold opens_section in O.
  apply andb_true_iff in O as [O I]. apply andb_true_iff in O as [_ O].
  apply negb_true_iff in O. unfold scalar_directives in O.
  cbn [map existsb] in O.
  apply orb_false_iff in O as [O1 O]. apply orb_false_iff in O as [O2 O].
  apply orb_false_iff in O as [O3 O]. apply orb_false_iff in O as [O4 _].
  rewrite O1, O2, O3, O4, I. reflexivity.
Qed.

(** Outside a section, only directive lines act. *)
Lemma run_at_root junk : forall st,
  section_open st = None ->
  Forall (fun l => is_directive l = false) junk ->
  run st junk = st.
Proof.
  induction junk as [|l junk IH]; intros st S HF; [reflexivity|].
  inversion HF as [|? ? Hl HF']; subst. rewrite run_cons.
  assert (E : step st l = st).
  { unfold step. fold (is_directive l). rewrite Hl, S.
    destruct (Str.eqb l (lit "}")); reflexivity. }
  rewrite E. now apply IH.
Qed.

(** After a line with a closing brace alone, no section is open. *)
Lemma closed_after_brace st : section_open (step st (lit "}")) = None.
Proof.
  unfold step. change (startsWith (lit "@") (lit "}")) with false.
  change (Str.eqb (lit "}") (lit "}")) with true. cbv iota.
  destruct (section_open st) eqn:S; [reflexivity|exact S].
Qed.

(** Extra X15.  Lines that are not directives are ignored outside a
    section: before the first directive of a document, and between the
    closing brace of a section and the next directive. *)
Theorem stray_lines_ignored junk lines1 lines2 :
  Forall (fun l => is_directive l = false) junk ->
  parse_lines (junk ++ lines2) = parse_lines lines2 /\
  parse_lines (lines1 ++ lit "}" :: junk ++ lines2)
  = parse_lines (lines1 ++ lit "}" :: lines2).
Proof.
  intros HF. unfold parse_lines. split.
  - now rewrite run_app, (run_at_root junk initial initial_section HF).
  - rewrite !run_app, !run_cons, run_app.
    now rewrite (run_at_root junk _ (closed_after_brace _) HF).
Qed.

Lemma stray_lines_ignored_witness :
  parse_lines ([lit "name: Echo"; lit "}"] ++ [lit "@element Water"])
  = parse_lines [lit "@element Water"].
Proof.
  apply (stray_lines_ignored [lit "name: Echo"; lit "}"] [] [lit "@element Water"]).
  repeat constructor.
Defined.

(** The state after a section is interrupted by the opening line of
    another one. *)
Lemma interrupted_state st a body b :
  opens_section a = true ->
  opens_section b = true ->
  Forall (fun l => closing l = false) body ->
  step (run (step st a) body) b
  = step (run st (filter is_directive body)) b.
Proof.
  intros Oa Ob HF. rewrite !(opening_step b _ Ob). f_equal.
  apply run_no_close; [|exact HF]. now apply opening_step_character.
Qed.

(** Extra X16.  A section that is still open when the opening line of
    another section comes is dropped: the parser builds the same object
    as for the document without the first opening line and the property
    lines after it; directive lines in between still act. *)
Theorem interrupted_section_dropped lines1 a body b lines2 :
  opens_section a = true ->
  opens_section b = true ->
  Forall (fun l => closing l = false) body ->
  parse_lines (lines1 ++ a :: body ++ b :: lines2)
  = parse_lines (lines1 ++ filter is_directive body ++ b :: lines2).
Proof.
  intros Oa Ob HF. unfold parse_lines.
  rewrite !run_app, !run_cons, !run_app, !run_cons.
  now rewrite (interrupted_state _ a body b Oa Ob HF).
Qed.

Lemma interrupted_section_dropped_witness :
  parse_lines ([] ++ lit "@personality {" :: [lit "voice: calm"]
                  ++ lit "@memory {" :: [lit "}"])
  = parse_lines ([] ++ [] ++ lit "@memory {" :: [lit "}"]).
Proof.
  apply (interrupted_section_dropped [] (lit "@personality {")
           [lit "voice: calm"] (lit "@memory {") [lit "}"]).
  - vm_compute. reflexivity.
  - vm_compute. reflexivity.
  - repeat constructor.
Defined.

(** Extra X17.  Sections do not nest.  When a section is opened inside
    another one and both are closed, the parser stores the inner
    section only, at the top level, with the lines between its braces;
    the lines of the outer section, before and after the inner one, are
    lost. *)
Theorem sections_do_not_nest lines1 outer body1 inner body2 body3 lines2 :
  opens_section outer = true ->
  opens_section inner = true ->
  Forall (fun l => plain l = true) body1 ->
  Forall (fun l => plain l = true) body3 ->
  parse_lines (lines1 ++ outer :: body1 ++ inner :: body2
                  ++ lit "}" :: body3 ++ lit "}" :: lines2)
  = parse_lines (lines1 ++ inner :: body2 ++ lit "}" :: lines2).
Proof.
  intros Oo Oi H1 H3.
  assert (C1 : Forall (fun l => closing l = false) body1).
  { eapply Forall_impl; [|exact H1]. intros l P. unfold plain in P.
    apply andb_true_iff in P as [_ P]. now apply negb_true_iff in P. }
  assert (D1 : filter is_directive body1 = []).
  { clear -H1. induction H1 as [|l body P _ IH]; [reflexivity|].
    cbn [filter]. unfold plain in P. apply andb_true_iff in P as [P _].
    apply negb_true_iff in P. now rewrite P. }
  assert (D3 : Forall (fun l => is_directive l = false) (body3 ++ [lit "}"])).
  { apply Forall_app. split.
    - eapply Forall_impl; [|exact H3]. intros l P. unfold plain in P.
      apply andb_true_iff in P as [P _]. now apply negb_true_iff in P.
    - repeat constructor. }
  unfold parse_lines.
  rewrite run_app, run_cons, run_app, run_cons.
  rewrite (interrupted_state _ outer body1 inner Oo Oi C1), D1.
  change (run (run initial lines1) []) with (run initial lines1).
  rewrite (run_app _ lines1), (run_cons _ inner).
  rewrite !(run_app _ body2), !run_cons.
  replace (body3 ++ lit "}" :: lines2) with ((body3 ++ [lit "}"]) ++ lines2)
    by (rewrite <- app_assoc; reflexivity).
  rewrite run_app.
  now rewrite (run_at_root _ _ (closed_after_brace _) D3).
Qed.

Lemma sections_do_not_nest_witness :
  parse_lines nested_sections = parse_lines inner_section_only.
Proof.
  apply (sections_do_not_nest [] (lit "@personality {") [lit "voice: calm"]
           (lit "@memory {") [lit "growth_pattern: slow"]
           [lit "emotional_range: wide"] [lit "@element Water"]).
  - vm_compute. reflexivity.
  - vm_compute. reflexivity.
  - repeat constructor.
  - repeat constructor.
Defined.

(* ================================================================== *)
(** ** The prompt generators *)
(* ================================================================== *)

Lemma bind_ok (A B : Type) (x : outcome A) (f : A -> outcome B) b :
  bind x f = Ok b -> exists a, x = Ok a /\ f a = Ok b.
Proof. destruct x as [a| |]; cbn; try discriminate. eauto. Qed.

Lemma bind_in_model (A B : Type) (x : outcome A) (f : A -> outcome B) :
  x <> OutOfModel ->
  (forall a, x = Ok a -> f a <> OutOfModel) ->
  bind x f <> OutOfModel.
Proof. destruct x as [a| |]; cbn; try easy. intros _ H. now apply H. Qed.

Lemma nested_to_primitive_in_model n : nested_to_primitive n <> OutOfModel.
Proof. unfold nested_to_primitive. destruct (has_key _ _); discriminate. Qed.

Lemma value_to_string_in_model v : value_to_string v <> OutOfModel.
Proof. destruct v; cbn; try discriminate. apply nested_to_primitive_in_model. Qed.

Lemma text_of_in_model v : text_of v <> OutOfModel.
Proof. destruct v; [apply value_to_string_in_model|discriminate]. Qed.

Lemma member_in_model f k : member f k <> OutOfModel.
Proof. destruct f as [[[]|]|]; discriminate. Qed.

Lemma joined_in_model sep v : joined sep v <> OutOfModel.
Proof. destruct v as [[]|]; discriminate. Qed.

Lemma first3_joined_in_model sep v : first3_joined sep v <> OutOfModel.
Proof. destruct v as [[]|]; discriminate. Qed.

Lemma powers_text_in_model a : powers_text a <> OutOfModel.
Proof. destruct a as [[]|]; discriminate. Qed.

Lemma entries_in_model f : entries f <> OutOfModel.
Proof. destruct f as [[[]|]|]; discriminate. Qed.

Lemma field_to_string_in_model f :
  scalar f = true -> field_to_string f <> OutOfModel.
Proof.
  destruct f as [[v|]|]; cbn; try discriminate.
  intros _. apply value_to_string_in_model.
Qed.

Lemma toNumber_in_model f : scalar f = true -> toNumber f <> OutOfModel.
Proof.
  destruct f as [[v|]|]; cbn [scalar]; try discriminate.
  intros _. apply toNumber_value.
Qed.

Lemma toPropertyKey_in_model f : scalar f = true -> toPropertyKey f <> OutOfModel.
Proof.
  destruct f as [[v|]|]; cbn [scalar]; try discriminate.
  intros _. apply toPropertyKey_value.
Qed.

Lemma map_each_in_model (A B : Type) (f : A -> outcome B) l :
  (forall x, f x <> OutOfModel) -> map_each f l <> OutOfModel.
Proof.
  intros H. induction l as [|x l IH]; cbn [map_each]; [discriminate|].
  apply bind_in_model; [apply H|]. intros y _.
  apply bind_in_model; [exact IH|]. discriminate.
Qed.

Ltac in_model_step :=
  first
    [ apply member_in_model | apply joined_in_model | apply text_of_in_model
    | apply first3_joined_in_model | apply powers_text_in_model
    | apply entries_in_model | apply value_to_string_in_model
    | (apply field_to_string_in_model; assumption)
    | (apply toNumber_in_model; assumption)
    | (apply toPropertyKey_in_model; assumption)
    | (apply map_each_in_model; intros ?)
    | assumption
    | discriminate
    | (apply bind_in_model; [|intros ? _])
    | match goal with
      | |- (if ?b then _ else _) <> OutOfModel => destruct b
      end ].

(** With scalar properties that are not section objects, the system
    prompt returns or throws. *)
Lemma generateSystemPrompt_in_model percent c :
  in_prompt_model c -> generateSystemPrompt percent c <> OutOfModel.
Proof.
  intros (Hn & Ha & He & Hl & Hc). unfold generateSystemPrompt. cbv zeta.
  repeat in_model_step.
Qed.

Lemma character_block_in_model percent c :
  in_prompt_model c -> character_block percent c <> OutOfModel.
Proof.
  intros (Hn & Ha & He & Hl & Hc). unfold character_block.
  repeat in_model_step.
Qed.

Lemma joined_ok sep v t : joined sep v = Ok t -> exists l, v = Some (VArr l).
Proof. destruct v as [[]|]; try discriminate. eauto. Qed.

Lemma first3_joined_of_joined sep v t :
  joined sep v = Ok t -> exists t', first3_joined sep v = Ok t'.
Proof. destruct v as [[]|]; try discriminate. cbn. eauto. Qed.

Lemma member_ok f k v : member f k = Ok v -> is_undefined f = false.
Proof. destruct f as [[[]|]|]; try discriminate; reflexivity. Qed.

Lemma entries_ok f es : entries f = Ok es -> is_undefined f = false.
Proof. destruct f as [[[]|]|]; try discriminate; reflexivity. Qed.

Lemma powers_text_ok key t :
  powers_text (registry_get key) = Ok t ->
  exists a, lookup key ARCHETYPE_DEFINITIONS = Some a.
Proof.
  unfold registry_get. destruct (lookup key ARCHETYPE_DEFINITIONS) as [a|].
  - eauto.
  - destruct (existsb _ _); discriminate.
Qed.

Lemma custom_text_ok f t :
  custom_text f = Ok t -> exists l, f = Some (Val (VArr l)).
Proof.
  destruct f as [[[]|o]|]; try discriminate; [eauto|].
  cbn. destruct (lookup _ _); [discriminate|]. destruct (proto o); discriminate.
Qed.

(** What a character must have for the system prompt to return. *)
Lemma generateSystemPrompt_ok percent c p :
  generateSystemPrompt percent c = Ok p -> renderable c.
Proof.
  unfold generateSystemPrompt. cbv zeta. intros H.
  apply bind_ok in H as (key & Ek & H).
  apply bind_ok in H as (name & En & H).
  apply bind_ok in H as (an & Ean & H).
  apply bind_ok in H as (el & Eel & H).
  apply bind_ok in H as (pw & Ep & H).
  apply bind_ok in H as (lv & El & H).
  apply bind_ok in H as (tr & Et & H).
  apply bind_ok in H as (vo & Ev & H).
  apply bind_ok in H as (dm & Ed & H).
  apply bind_ok in H as (er & Eer & H).
  apply bind_ok in H as (cv & Ecv & H).
  apply bind_ok in H as (ce & Ece & H).
  apply bind_ok in H as (rt & Ert & H).
  apply bind_ok in H as (gp & Egp & H).
  apply bind_ok in H as (gr & Egr & H).
  apply bind_ok in H as (qr & Eqr & H).
  apply bind_ok in H as (fw & Efw & H).
  apply bind_ok in H as (ab & Eab & H).
  apply bind_ok in H as (vb & Evb & H).
  apply bind_ok in H as (db & Edb & H).
  apply bind_ok in H as (cb & Ecb & _).
  unfold renderable. repeat split.
  - exists key. destruct (powers_text_ok _ _ Ep) as (a & Ha). now exists a.
  - apply bind_ok in Et as (v & Em & Ej).
    destruct (joined_ok _ _ _ Ej) as (l & ->). now exists l.
  - apply bind_ok in Ed as (v & Em & Ej).
    destruct (joined_ok _ _ _ Ej) as (l & ->). now exists l.
  - apply bind_ok in Ece as (v & Em & _). exact (member_ok _ _ _ Em).
  - apply bind_ok in Egr as (v & Em & _). exact (member_ok _ _ _ Em).
  - apply bind_ok in Eab as (es & Ee & _). exact (entries_ok _ _ Ee).
  - intros T. rewrite T in Ecb. apply bind_ok in Ecb as (t & Ec & _).
    exact (custom_text_ok _ _ Ec).
Qed.

(** Extra X18.  For a character whose name, archetype, element and
    consciousness_level are not section objects, and whose
    custom_directives is not a section object that has an array as
    prototype and no own property map (the case in which the inherited
    Array.prototype.map is callable, which [custom_text] leaves out of
    the model), generateSystemPrompt either throws a TypeError or
    returns, and it returns only if the archetype is one of the six
    names of the table, traits and knowledge_domains of the personality
    are arrays, memory, conversation_patterns and mystical_abilities
    are defined, and custom_directives, if truthy, is an array. *)
Theorem generateSystemPrompt_throws_unless percent c :
  in_prompt_model c ->
  generateSystemPrompt percent c = TypeError \/
  (returns (generateSystemPrompt percent c) = true /\ renderable c).
Proof.
  intros M. pose proof (generateSystemPrompt_in_model percent c M) as N.
  destruct (generateSystemPrompt percent c) as [p| |] eqn:E.
  - right. split; [reflexivity|]. exact (generateSystemPrompt_ok percent c p E).
  - now left.
  - contradiction.
Qed.

Lemma generateSystemPrompt_throws_unless_witness :
  generateSystemPrompt (fun _ => []) (model_of echo_source) = TypeError \/
  (returns (generateSystemPrompt (fun _ => []) (model_of echo_source)) = true
   /\ renderable (model_of echo_source)).
Proof.
  apply (generateSystemPrompt_throws_unless (fun _ => []) (model_of echo_source)).
  vm_compute. repeat split; discriminate.
Defined.

(* ================================================================== *)
(** ** What validateAndComplete leaves alone *)
(* ================================================================== *)

Lemma default_to_keeps k k' f c :
  Str.eqb k k' = false \/ truthy (get c k) = true ->
  get (default_to k' f c) k = get c k.
Proof.
  intros H. rewrite get_default_to. destruct (Str.eqb k k') eqn:E; [|reflexivity].
  apply eqb_eq in E. subst k'. destruct H as [H|H]; [discriminate|].
  now rewrite H.
Qed.

Lemma not_defaulted k :
  ~ In k defaulted_fields ->
  Str.eqb k f_name = false /\ Str.eqb k f_archetype = false /\
  Str.eqb k f_element = false /\ Str.eqb k f_personality = false /\
  Str.eqb k f_memory = false /\ Str.eqb k f_conversation_patterns = false /\
  Str.eqb k f_mystical_abilities = false.
Proof.
  intros H. unfold defaulted_fields in H. cbn [In] in H.
  repeat split; apply eqb_neq; intros ->; apply H; tauto.
Qed.

(** validateAndComplete changes no property that is truthy, apart from
    the consciousness_level it clamps, and no property outside the
    seven it defaults. *)
Lemma validateAndComplete_keeps c0 c k :
  validateAndComplete c0 = Ok c ->
  k <> f_consciousness_level ->
  truthy (get c0 k) = true \/ ~ In k defaulted_fields ->
  get c k = get c0 k.
Proof.
  intros H Hk Hor. apply eqb_neq in Hk.
  assert (D : forall k' c', In k' defaulted_fields -> get c' k = get c0 k ->
                            Str.eqb k k' = false \/ truthy (get c' k) = true).
  { intros k' c' Hin G. destruct Hor as [T|N].
    - right. now rewrite G.
    - left. apply eqb_neq. intros ->. contradiction. }
  unfold validateAndComplete in H.
  set (c1 := default_to f_name _ c0) in H.
  set (c2 := default_to f_archetype _ c1) in H.
  set (c3 := default_to f_element _ c2) in H.
  set (c4 := if is_undefined (get c3 f_consciousness_level) then _ else c3) in H.
  assert (G1 : get c1 k = get c0 k).
  { unfold c1. apply default_to_keeps. apply D; [|reflexivity].
    unfold defaulted_fields. cbn [In]. tauto. }
  assert (G2 : get c2 k = get c0 k).
  { rewrite <- G1. unfold c2. apply default_to_keeps. apply D; [|exact G1].
    unfold defaulted_fields. cbn [In]. tauto. }
  assert (G3 : get c3 k = get c0 k).
  { rewrite <- G2. unfold c3. apply default_to_keeps. apply D; [|exact G2].
    unfold defaulted_fields. cbn [In]. tauto. }
  assert (G4 : get c4 k = get c0 k).
  { rewrite <- G3. unfold c4.
    destruct (is_undefined (get c3 f_consciousness_level)); [|reflexivity].
    now rewrite get_put, Hk. }
  destruct (toNumber (get c4 f_consciousness_level)) as [x| |];
    cbn [bind] in H; try discriminate.
  set (c5 := put f_consciousness_level _ c4) in H.
  assert (G5 : get c5 k = get c0 k).
  { rewrite <- G4. unfold c5. now rewrite get_put, Hk. }
  assert (Tail : forall c6, get c6 k = get c0 k ->
            get (default_to f_mystical_abilities (Sec default_mystical_abilities)
                   (default_to f_conversation_patterns
                      (Sec default_conversation_patterns)
                      (default_to f_memory (Sec default_memory) c6))) k
            = get c0 k).
  { intros c6 G6.
    assert (G7 : get (default_to f_memory (Sec default_memory) c6) k = get c0 k).
    { rewrite <- G6. apply default_to_keeps. apply D; [|exact G6].
      unfold defaulted_fields. cbn [In]. tauto. }
    assert (G8 : get (default_to f_conversation_patterns
                        (Sec default_conversation_patterns)
                        (default_to f_memory (Sec default_memory) c6)) k
                 = get c0 k).
    { rewrite <- G7. apply default_to_keeps. apply D; [|exact G7].
      unfold defaulted_fields. cbn [In]. tauto. }
    rewrite <- G8. apply default_to_keeps. apply D; [|exact G8].
    unfold defaulted_fields. cbn [In]. tauto. }
  destruct (truthy (get c5 f_personality)) eqn:P; cbn [bind] in H.
  - injection H as <-. now apply Tail.
  - destruct (toPropertyKey _) as [key| |]; cbn [bind] in H; try discriminate.
    destruct (registry_get key) as [entry|]; try discriminate.
    injection H as <-. apply Tail. rewrite <- G5.
    rewrite get_put. destruct (Str.eqb k f_personality) eqn:E; [|reflexivity].
    apply eqb_eq in E. subst k. exfalso.
    destruct (D f_personality c5) as [F|F]; [|exact G5| |].
    + unfold defaulted_fields. cbn [In]. tauto.
    + now rewrite eqb_refl in F.
    + congruence.
Qed.

(** Extra X19.  parseAPL returns every property the loop stored with a
    truthy value as it was stored, apart from the consciousness_level
    it clamps, and every property other than the seven it defaults,
    voice_profile and properties of other names included. *)
Theorem parseAPL_keeps_stored aplCode c k :
  parseAPL aplCode = Ok c ->
  k <> f_consciousness_level ->
  truthy (get (parse_lines (lines_of aplCode)) k) = true
  \/ ~ In k defaulted_fields ->
  get c k = get (parse_lines (lines_of aplCode)) k.
Proof. unfold parseAPL. apply validateAndComplete_keeps. Qed.

Lemma parseAPL_keeps_stored_witness :
  get (model_of echo_source) f_personality
  = get (parse_lines (lines_of echo_source)) f_personality.
Proof.
  apply (parseAPL_keeps_stored echo_source (model_of echo_source) f_personality).
  - vm_compute. reflexivity.
  - discriminate.
  - left. vm_compute. reflexivity.
Defined.

(* ================================================================== *)
(** ** Parsed models and the system prompt *)
(* ================================================================== *)

(** Extra X20.  A personality section stored by the parser is returned
    as it is, without the defaults; if its traits or its
    knowledge_domains is not an array, generateSystemPrompt throws on
    the model parseAPL returned. *)
Theorem stored_personality_must_be_complete percent aplCode c o :
  parseAPL aplCode = Ok c ->
  get (parse_lines (lines_of aplCode)) f_personality = Some (Sec o) ->
  in_prompt_model c ->
  (forall l, object_get o (lit "traits") <> Some (VArr l)) \/
  (forall l, object_get o (lit "knowledge_domains") <> Some (VArr l)) ->
  get c f_personality = Some (Sec o) /\
  generateSystemPrompt percent c = TypeError.
Proof.
  intros P G M Hno.
  assert (Gc : get c f_personality = Some (Sec o)).
  { rewrite <- G. unfold parseAPL in P.
    apply (validateAndComplete_keeps _ _ _ P); [discriminate|].
    left. now rewrite G. }
  split; [exact Gc|].
  pose proof (generateSystemPrompt_in_model percent c M) as N.
  destruct (generateSystemPrompt percent c) as [p| |] eqn:E;
    [|reflexivity|contradiction].
  exfalso. apply generateSystemPrompt_ok in E.
  destruct E as (_ & (l1 & T) & (l2 & K) & _).
  rewrite Gc in T, K. cbn [member] in T, K.
  injection T as T. injection K as K.
  destruct Hno as [H|H]; [exact (H _ T)|exact (H _ K)].
Qed.

Lemma stored_personality_must_be_complete_witness :
  get (model_of echo_source) f_personality
  = Some (Sec {| own := [(lit "traits", VArr [lit "curious"; lit "kind"])];
                 proto := ObjectPrototype |}) /\
  generateSystemPrompt (fun _ => []) (model_of echo_source) = TypeError.
Proof.
  apply (stored_personality_must_be_complete (fun _ => []) echo_source).
  - vm_compute. reflexivity.
  - vm_compute. reflexivity.
  - vm_compute. repeat split; discriminate.
  - right. intros l. vm_compute. discriminate.
Defined.

Lemma upsert_Forall (V : Type) (P : str * V -> Prop) k v l :
  P (k, v) -> Forall P l -> Forall P (upsert k v l).
Proof.
  intros Hv. induction 1 as [|[k' v'] l Hx Hl IH]; cbn [upsert].
  - now constructor.
  - destruct (Str.eqb k k'); constructor; assumption.
Qed.

Lemma lookup_Forall (V : Type) (P : str * V -> Prop) k v l :
  Forall P l -> lookup k l = Some v -> P (k, v).
Proof.
  induction 1 as [|[k' v'] l Hx _ IH]; cbn [lookup]; [discriminate|].
  destruct (Str.eqb k k') eqn:E; [|exact IH].
  apply eqb_eq in E. subst k'. intros H. now injection H as <-.
Qed.

Lemma put_stored k f c :
  stored (k, f) -> Forall stored (fields c) -> Forall stored (fields (put k f c)).
Proof. intros. unfold put. cbn [fields]. now apply upsert_Forall. Qed.

(** The loop stores strings, numbers and section objects only. *)
Lemma step_stored st line :
  Forall stored (fields (character st)) ->
  Forall stored (fields (character (step st line))).
Proof.
  intros H. unfold step.
  destruct (startsWith (lit "@") line).
  - rewrite directive_step_unfold. cbv zeta.
    repeat match goal with
    | |- context [if ?b then _ else _] => destruct b
    end; rewrite ?character_with; try (apply put_stored; [exact I|exact H]);
      try exact H.
    unfold assign_string. destruct (Str.eqb _ proto_key); [exact H|].
    apply put_stored; [exact I|exact H].
  - destruct (Str.eqb line (lit "}")).
    + destruct (section_open st); [|exact H]. cbn [character].
      unfold assign_section. destruct (Str.eqb _ proto_key); [exact H|].
      apply put_stored; [exact I|exact H].
    + destruct (section_open st); [|exact H].
      destruct (includes (lit ":") line); [|exact H].
      now rewrite property_step_character.
Qed.

Lemma parse_lines_stored lines : Forall stored (fields (parse_lines lines)).
Proof.
  unfold parse_lines, run.
  assert (G : forall st, Forall stored (fields (character st)) ->
                         Forall stored (fields (character (fold_left step lines st)))).
  { induction lines as [|l lines IH]; intros st H; [exact H|].
    cbn [fold_left]. apply IH. now apply step_stored. }
  apply G. constructor.
Qed.

Lemma custom_not_defaulted : ~ In f_custom_directives defaulted_fields.
Proof.
  unfold defaulted_fields. cbn [In].
  intros H. repeat (destruct H as [H|H]; [vm_compute in H; discriminate|]).
  exact H.
Qed.

(** Extra X21.  A custom_directives property that the document itself
    wrote, by a directive line or a section, is a string or a section
    object, never an array: when it is truthy, generateSystemPrompt
    throws on the model parseAPL returned. *)
Theorem written_custom_directives_throw percent aplCode c f :
  parseAPL aplCode = Ok c ->
  lookup f_custom_directives (fields (parse_lines (lines_of aplCode))) = Some f ->
  truthy (Some f) = true ->
  in_prompt_model c ->
  get c f_custom_directives = Some f /\
  generateSystemPrompt percent c = TypeError.
Proof.
  intros P L T M.
  assert (Gc : get c f_custom_directives = Some f).
  { rewrite <- (get_own _ _ _ L). unfold parseAPL in P.
    apply (validateAndComplete_keeps _ _ _ P); [discriminate|].
    right. exact custom_not_defaulted. }
  split; [exact Gc|].
  pose proof (generateSystemPrompt_in_model percent c M) as N.
  destruct (generateSystemPrompt percent c) as [p| |] eqn:E;
    [|reflexivity|contradiction].
  exfalso. apply generateSystemPrompt_ok in E.
  destruct E as (_ & _ & _ & _ & _ & _ & C).
  rewrite Gc in C. destruct (C T) as (l & Hl). injection Hl as ->.
  exact (lookup_Forall _ stored _ _ _ (parse_lines_stored _) L).
Qed.

Lemma written_custom_directives_throw_witness :
  get (model_of (lit "@custom_directives be_kind")) f_custom_directives
  = string_field "be_kind" /\
  generateSystemPrompt (fun _ => []) (model_of (lit "@custom_directives be_kind"))
  = TypeError.
Proof.
  apply (written_custom_directives_throw (fun _ => [])
           (lit "@custom_directives be_kind")).
  - vm_compute. reflexivity.
  - vm_compute. reflexivity.
  - reflexivity.
  - vm_compute. repeat split; discriminate.
Defined.

(** What the block of a character in the interaction prompt needs is
    part of what the system prompt needs. *)
Lemma character_block_of_system percent c p :
  generateSystemPrompt percent c = Ok p ->
  exists b, character_block percent c = Ok b.
Proof.
  unfold generateSystemPrompt. cbv zeta. intros H.
  apply bind_ok in H as (key & Ek & H).
  apply bind_ok in H as (name & En & H).
  apply bind_ok in H as (an & Ean & H).
  apply bind_ok in H as (el & Eel & H).
  apply bind_ok in H as (pw & Ep & H).
  apply bind_ok in H as (lv & El & H).
  apply bind_ok in H as (tr & Et & H).
  do 10 (apply bind_ok in H as (? & _ & H)).
  apply bind_ok in H as (ab & Eab & _).
  apply bind_ok in Et as (v & Em & Ej).
  destruct (first3_joined_of_joined _ _ _ Ej) as (t3 & E3).
  apply bind_ok in Eab as (es & Ee & _).
  unfold character_block. rewrite En, Ean, Eel, Em, El, Ee. cbn [bind].
  rewrite E3. cbn [bind]. eauto.
Qed.

Lemma map_each_ok (A B : Type) (f : A -> outcome B) l :
  Forall (fun x => exists y, f x = Ok y) l -> exists ys, map_each f l = Ok ys.
Proof.
  induction 1 as [|x l (y & Hy) _ (ys & IH)]; cbn [map_each]; [eauto|].
  rewrite Hy, IH. cbn [bind]. eauto.
Qed.

(** Extra X22.  Characters for which generateSystemPrompt returns can
    always be put together: generateInteractionPrompt returns for any
    list of them and any context. *)
Theorem interaction_of_renderable percent characters context :
  Forall (fun c => returns (generateSystemPrompt percent c) = true) characters ->
  returns (generateInteractionPrompt percent characters context) = true.
Proof.
  intros H. unfold generateInteractionPrompt.
  assert (B : Forall (fun c => exists b, character_block percent c = Ok b)
                     characters).
  { eapply Forall_impl; [|exact H]. intros c R. cbv beta in R.
    destruct (generateSystemPrompt percent c) as [p| |] eqn:G; try discriminate.
    exact (character_block_of_system percent c p G). }
  destruct (map_each_ok _ _ (character_block percent) characters B) as (bs & E).
  rewrite E. reflexivity.
Qed.

Lemma interaction_of_renderable_witness :
  returns (generateInteractionPrompt (fun _ => [])
             [model_of WISE_MENTOR; model_of TECH_WIZARD] (lit "a meeting"))
  = true.
Proof.
  apply (interaction_of_renderable (fun _ => [])
           [model_of WISE_MENTOR; model_of TECH_WIZARD] (lit "a meeting")).
  constructor; [vm_compute; reflexivity|].
  constructor; [vm_compute; reflexivity|].
  constructor.
Defined.

Lemma getTemplate_cases name :
  getTemplate name = WISE_MENTOR \/ getTemplate name = CREATIVE_MUSE
  \/ getTemplate name = TECH_WIZARD.
Proof.
  unfold getTemplate.
  destruct (Str.eqb name (lit "wise_mentor")); [tauto|].
  destruct (Str.eqb name (lit "creative_muse")); [tauto|].
  destruct (Str.eqb name (lit "tech_wizard")); tauto.
Qed.

(** Extra X23.  Whatever name it is asked for, getTemplate returns a
    document that validateSyntax accepts and parseAPL parses, into a
    model for which generateSystemPrompt returns. *)
Theorem templates_are_usable percent name :
  valid (validateSyntax (getTemplate name)) = true /\
  parseAPL (getTemplate name) = Ok (model_of (getTemplate name)) /\
  returns (generateSystemPrompt percent (model_of (getTemplate name))) = true.
Proof.
  destruct (getTemplate_cases name) as [E|[E|E]]; rewrite E;
    (split; [|split]); vm_compute; reflexivity.
Qed.

(* ================================================================== *)
(** ** What parseAPL returns of what the document wrote *)
(* ================================================================== *)

Lemma section_name_not_level opening :
  opens_section opening = true -> directive_name opening <> f_consciousness_level.
Proof.
  intros O. apply (opens_section_not_scalar opening _ O).
  unfold scalar_directives. cbn [map In]. tauto.
Qed.



(** Extra X25.  Take the last closed section of a name that is not
    empty and not [__proto__], with only property lines between its
    braces.  Inside the section object parseAPL returns for it, a key
    other than [__proto__] holds the typed value of the last property
    line of the section with that key.  (The key [__proto__] is not
    stored like the others: see claim C10.) *)
Theorem parseAPL_returns_last_property aplCode c lines1 opening b1 line b2 lines2 :
  parseAPL aplCode = Ok c ->
  lines_of aplCode = lines1 ++ opening :: (b1 ++ line :: b2) ++ lit "}" :: lines2 ->
  opens_section opening = true ->
  nonempty (directive_name opening) = true ->
  directive_name opening <> proto_key ->
  Forall (fun l => plain l = true) (b1 ++ line :: b2) ->
  Forall (fun l => writes (directive_name opening) l = false) lines2 ->
  includes (lit ":") line = true ->
  property_key line <> proto_key ->
  Forall (fun l => includes (lit ":") l = true
                   -> property_key l <> property_key line) b2 ->
  section_get c (directive_name opening) (property_key line)
  = Some (property_value (property_text line)).
Proof.
  intros P E O N K HB HF I Kp H2. unfold parseAPL in P. rewrite E in P.
  pose proof (last_closed_section_decides (directive_name opening) lines1 opening
                (b1 ++ line :: b2) lines2 O eq_refl N K HB HF) as L.
  apply get_own in L.
  assert (G : get c (directive_name opening)
              = Some (Sec (accumulate empty_object (b1 ++ line :: b2)))).
  { rewrite <- L. apply (validateAndComplete_keeps _ _ _ P).
    - now apply section_name_not_level.
    - left. now rewrite L. }
  unfold section_get. rewrite G. unfold object_get.
  now rewrite (last_property_line_decides (property_key line) empty_object
                 b1 line b2 Kp I eq_refl H2).
Qed.

Lemma parseAPL_returns_last_property_witness :
  section_get (model_of memory_twice) f_memory (lit "pace")
  = Some (VStr (lit "fast")).
Proof.
  apply (parseAPL_returns_last_property memory_twice (model_of memory_twice)
           [lit "@memory {"; lit "growth_pattern: slow"; lit "}";
            lit "@mood cheerful"]
           (lit "@memory {")
           [lit "pace: slow"] (lit "pace: fast") [lit "origin: sea"] []).
  - vm_compute. reflexivity.
  - vm_compute. reflexivity.
  - vm_compute. reflexivity.
  - vm_compute. reflexivity.
  - vm_compute. discriminate.
  - constructor; [vm_compute; reflexivity|].
    constructor; [vm_compute; reflexivity|].
    constructor; [vm_compute; reflexivity|]. constructor.
  - constructor.
  - vm_compute. reflexivity.
  - vm_compute. discriminate.
  - constructor; [|constructor]. intros _. vm_compute. discriminate.
Defined.

(** Extra X26.  A directive line that stores a string, of a name the
    parser knows or not, is returned by parseAPL under that name when
    it is the last line writing the name: unchanged if the string is
    not empty or the name is not one of those parseAPL defaults. *)
Theorem parseAPL_returns_last_directive aplCode c lines1 line lines2 k f :
  parseAPL aplCode = Ok c ->
  lines_of aplCode = lines1 ++ line :: lines2 ->
  scalar_write line = Some (k, f) ->
  section_open (run initial lines1) <> Some k ->
  Forall (fun l => writes k l = false) lines2 ->
  k <> f_consciousness_level ->
  truthy (Some f) = true \/ ~ In k defaulted_fields ->
  get c k = Some f.
Proof.
  intros P E W S HF K T. unfold parseAPL in P. rewrite E in P.
  pose proof (last_scalar_directive_decides k f lines1 line lines2 W S HF) as L.
  apply get_own in L. rewrite <- L.
  apply (validateAndComplete_keeps _ _ _ P K).
  destruct T as [T|T]; [left; now rewrite L|now right].
Qed.

Lemma parseAPL_returns_last_directive_witness :
  get (model_of memory_twice) (lit "mood") = string_field "cheerful".
Proof.
  apply (parseAPL_returns_last_directive memory_twice (model_of memory_twice)
           [lit "@memory {"; lit "growth_pattern: slow"; lit "}"]
           (lit "@mood cheerful")
           [lit "@memory {"; lit "pace: slow"; lit "pace: fast";
            lit "origin: sea"; lit "}"]).
  - vm_compute. reflexivity.
  - vm_compute. reflexivity.
  - vm_compute. reflexivity.
  - vm_compute. discriminate.
  - constructor; [vm_compute; reflexivity|].
    constructor; [vm_compute; reflexivity|].
    constructor; [vm_compute; reflexivity|].
    constructor; [vm_compute; reflexivity|].
    constructor; [vm_compute; reflexivity|]. constructor.
  - vm_compute. discriminate.
  - left. reflexivity.
Defined.

(* ================================================================== *)
(** ** parseArray and parseNestedObject *)
(* ================================================================== *)

(** Extra X27.  parseArray never returns an empty array: whatever the
    text, the result has at least one item, and the text of an empty
    array is read as an array of one empty string. *)
Theorem parseArray_never_empty value :
  parseArray value <> [] /\ parseArray (lit "[]") = [[]].
Proof.
  unfold parseArray. split; [|reflexivity].
  destruct (split_cons 44 (slice1m1 value)) as (h & t & ->). discriminate.
Qed.

Lemma trimStart_before c a rest :
  is_ws c = false -> trimStart (a ++ c :: rest) = trimStart a ++ c :: rest.
Proof.
  intros H. rewrite trimStart_app, (trimStart_nonws _ _ H).
  now destruct (trimStart a).
Qed.

Lemma trimEnd_after c a rest :
  is_ws c = false -> trimEnd (a ++ c :: rest) = a ++ c :: trimEnd rest.
Proof.
  intros H. unfold trimEnd. rewrite rev_app_distr. cbn [rev].
  rewrite <- app_assoc. cbn [app].
  rewrite (trimStart_before c (rev rest) (rev a) H).
  rewrite rev_app_distr. cbn [rev]. rewrite rev_involutive, <- app_assoc.
  reflexivity.
Qed.

Lemma colon_nonws : is_ws 58%N = false.
Proof. reflexivity. Qed.

Lemma trimStart_free c s : ~ In c s -> ~ In c (trimStart s).
Proof. intros H Hin. apply H. now apply trimStart_incl. Qed.

Lemma trimEnd_free c s : ~ In c s -> ~ In c (trimEnd s).
Proof.
  intros H Hin. apply H. unfold trimEnd in Hin. apply in_rev in Hin.
  apply trimStart_incl in Hin. now apply in_rev.
Qed.

Lemma trim_trimStart s : trim (trimStart s) = trim s.
Proof. unfold trim. now rewrite trimStart_idempotent. Qed.

Lemma trimStart_trimEnd s : trimStart (trimEnd s) = trimEnd (trimStart s).
Proof.
  induction s as [|c u IH] using rev_ind; [reflexivity|].
  rewrite trimEnd_snoc, trimStart_app. destruct (is_ws c) eqn:W.
  - rewrite IH. destruct (trimStart u) as [|x r] eqn:E.
    + cbn [trimStart]. now rewrite W.
    + now rewrite (trimEnd_ws_snoc _ _ W).
  - rewrite trimStart_app. destruct (trimStart u) as [|x r] eqn:E.
    + cbn [trimStart]. rewrite W.
      symmetry. apply (trimEnd_snoc_nonws [] c W).
    + symmetry. now apply trimEnd_snoc_nonws.
Qed.

Lemma trim_trimEnd s : trim (trimEnd s) = trim s.
Proof.
  unfold trim. now rewrite trimStart_trimEnd, trimEnd_idempotent.
Qed.

Lemma trim_around c a rest :
  is_ws c = false -> trim (a ++ c :: rest) = trimStart a ++ c :: trimEnd rest.
Proof.
  intros H. unfold trim.
  now rewrite (trimStart_before _ _ _ H), (trimEnd_after _ _ _ H).
Qed.

(** The two parts of a pair with one colon, as parseNestedObject cuts
    them. *)
Lemma pair_parts key val :
  ~ In 58%N key -> ~ In 58%N val ->
  map trim (split 58 (trim (key ++ 58%N :: val))) = [trim key; trim val].
Proof.
  intros Hk Hv. rewrite (trim_around _ _ _ colon_nonws).
  rewrite (split_app _ _ _ (trimStart_free _ _ Hk)).
  rewrite (split_free _ _ (trimEnd_free _ _ Hv)).
  cbn [map]. now rewrite trim_trimStart, trim_trimEnd.
Qed.

Lemma pair_parts_more key val more :
  ~ In 58%N key -> ~ In 58%N val ->
  exists rest,
    map trim (split 58 (trim (key ++ 58%N :: val ++ 58%N :: more)))
    = trim key :: trim val :: rest.
Proof.
  intros Hk Hv.
  replace (key ++ 58%N :: val ++ 58%N :: more)
    with ((key ++ 58%N :: val) ++ 58%N :: more)
    by (rewrite <- app_assoc; reflexivity).
  rewrite (trim_around _ _ _ colon_nonws).
  rewrite (trimStart_before _ _ _ colon_nonws), <- app_assoc. cbn [app].
  rewrite (split_app _ _ _ (trimStart_free _ _ Hk)).
  rewrite (split_app _ _ _ Hv).
  cbn [map]. rewrite trim_trimStart. eauto.
Qed.

(** Extra X28.  In a nested object, a pair is cut at its first and at
    its second colon: the text after a second colon is dropped, where a
    property line keeps it. *)
Theorem nested_value_cut_at_second_colon key val more :
  ~ In 58%N key -> ~ In 58%N val ->
  ~ In 44%N key -> ~ In 44%N val -> ~ In 44%N more ->
  parseNestedObject (nested_pair_more key val more)
  = parseNestedObject (nested_pair key val).
Proof.
  intros Hk Hv Ck Cv Cm. unfold parseNestedObject.
  assert (S1 : slice1m1 (nested_pair_more key val more)
               = key ++ 58%N :: val ++ 58%N :: more).
  { unfold nested_pair_more, slice1m1. change (lit "{") with [123%N].
    change (lit ":") with [58%N]. change (lit "}") with [125%N]. cbn [app tl].
    replace (key ++ 58%N :: val ++ 58%N :: more ++ [125%N])
      with ((key ++ 58%N :: val ++ 58%N :: more) ++ [125%N]).
    - apply removelast_last.
    - rewrite <- app_assoc. cbn [app]. rewrite <- app_assoc. reflexivity. }
  assert (S2 : slice1m1 (nested_pair key val) = key ++ 58%N :: val).
  { unfold nested_pair, slice1m1. change (lit "{") with [123%N].
    change (lit ":") with [58%N]. change (lit "}") with [125%N]. cbn [app tl].
    replace (key ++ 58%N :: val ++ [125%N])
      with ((key ++ 58%N :: val) ++ [125%N])
      by (rewrite <- app_assoc; reflexivity).
    apply removelast_last. }
  rewrite S1, S2.
  assert (N1 : nonempty (trim (key ++ 58%N :: val ++ 58%N :: more)) = true).
  { rewrite (trim_around _ _ _ colon_nonws). now destruct (trimStart key). }
  assert (N2 : nonempty (trim (key ++ 58%N :: val)) = true).
  { rewrite (trim_around _ _ _ colon_nonws). now destruct (trimStart key). }
  rewrite N1, N2.
  assert (F1 : ~ In 44%N (trim (key ++ 58%N :: val ++ 58%N :: more))).
  { intros H. apply trim_incl in H. apply in_app_iff in H as [H|[H|H]];
      [contradiction|discriminate|].
    apply in_app_iff in H as [H|[H|H]]; [contradiction|discriminate|contradiction]. }
  assert (F2 : ~ In 44%N (trim (key ++ 58%N :: val))).
  { intros H. apply trim_incl in H. apply in_app_iff in H as [H|[H|H]];
      [contradiction|discriminate|contradiction]. }
  rewrite (split_free _ _ F1), (split_free _ _ F2). cbn [fold_left].
  destruct (pair_parts_more key val more Hk Hv) as (rest & ->).
  now rewrite (pair_parts key val Hk Hv).
Qed.

Lemma nested_value_cut_at_second_colon_witness :
  parseNestedObject (nested_pair_more (lit "at") (lit " 10") (lit "30"))
  = [(lit "at", lit "10")].
Proof.
  rewrite (nested_value_cut_at_second_colon (lit "at") (lit " 10") (lit "30")).
  - reflexivity.
  - vm_compute. intuition discriminate.
  - vm_compute. intuition discriminate.
  - vm_compute. intuition discriminate.
  - vm_compute. intuition discriminate.
  - vm_compute. intuition discriminate.
Defined.
